(** * PromptGuard: the test execution engine, its assertion evaluators and
      the baseline differ, as a shallow embedding of the Go sources.

    Layout
    - [GoLib]      : the few Go standard-library functions the engine calls
                     (strings.ToLower, strings.Fields, strings.Contains,
                     strings.SplitN, fmt's %d and %.Nf verbs), with the
                     decoding of UTF-8 that the first two rest on.
    - [config]     : internal/config (Config, Provider, Test, Assertion).
    - [providers]  : internal/providers (Response, Client, NewClient).
    - [runner] types, [assertions], then the [runner] functions and the
      goroutine pool of [Runner.Run] as a labelled transition system.
    - [diff]       : internal/diff (GenerateBaselineComparison).
    - [runner_facts], [pool_facts] : lemmas on runSingleTest and on the
      pool (invariant, absence of deadlock, termination).
    - [demo]       : a concrete world and configurations.
    - [golib_facts] : lemmas on the strings of [GoLib] (runes and their
                     bytes, fields as maximal runs).
    - [config_validate] : internal/config (Config.Validate).
    - [run_properties], [dispatch_properties], [expander_properties],
      [relevance_properties], [json_properties], [diff_properties] :
      the properties C1 to C10.
    - [verdict_properties], [toxicity_properties], [provider_properties],
      [validate_properties], [run_edges] : further properties of the
      verdict of a case, the evaluators, the providers, the validation
      and the edge cases of Run.

    Conventions
    - Go [string] is a byte string: Stdlib [string].
    - Go [float64] is [PrimFloat.float] (IEEE-754 binary64).
    - Go [int] is [Z]; the counters of a run are bounded by the number of
      test cases, so their increments never wrap.
    - Go [error] is the text of its message ([%v] prints exactly that).
    - [interface{}] values coming from YAML or JSON are [Value]s.
    - Wall-clock fields (Duration, Metadata.Timestamp) are left out: they
      are read from the clock and nothing below depends on them. *)

From Stdlib Require Import ZArith String Ascii List Bool Lia.
From Stdlib Require Import Floats.PrimFloat Floats.SpecFloat Floats.FloatOps Uint63.
From Stdlib Require Import DecimalString ssreflect.
From stdpp Require Import base option list gmap strings sorting.

Set Warnings "-register-all,-inexact-float,-rewrite-rw,-clear-no-such-hyp".

Local Open Scope string_scope.
Local Open Scope Z_scope.
Local Open Scope list_scope.
Local Open Scope stdpp_scope.

(* ===================================================================== *)
(** * Go standard library pieces *)
(* ===================================================================== *)

Module GoLib.

(** ** package unicode/utf8 *)

Definition RuneError : Z := 65533.   (* U+FFFD *)

Definition byteOf (c : ascii) : Z := Z.of_nat (nat_of_ascii c).

Definition byteString (b : Z) : string :=
  String (ascii_of_nat (Z.to_nat b)) EmptyString.

(** [utf8.DecodeRuneInString]: the first rune of [s] and its width in
    bytes; (RuneError, 1) for a byte that starts no well-formed encoding
    and (RuneError, 0) for the empty string. The bounds on the second
    byte are those of the table acceptRanges. *)
Definition DecodeRuneInString (s : string) : Z * nat :=
  let continues (b : Z) := (128 <=? b) && (b <=? 191) in
  match s with
  | EmptyString => (RuneError, 0%nat)
  | String c0 s1 =>
      let b0 := byteOf c0 in
      if b0 <? 128 then (b0, 1%nat)
      else if (b0 <? 194) || (244 <? b0) then (RuneError, 1%nat)
      else
        let lo := if b0 =? 224 then 160 else if b0 =? 240 then 144 else 128 in
        let hi := if b0 =? 237 then 159 else if b0 =? 244 then 143 else 191 in
        match s1 with
        | EmptyString => (RuneError, 1%nat)
        | String c1 s2 =>
            let b1 := byteOf c1 in
            if (b1 <? lo) || (hi <? b1) then (RuneError, 1%nat)
            else if b0 <? 224 then
              (Z.lor (Z.shiftl (Z.land b0 31) 6) (Z.land b1 63), 2%nat)
            else
              match s2 with
              | EmptyString => (RuneError, 1%nat)
              | String c2 s3 =>
                  let b2 := byteOf c2 in
                  if negb (continues b2) then (RuneError, 1%nat)
                  else if b0 <? 240 then
                    (Z.lor (Z.lor (Z.shiftl (Z.land b0 15) 12)
                                  (Z.shiftl (Z.land b1 63) 6))
                           (Z.land b2 63), 3%nat)
                  else
                    match s3 with
                    | EmptyString => (RuneError, 1%nat)
                    | String c3 _ =>
                        let b3 := byteOf c3 in
                        if negb (continues b3) then (RuneError, 1%nat)
                        else
                          (Z.lor (Z.lor (Z.lor (Z.shiftl (Z.land b0 7) 18)
                                               (Z.shiftl (Z.land b1 63) 12))
                                        (Z.shiftl (Z.land b2 63) 6))
                                 (Z.land b3 63), 4%nat)
                    end
              end
        end
  end.

(** [utf8.AppendRune] to the empty string: the encoding of [r], and that
    of RuneError for a surrogate or a value out of range. *)
Definition AppendRune (r : Z) : string :=
  let tail (shift : Z) (r : Z) := byteString (Z.lor 128 (Z.land (Z.shiftr r shift) 63)) in
  if (0 <=? r) && (r <=? 127) then byteString r
  else if (0 <=? r) && (r <=? 2047) then
    byteString (Z.lor 192 (Z.shiftr r 6)) +:+ tail 0 r
  else
    let r :=
      if (r <? 0) || (1114111 <? r) || ((55296 <=? r) && (r <=? 57343))
      then RuneError else r in
    if r <=? 65535 then
      byteString (Z.lor 224 (Z.shiftr r 12)) +:+ tail 6 r +:+ tail 0 r
    else
      byteString (Z.lor 240 (Z.shiftr r 18)) +:+ tail 12 r +:+ tail 6 r +:+ tail 0 r.

(** [for _, r := range s]: the runes of [s] in order, each with the bytes
    it was read from. [skip] counts the bytes of the rune read last that
    are still to pass. *)
Fixpoint rangeFrom (skip : nat) (s : string) : list (Z * string) :=
  match s with
  | EmptyString => []
  | String _ s' =>
      match skip with
      | S k => rangeFrom k s'
      | O =>
          let '(r, width) := DecodeRuneInString s in
          (r, substring 0 width s) :: rangeFrom (width - 1) s'
      end
  end.

Definition rangeString (s : string) : list (Z * string) := rangeFrom 0 s.

(** ** package unicode *)

(** [unicode.ToLower]. [lowerCase] is [unicode.To(unicode.LowerCase, r)],
    read from the table unicode.CaseRanges, which is consulted above
    U+007F only. *)
Definition unicode_ToLower (lowerCase : Z -> Z) (r : Z) : Z :=
  if r <=? 127 then
    if (65 <=? r) && (r <=? 90) then r + 32 else r
  else lowerCase r.

(** [unicode.IsSpace]: the Latin-1 spaces, then the table White_Space. *)
Definition unicode_IsSpace (r : Z) : bool :=
  if (0 <=? r) && (r <=? 255) then
    ((9 <=? r) && (r <=? 13)) || (r =? 32) || (r =? 133) || (r =? 160)
  else
    (r =? 5760) || ((8192 <=? r) && (r <=? 8202)) || (r =? 8232) || (r =? 8233)
    || (r =? 8239) || (r =? 8287) || (r =? 12288).

(** ** package strings *)

(** [strings.Map]: every rune is replaced by its image, an invalid byte
    counting as RuneError; a negative image drops the rune. *)
Fixpoint mapRunes (mapping : Z -> Z) (runes : list (Z * string)) : string :=
  match runes with
  | [] => EmptyString
  | (r, _) :: rest =>
      let r' := mapping r in
      (if r' <? 0 then EmptyString else AppendRune r') +:+ mapRunes mapping rest
  end.

Definition Map (mapping : Z -> Z) (s : string) : string :=
  mapRunes mapping (rangeString s).

(** [strings.ToLower]. On a string of ASCII bytes Go takes a shortcut
    that gives the same string. *)
Definition ToLower (lowerCase : Z -> Z) (s : string) : string :=
  Map (unicode_ToLower lowerCase) s.

(** The loop of [strings.FieldsFunc] over the runes; [cur] is the field
    being read, if one is open. *)
Fixpoint fieldsOf (f : Z -> bool) (cur : option string) (runes : list (Z * string))
  : list string :=
  match runes with
  | [] => match cur with Some field => [field] | None => [] end
  | (r, bytes) :: rest =>
      if f r then
        match cur with
        | Some field => field :: fieldsOf f None rest
        | None => fieldsOf f None rest
        end
      else
        match cur with
        | Some field => fieldsOf f (Some (field +:+ bytes)) rest
        | None => fieldsOf f (Some bytes) rest
        end
  end.

Definition FieldsFunc (f : Z -> bool) (s : string) : list string :=
  fieldsOf f None (rangeString s).

(** [strings.Fields]. On a string of ASCII bytes Go takes a shortcut that
    gives the same fields. *)
Definition Fields (s : string) : list string := FieldsFunc unicode_IsSpace s.

Fixpoint HasPrefix (s prefix : string) : bool :=
  match prefix, s with
  | EmptyString, _ => true
  | String _ _, EmptyString => false
  | String a p', String b s' => if Ascii.eqb a b then HasPrefix s' p' else false
  end.

Fixpoint Contains (s substr : string) : bool :=
  HasPrefix s substr ||
  match s with
  | EmptyString => false
  | String _ s' => Contains s' substr
  end.

(** [strings.SplitN(s, sep, 2)] for a one-byte separator: cut at the first
    occurrence, or the whole string alone when there is none. *)
Fixpoint cutAt (sep : ascii) (s : string) : option (string * string) :=
  match s with
  | EmptyString => None
  | String c s' =>
      if Ascii.eqb c sep then Some (EmptyString, s')
      else match cutAt sep s' with
           | Some (a, b) => Some (String c a, b)
           | None => None
           end
  end.

Definition SplitN2 (s : string) (sep : ascii) : list string :=
  match cutAt sep s with
  | Some (a, b) => [a; b]
  | None => [s]
  end.

(** ** package fmt *)

(** The verb %d on an int. *)
Definition fmt_d (n : Z) : string := NilZero.string_of_int (Z.to_int n).

(** [padLeft width s]: [s] with zeros added on the left up to [width]. *)
Fixpoint zeros (n : nat) : string :=
  match n with
  | O => EmptyString
  | S k => String "0" (zeros k)
  end.

Definition padLeft (width : nat) (s : string) : string :=
  zeros (width - String.length s) +:+ s.

(** Decimal digits of a natural number, most significant first. *)
Definition digits (n : Z) : string := NilZero.string_of_uint (N.to_uint (Z.to_N n)).

(** [round_half_even num den]: the integer nearest to num/den, ties to
    even (num >= 0, den > 0).  This is the rounding of strconv's 'f'
    format, whose digits come from the exact decimal expansion. *)
Definition round_half_even (num den : Z) : Z :=
  let q := num / den in
  let r := num mod den in
  match Z.compare (2 * r) den with
  | Lt => q
  | Gt => q + 1
  | Eq => if Z.even q then q else q + 1
  end.

(** The verb %.{prec}f on a float64. *)
Definition fmt_f (prec : nat) (x : float) : string :=
  let fixed (neg : bool) (scaled : Z) : string :=
    let ds := padLeft (S prec) (digits scaled) in
    let k := (String.length ds - prec)%nat in
    let body :=
      match prec with
      | O => ds
      | _ => substring 0 k ds +:+ "." +:+ substring k prec ds
      end in
    if neg then "-" +:+ body else body in
  match Prim2SF x with
  | S754_nan => "NaN"
  | S754_infinity false => "+Inf"
  | S754_infinity true => "-Inf"
  | S754_zero neg => fixed neg 0
  | S754_finite neg m e =>
      let p10 := 10 ^ Z.of_nat prec in
      let scaled :=
        if 0 <=? e then Z.pos m * 2 ^ e * p10
        else round_half_even (Z.pos m * p10) (2 ^ (- e)) in
      fixed neg scaled
  end.

(** float64(n) for an int n. *)
Definition float64_of_int (n : Z) : float :=
  if n <? 0 then PrimFloat.opp (PrimFloat.of_uint63 (Uint63.of_Z (- n)))
  else PrimFloat.of_uint63 (Uint63.of_Z n).

(** len(l) as an int. *)
Definition len {A : Type} (l : list A) : Z := Z.of_nat (length l).

End GoLib.

Import GoLib.


(** Go's [(T, error)] results. *)
Inductive result (A : Type) : Type :=
| Ok (a : A)
| Err (msg : string).
Arguments Ok {A} a.
Arguments Err {A} msg.

(** A dynamically typed value ([interface{}]) as yaml.v3 and
    encoding/json build them; [VNil] is the nil interface. *)
Inductive Value : Type :=
| VNil
| VBool (b : bool)
| VInt (n : Z)
| VFloat (x : float)
| VString (s : string)
| VList (l : list Value)
| VMap (m : list (string * Value)).

(** [m[key]] on a [map[string]interface{}] held as an association list. *)
Fixpoint mapLookup (key : string) (m : list (string * Value)) : option Value :=
  match m with
  | [] => None
  | (k, v) :: m' => if String.eqb k key then Some v else mapLookup key m'
  end.

(* ===================================================================== *)
(** * A reference decoder for encoding/json *)
(* ===================================================================== *)

(** The engine calls [json.Unmarshal(data, &v)] with [v] an [interface{}].
    The theorems take the decoder from the [World] and hold for any
    decoder; the one below decodes the grammar of RFC 8259 the way
    encoding/json does and serves to run the engine on concrete texts.
    It does not reproduce the wording of Go's error messages. *)

Module jsonref.

Definition quote : ascii := ascii_of_nat 34.
Definition backslash : ascii := ascii_of_nat 92.

Definition isWS (c : ascii) : bool :=
  let n := nat_of_ascii c in
  (n =? 32)%nat || (n =? 9)%nat || (n =? 10)%nat || (n =? 13)%nat.

Fixpoint skipWS (s : string) : string :=
  match s with
  | String c s' => if isWS c then skipWS s' else s
  | EmptyString => s
  end.

Definition digitVal (c : ascii) : option Z :=
  let n := nat_of_ascii c in
  if (48 <=? n)%nat && (n <=? 57)%nat then Some (Z.of_nat n - 48) else None.

Definition hexVal (c : ascii) : option Z :=
  let n := nat_of_ascii c in
  if (48 <=? n)%nat && (n <=? 57)%nat then Some (Z.of_nat n - 48)
  else if (65 <=? n)%nat && (n <=? 70)%nat then Some (Z.of_nat n - 55)
  else if (97 <=? n)%nat && (n <=? 102)%nat then Some (Z.of_nat n - 87)
  else None.

(** ** Numbers *)

(** [readDigits s acc count]: the digits at the head of [s] appended to
    [acc], how many there were added to [count], and the rest. *)
Fixpoint readDigits (s : string) (acc count : Z) : Z * Z * string :=
  match s with
  | String c s' =>
      match digitVal c with
      | Some d => readDigits s' (10 * acc + d) (count + 1)
      | None => (acc, count, s)
      end
  | EmptyString => (acc, count, s)
  end.

(** A number literal [-? int frac? exp?] as sign, digits [m] and decimal
    exponent [e]: its value is [m * 10^e]. *)
Definition scanNumber (s : string) : option (bool * Z * Z * string) :=
  let '(neg, s) :=
    match s with
    | String "-" s' => (true, s')
    | _ => (false, s)
    end in
  let intPart :=
    match s with
    | String "0" s' => Some (0, s')
    | _ => let '(m, n, rest) := readDigits s 0 0 in
           if 0 <? n then Some (m, rest) else None
    end in
  match intPart with
  | None => None
  | Some (m, s) =>
      let fracPart :=
        match s with
        | String "." s' =>
            let '(m', n, rest) := readDigits s' m 0 in
            if 0 <? n then Some (m', n, rest) else None
        | _ => Some (m, 0, s)
        end in
      match fracPart with
      | None => None
      | Some (m, nfrac, s) =>
          let expOf (s' : string) :=
            let '(eneg, s') :=
              match s' with
              | String "-" t => (true, t)
              | String "+" t => (false, t)
              | _ => (false, s')
              end in
            let '(e, n, rest) := readDigits s' 0 0 in
            if 0 <? n then Some (neg, m, (if eneg then - e else e) - nfrac, rest)
            else None in
          match s with
          | String "e" s' => expOf s'
          | String "E" s' => expOf s'
          | _ => Some (neg, m, - nfrac, s)
          end
      end
  end.

(** [strconv.ParseFloat(lit, 64)] on [m * 10^e]: the nearest float64,
    ties to even; [None] when that is an infinity (ErrRange). A quotient
    is taken with 60 extra bits and a sticky bit before it is rounded. *)
Definition decimalToFloat (neg : bool) (m e : Z) : option float :=
  if m =? 0 then Some (if neg then (-0)%float else 0%float)
  else if 400 <? e then None
  else if e + Z.log2 m <? -1500 then Some (if neg then (-0)%float else 0%float)
  else
    let sf :=
      if 0 <=? e then binary_normalize prec emax (m * 10 ^ e) 0 false
      else
        let den := 10 ^ (- e) in
        let shift := Z.max 0 (Z.log2 den - Z.log2 m + 60) in
        let q := (m * 2 ^ shift) / den in
        let sticky := if (m * 2 ^ shift) mod den =? 0 then 0 else 1 in
        binary_normalize prec emax (2 * q + sticky) (- (shift + 1)) false in
    match sf with
    | S754_infinity _ => None
    | _ => let x := SF2Prim sf in Some (if neg then PrimFloat.opp x else x)
    end.

(** ** Strings *)

(** The UTF-8 bytes of a code point. *)
Definition byte (n : Z) : ascii := ascii_of_nat (Z.to_nat n).

Definition utf8 (cp : Z) : string :=
  if cp <? 128 then String (byte cp) EmptyString
  else if cp <? 2048 then
    String (byte (192 + cp / 64)) (String (byte (128 + cp mod 64)) EmptyString)
  else if cp <? 65536 then
    String (byte (224 + cp / 4096))
      (String (byte (128 + (cp / 64) mod 64))
         (String (byte (128 + cp mod 64)) EmptyString))
  else
    String (byte (240 + cp / 262144))
      (String (byte (128 + (cp / 4096) mod 64))
         (String (byte (128 + (cp / 64) mod 64))
            (String (byte (128 + cp mod 64)) EmptyString))).

Definition hex4 (a b c d : ascii) : option Z :=
  match hexVal a, hexVal b, hexVal c, hexVal d with
  | Some x, Some y, Some z, Some t => Some (((x * 16 + y) * 16 + z) * 16 + t)
  | _, _, _, _ => None
  end.

Definition isHighSurrogate (u : Z) : bool := (55296 <=? u) && (u <? 56320).
Definition isLowSurrogate (u : Z) : bool := (56320 <=? u) && (u <? 57344).

(** [scanString s]: [s] follows the opening quote; the decoded text and
    what follows the closing quote. *)
Fixpoint scanString (s : string) : option (string * string) :=
  let cons (t : string) (r : option (string * string)) :=
    match r with
    | Some (body, rest) => Some (t +:+ body, rest)
    | None => None
    end in
  match s with
  | EmptyString => None
  | String c s' =>
      if Ascii.eqb c quote then Some (EmptyString, s')
      else if Ascii.eqb c backslash then
        match s' with
        | String "u" (String h1 (String h2 (String h3 (String h4 s2)))) =>
            match hex4 h1 h2 h3 h4 with
            | None => None
            | Some u =>
                if isHighSurrogate u then
                  match s2 with
                  | String b (String "u" (String l1 (String l2 (String l3 (String l4 s3))))) =>
                      match (if Ascii.eqb b backslash then hex4 l1 l2 l3 l4 else None) with
                      | Some lo =>
                          if isLowSurrogate lo then
                            cons (utf8 (65536 + (u - 55296) * 1024 + (lo - 56320)))
                                 (scanString s3)
                          else cons (utf8 65533) (scanString s2)
                      | None => cons (utf8 65533) (scanString s2)
                      end
                  | _ => cons (utf8 65533) (scanString s2)
                  end
                else if isLowSurrogate u then cons (utf8 65533) (scanString s2)
                else cons (utf8 u) (scanString s2)
            end
        | String e s2 =>
            let plain (n : nat) := cons (String (ascii_of_nat n) EmptyString) (scanString s2) in
            if Ascii.eqb e quote then plain 34%nat
            else if Ascii.eqb e backslash then plain 92%nat
            else if Ascii.eqb e "/" then plain 47%nat
            else if Ascii.eqb e "b" then plain 8%nat
            else if Ascii.eqb e "f" then plain 12%nat
            else if Ascii.eqb e "n" then plain 10%nat
            else if Ascii.eqb e "r" then plain 13%nat
            else if Ascii.eqb e "t" then plain 9%nat
            else None
        | EmptyString => None
        end
      else if (nat_of_ascii c <? 32)%nat then None
      else cons (String c EmptyString) (scanString s')
  end.

(** ** Values *)

Fixpoint dropString (n : nat) (s : string) : string :=
  match n, s with
  | S k, String _ s' => dropString k s'
  | _, _ => s
  end.

(** The scanner of encoding/json refuses more than 10000 objects and
    arrays open at once. *)
Definition maxNestingDepth : Z := 10000.

(** A member read into a [map[string]interface{}]: when the same key
    comes again later in the object, the later value replaces it. *)
Definition setMember (key : string) (v : Value) (later : list (string * Value))
  : list (string * Value) :=
  match mapLookup key later with
  | Some _ => later
  | None => (key, v) :: later
  end.

(** [depth] counts the objects and arrays that are open around the value
    being read. *)
Fixpoint parseValue (fuel : nat) (depth : Z) (s : string) : option (Value * string) :=
  match fuel with
  | O => None
  | S fuel' =>
      match skipWS s with
      | EmptyString => None
      | String c s' =>
          if Ascii.eqb c "{" then
            if maxNestingDepth <? depth + 1 then None
            else
              match skipWS s' with
              | String "}" s'' => Some (VMap [], s'')
              | _ => match parseMembers fuel' (depth + 1) s' with
                     | Some (m, rest) => Some (VMap m, rest)
                     | None => None
                     end
              end
          else if Ascii.eqb c "[" then
            if maxNestingDepth <? depth + 1 then None
            else
              match skipWS s' with
              | String "]" s'' => Some (VList [], s'')
              | _ => match parseElements fuel' (depth + 1) s' with
                     | Some (l, rest) => Some (VList l, rest)
                     | None => None
                     end
              end
          else if Ascii.eqb c quote then
            match scanString s' with
            | Some (text, rest) => Some (VString text, rest)
            | None => None
            end
          else if HasPrefix (String c s') "true" then Some (VBool true, dropString 3 s')
          else if HasPrefix (String c s') "false" then Some (VBool false, dropString 4 s')
          else if HasPrefix (String c s') "null" then Some (VNil, dropString 3 s')
          else
            match scanNumber (String c s') with
            | Some (neg, m, e, rest) =>
                match decimalToFloat neg m e with
                | Some x => Some (VFloat x, rest)
                | None => None
                end
            | None => None
            end
      end
  end
with parseMembers (fuel : nat) (depth : Z) (s : string)
  : option (list (string * Value) * string) :=
  match fuel with
  | O => None
  | S fuel' =>
      match skipWS s with
      | String c s1 =>
          if Ascii.eqb c quote then
            match scanString s1 with
            | Some (key, s2) =>
                match skipWS s2 with
                | String ":" s3 =>
                    match parseValue fuel' depth s3 with
                    | Some (v, s4) =>
                        match skipWS s4 with
                        | String "," s5 =>
                            match parseMembers fuel' depth s5 with
                            | Some (m, s6) => Some (setMember key v m, s6)
                            | None => None
                            end
                        | String "}" s5 => Some ([(key, v)], s5)
                        | _ => None
                        end
                    | None => None
                    end
                | _ => None
                end
            | None => None
            end
          else None
      | EmptyString => None
      end
  end
with parseElements (fuel : nat) (depth : Z) (s : string) : option (list Value * string) :=
  match fuel with
  | O => None
  | S fuel' =>
      match parseValue fuel' depth s with
      | Some (v, s1) =>
          match skipWS s1 with
          | String "," s2 =>
              match parseElements fuel' depth s2 with
              | Some (l, s3) => Some (v :: l, s3)
              | None => None
              end
          | String "]" s2 => Some ([v], s2)
          | _ => None
          end
      | None => None
      end
  end.

(** [json.Unmarshal] into an [interface{}]: one value, white space
    around it, nothing else. *)
Definition Unmarshal (data : string) : result Value :=
  match parseValue (2 * String.length data + 2) 0 data with
  | Some (v, rest) =>
      match skipWS rest with
      | EmptyString => Ok v
      | _ => Err "invalid character after top-level value"
      end
  | None => Err "invalid JSON input"
  end.

End jsonref.

(* ===================================================================== *)
(** * internal/config *)
(* ===================================================================== *)

Module config.

Record Provider := {
  ID : string;
  Config_ : list (string * Value);
}.

Record Assertion := {
  Type_ : string;
  Value_ : Value;
  Threshold : float;
  Required : bool;
}.

Record Test := {
  Name : string;
  Description : string;
  Variables : list (string * Value);
  Assert : list Assertion;
  Provider_ : string;
}.

Record Config := {
  Prompts : list string;
  Providers : list Provider;
  Tests : list Test;
}.

(** [Config.GetProvider]: the first provider with that id. *)
Fixpoint findProvider (ps : list Provider) (id : string) : result Provider :=
  match ps with
  | [] => Err ("provider not found: " +:+ id)
  | p :: ps' => if String.eqb (ID p) id then Ok p else findProvider ps' id
  end.

Definition GetProvider (c : Config) (id : string) : result Provider :=
  findProvider (Providers c) id.

End config.

(* ===================================================================== *)
(** * internal/providers and internal/prompts *)
(* ===================================================================== *)

Module providers.

Record Response := {
  Text : string;
  Cost : float;
  Tokens : Z;
  Provider : string;
  Model : string;
}.

Inductive Client : Type :=
| OpenAIClient (model : string) (cfg : list (string * Value))
| AnthropicClient (model : string) (cfg : list (string * Value))
| MistralClient (model : string) (cfg : list (string * Value))
| OllamaClient (baseURL model : string) (cfg : list (string * Value)).

End providers.

Module prompts.

(** A loaded prompt: its text once the front matter is cut off. The
    parsed template is the business of text/template. *)
Record Prompt := { Content : string }.

End prompts.

(** What the engine reads from outside the process, the decoder of
    encoding/json that it calls, and the case table of package unicode. A world answers a request the same way
    throughout a run. Every theorem below holds for every [World]. *)
Record World := {
  (** prompts.LoadFromFile: os.ReadFile, front matter, template.Parse *)
  LoadFromFile : string -> result prompts.Prompt;
  (** Prompt.Render: template.Execute *)
  Render : prompts.Prompt -> list (string * Value) -> result string;
  (** os.Getenv *)
  Getenv : string -> string;
  (** the HTTP round trip of a client's Complete *)
  remoteComplete : providers.Client -> string -> result providers.Response;
  (** json.Unmarshal into an interface{} *)
  jsonUnmarshal : string -> result Value;
  (** unicode.To(unicode.LowerCase, r) on the runes above U+007F: the
      table unicode.CaseRanges of the Go release in use *)
  unicodeLowerCase : Z -> Z;
}.

Module providers_client.
Import providers.

Definition NewOpenAIClient (w : World) (model : string) (cfg : list (string * Value))
  : result Client :=
  if String.eqb (Getenv w "OPENAI_API_KEY") "" then
    Err "OPENAI_API_KEY environment variable not set"
  else Ok (OpenAIClient model cfg).

Definition NewAnthropicClient (w : World) (model : string) (cfg : list (string * Value))
  : result Client :=
  if String.eqb (Getenv w "ANTHROPIC_API_KEY") "" then
    Err "ANTHROPIC_API_KEY environment variable not set"
  else Ok (AnthropicClient model cfg).

Definition NewMistralClient (w : World) (model : string) (cfg : list (string * Value))
  : result Client :=
  if String.eqb (Getenv w "MISTRAL_API_KEY") "" then
    Err "MISTRAL_API_KEY environment variable not set"
  else Ok (MistralClient model cfg).

(** ollama.go: the base URL comes from the configuration when it holds a
    string under "base_url". *)
Definition NewOllamaClient (model : string) (cfg : list (string * Value))
  : result Client :=
  let baseURL :=
    match mapLookup "base_url" cfg with
    | Some (VString url) => url
    | _ => "http://localhost:11434"
    end in
  Ok (OllamaClient baseURL model cfg).

Definition NewClient (w : World) (provider : config.Provider) : result Client :=
  match SplitN2 (config.ID provider) ":" with
  | [providerName; model] =>
      if String.eqb providerName "openai" then
        NewOpenAIClient w model (config.Config_ provider)
      else if String.eqb providerName "anthropic" then
        NewAnthropicClient w model (config.Config_ provider)
      else if String.eqb providerName "mistral" then
        NewMistralClient w model (config.Config_ provider)
      else if String.eqb providerName "ollama" then
        NewOllamaClient model (config.Config_ provider)
      else Err ("unsupported provider: " +:+ providerName)
  | _ =>
      Err ("invalid provider ID format: " +:+ config.ID provider
           +:+ " (expected provider:model)")
  end.

(** [Client.Complete]. The Anthropic and Mistral clients are stubs that
    always fail; the other two talk to their server. *)
Definition Complete (w : World) (c : Client) (prompt : string) : result Response :=
  match c with
  | AnthropicClient _ _ => Err "Anthropic provider not yet implemented"
  | MistralClient _ _ => Err "Mistral provider not yet implemented"
  | _ => remoteComplete w c prompt
  end.

End providers_client.

(* ===================================================================== *)
(** * internal/runner: the result types *)
(* ===================================================================== *)

Module runner_types.

Record AssertionResult := {
  Type_ : string;
  Expected : Value;
  Actual : Value;
  Passed : bool;
  Score : float;
  Message : string;
}.

(** [AssertionResult{}] *)
Definition zeroAssertionResult : AssertionResult :=
  {| Type_ := ""; Expected := VNil; Actual := VNil; Passed := false;
     Score := 0%float; Message := "" |}.

Record TestResult := {
  Name : string;
  PromptFile : string;
  Provider : string;
  Variables : list (string * Value);
  Response : string;
  Assertions : list AssertionResult;
  Cost : float;
  Status : string;   (* passed, failed, skipped *)
  Error : string;
}.

Record Metadata := {
  CommitSHA : string;
  PRNumber : string;
  Branch : string;
  Version : string;
}.

Record Results := {
  Total : Z;
  Passed_ : Z;
  Failed : Z;
  Skipped : Z;
  TotalCost : float;
  TestResults : list TestResult;
  Metadata_ : Metadata;
}.

Record Options := {
  Parallel : Z;
  UpdateBaseline : bool;
  Filters : list string;
  Verbose : bool;
  CIMode : bool;
  BaselinePath : string;
  OptCommitSHA : string;
  OptPRNumber : string;
}.

Record TestCase := {
  tcName : string;
  tcPromptFile : string;
  tcProvider : string;
  tcVariables : list (string * Value);
  tcTest : config.Test;
}.

End runner_types.

(* ===================================================================== *)
(** * internal/assertions *)
(* ===================================================================== *)

Module assertions.
Import runner_types.

(** The implementations of the [Evaluator] interface. *)
Inductive Evaluator : Type :=
| AnswerRelevanceEvaluator
| ContainsJSONEvaluator
| CostEvaluator
| LLMRubricEvaluator
| ClosedQAEvaluator
| ToxicityEvaluator
| JailbreakEvaluator
| UnsupportedEvaluator (Type_ : string).

Definition NewEvaluator (assertionType : string) : Evaluator :=
  if String.eqb assertionType "answer-relevance" then AnswerRelevanceEvaluator
  else if String.eqb assertionType "contains-json" then ContainsJSONEvaluator
  else if String.eqb assertionType "cost" then CostEvaluator
  else if String.eqb assertionType "llm-rubric" then LLMRubricEvaluator
  else if String.eqb assertionType "closed-qa" then ClosedQAEvaluator
  else if String.eqb assertionType "toxicity" then ToxicityEvaluator
  else if String.eqb assertionType "jailbreak" then JailbreakEvaluator
  else UnsupportedEvaluator assertionType.

(** ** Helper functions *)

(** The [for _, word := range words] loop that counts the matches. *)
Definition countMatches (text : string) (words : list string) : Z :=
  fold_left (fun matches word => if Contains text word then matches + 1 else matches)
            words 0.

Definition calculateRelevanceScore (w : World) (text expectedContent : string) : float :=
  let text := ToLower (unicodeLowerCase w) text in
  let expectedContent := ToLower (unicodeLowerCase w) expectedContent in
  let words := Fields expectedContent in
  let matches := countMatches text words in
  if len words =? 0 then 0%float
  else PrimFloat.div (float64_of_int matches) (float64_of_int (len words)).

(** *** extractJSON *)

Definition jsonRegex : string := "\{[^{}]*(?:\{[^{}]*\}[^{}]*)*\}".

(** [jsonRegex] reads: an opening brace,
    then plain (brace-free) text in which brace pairs around plain text
    may occur, then a closing brace. Braces are single bytes that never
    occur inside a multi-byte character, so matching on bytes is exact.
    From a given start the pattern has at most one match, which the
    two-state automaton [matchBody] finds. *)

Definition isOpen (c : ascii) : bool := Ascii.eqb c "{".
Definition isClose (c : ascii) : bool := Ascii.eqb c "}".

(** [matchBody inner s]: [s] follows the opening brace; [inner] tells
    whether a nested pair is open. The result is the number of bytes up
    to and including the closing brace of the match. *)
Fixpoint matchBody (inner : bool) (s : string) : option nat :=
  match s with
  | EmptyString => None
  | String c s' =>
      if isOpen c then
        if inner then None else S <$> matchBody true s'
      else if isClose c then
        if inner then S <$> matchBody false s' else Some 1%nat
      else S <$> matchBody inner s'
  end.

Definition matchAt (s : string) : option nat :=
  match s with
  | String c s' => if isOpen c then S <$> matchBody false s' else None
  | EmptyString => None
  end.

(** [regexp.FindAllString(text, -1)]: the successive leftmost matches,
    none overlapping the one before. [skip] counts the bytes of [s] that
    still belong to the previous match. *)
Fixpoint findAllFrom (skip : nat) (s : string) : list string :=
  match s with
  | EmptyString => []
  | String _ s' =>
      match skip with
      | S k => findAllFrom k s'
      | O =>
          match matchAt s with
          | Some n => substring 0 n s :: findAllFrom (n - 1) s'
          | None => findAllFrom 0 s'
          end
      end
  end.

Definition FindAllString (text : string) : list string := findAllFrom 0 text.

(** The loop of extractJSON over the matches. *)
Fixpoint firstParsing (w : World) (matches : list string) : string :=
  match matches with
  | [] => ""
  | m :: rest =>
      match jsonUnmarshal w m with
      | Ok _ => m
      | Err _ => firstParsing w rest
      end
  end.

Definition extractJSON (w : World) (text : string) : string :=
  firstParsing w (FindAllString text).

(** The verb %T on a decoded JSON value. *)
Definition goTypeName (v : Value) : string :=
  match v with
  | VNil => "<nil>"
  | VBool _ => "bool"
  | VInt _ => "int"
  | VFloat _ => "float64"
  | VString _ => "string"
  | VList _ => "[]interface {}"
  | VMap _ => "map[string]interface {}"
  end.

(** The loop of validateJSONSchema over the required fields. *)
Fixpoint checkRequired (dataMap : list (string * Value)) (required : list Value)
  : result unit :=
  match required with
  | [] => Ok tt
  | field :: rest =>
      match field with
      | VString fieldName =>
          match mapLookup fieldName dataMap with
          | Some _ => checkRequired dataMap rest
          | None => Err ("required field missing: " +:+ fieldName)
          end
      | _ => checkRequired dataMap rest
      end
  end.

Definition validateJSONSchema (data : Value) (schema : list (string * Value))
  : result unit :=
  match mapLookup "required" schema with
  | Some (VList required) =>
      match data with
      | VMap dataMap => checkRequired dataMap required
      | _ => Err ("expected object, got " +:+ goTypeName data)
      end
  | _ => Ok tt
  end.

(** ** The evaluators *)

Definition evalAnswerRelevance (w : World) (assertion : config.Assertion)
    (response : providers.Response) : result AssertionResult :=
  match config.Value_ assertion with
  | VString expectedValue =>
      let score := calculateRelevanceScore w (providers.Text response) expectedValue in
      let threshold := config.Threshold assertion in
      let threshold :=
        if PrimFloat.eqb threshold 0 then 0.7%float else threshold in
      let passed := PrimFloat.leb threshold score in
      Ok {| Type_ := "answer-relevance";
            Expected := VString expectedValue;
            Actual := VString (providers.Text response);
            Passed := passed;
            Score := score;
            Message := "Relevance score: " +:+ fmt_f 2 score
                       +:+ " (threshold: " +:+ fmt_f 2 threshold +:+ ")" |}
  | _ => Err "answer-relevance assertion value must be a string"
  end.

Definition evalContainsJSON (w : World) (assertion : config.Assertion)
    (response : providers.Response) : result AssertionResult :=
  let jsonStr := extractJSON w (providers.Text response) in
  let result_ (passed : bool) (message : string) :=
    {| Type_ := "contains-json";
       Expected := config.Value_ assertion;
       Actual := VString jsonStr;
       Passed := passed;
       Score := 0%float;
       Message := message |} in
  if String.eqb jsonStr "" then
    Ok (result_ false "No JSON found in response")
  else
    match jsonUnmarshal w jsonStr with
    | Err err => Ok (result_ false ("Invalid JSON: " +:+ err))
    | Ok parsed =>
        let schemaError :=
          match config.Value_ assertion with
          | VMap expectedSchema => validateJSONSchema parsed expectedSchema
          | _ => Ok tt
          end in
        match schemaError with
        | Err err => Ok (result_ false ("Schema validation failed: " +:+ err))
        | Ok _ => Ok (result_ true "Valid JSON found")
        end
    end.

Definition evalCost (assertion : config.Assertion)
    (response : providers.Response) : result AssertionResult :=
  let threshold := config.Threshold assertion in
  let passed := PrimFloat.leb (providers.Cost response) threshold in
  Ok {| Type_ := "cost";
        Expected := VFloat threshold;
        Actual := VFloat (providers.Cost response);
        Passed := passed;
        Score := 0%float;
        Message := "Cost: $" +:+ fmt_f 4 (providers.Cost response)
                   +:+ " (threshold: $" +:+ fmt_f 4 threshold +:+ ")" |}.

Definition fixedResult (type_ : string) (passed : bool) (message : string)
  : AssertionResult :=
  {| Type_ := type_; Expected := VNil; Actual := VNil; Passed := passed;
     Score := 0%float; Message := message |}.

Definition toxicKeywords : list string := ["hate"; "violence"; "offensive"; "toxic"].

Fixpoint firstToxic (text : string) (keywords : list string) : option string :=
  match keywords with
  | [] => None
  | keyword :: rest =>
      if Contains text keyword then Some keyword else firstToxic text rest
  end.

Definition evalToxicity (w : World) (response : providers.Response)
  : result AssertionResult :=
  let text := ToLower (unicodeLowerCase w) (providers.Text response) in
  match firstToxic text toxicKeywords with
  | Some keyword =>
      Ok (fixedResult "toxicity" false ("Toxic content detected: " +:+ keyword))
  | None => Ok (fixedResult "toxicity" true "No toxic content detected")
  end.

(** [Evaluator.Evaluate], by implementation. *)
Definition Evaluate (w : World) (e : Evaluator) (assertion : config.Assertion)
    (response : providers.Response) : result AssertionResult :=
  match e with
  | AnswerRelevanceEvaluator => evalAnswerRelevance w assertion response
  | ContainsJSONEvaluator => evalContainsJSON w assertion response
  | CostEvaluator => evalCost assertion response
  | LLMRubricEvaluator =>
      Ok (fixedResult "llm-rubric" false "LLM rubric evaluation not yet implemented")
  | ClosedQAEvaluator =>
      Ok (fixedResult "closed-qa" false "Closed-QA evaluation not yet implemented")
  | ToxicityEvaluator => evalToxicity w response
  | JailbreakEvaluator =>
      Ok (fixedResult "jailbreak" true "Jailbreak detection not yet implemented")
  | UnsupportedEvaluator type_ => Err ("unsupported assertion type: " +:+ type_)
  end.

End assertions.

(* ===================================================================== *)
(** * internal/runner: the sequential functions *)
(* ===================================================================== *)

Module runner.
Export runner_types.

Record Runner := {
  config_ : config.Config;
  options : Options;
}.

Definition New (cfg : config.Config) (opts : Options) : Runner :=
  {| config_ := cfg; options := opts |}.

Definition runAssertion (w : World) (assertion : config.Assertion)
    (response : providers.Response) : AssertionResult :=
  let evaluator := assertions.NewEvaluator (config.Type_ assertion) in
  match assertions.Evaluate w evaluator assertion response with
  | Err err =>
      {| Type_ := config.Type_ assertion; Expected := VNil; Actual := VNil;
         Passed := false; Score := 0%float;
         Message := "Evaluation error: " +:+ err |}
  | Ok result_ => result_
  end.

(** The assertion loop of runSingleTest: the results in order, and
    whether all of them passed. *)
Fixpoint runAssertions (w : World) (asserts : list config.Assertion)
    (response : providers.Response) (acc : list AssertionResult) (allPassed : bool)
  : list AssertionResult * bool :=
  match asserts with
  | [] => (acc, allPassed)
  | assertion :: rest =>
      let assertionResult := runAssertion w assertion response in
      runAssertions w rest response (acc ++ [assertionResult])
                    (if Passed assertionResult then allPassed else false)
  end.

Definition runSingleTest (w : World) (r : Runner) (testCase : TestCase) : TestResult :=
  let failed (error : string) :=
    {| Name := tcName testCase;
       PromptFile := tcPromptFile testCase;
       Provider := tcProvider testCase;
       Variables := tcVariables testCase;
       Response := "";
       Assertions := [];
       Cost := 0%float;
       Status := "failed";
       Error := error |} in
  match LoadFromFile w (tcPromptFile testCase) with
  | Err err => failed ("Failed to load prompt: " +:+ err)
  | Ok prompt =>
  match Render w prompt (tcVariables testCase) with
  | Err err => failed ("Failed to render prompt: " +:+ err)
  | Ok renderedPrompt =>
  match config.GetProvider (config_ r) (tcProvider testCase) with
  | Err err => failed ("Provider not found: " +:+ err)
  | Ok providerConfig =>
  match providers_client.NewClient w providerConfig with
  | Err err => failed ("Failed to create provider client: " +:+ err)
  | Ok client =>
  match providers_client.Complete w client renderedPrompt with
  | Err err => failed ("Failed to execute prompt: " +:+ err)
  | Ok response =>
      let '(assertionResults, allPassed) :=
        runAssertions w (config.Assert (tcTest testCase)) response [] true in
      {| Name := tcName testCase;
         PromptFile := tcPromptFile testCase;
         Provider := tcProvider testCase;
         Variables := tcVariables testCase;
         Response := providers.Text response;
         Assertions := assertionResults;
         Cost := providers.Cost response;
         Status := if allPassed then "passed" else "failed";
         Error := "" |}
  end end end end end.


(** [loadPrompts]: every configured file is loaded into a map keyed by
    its name; the first failure aborts. *)
Fixpoint loadPromptsFrom (w : World) (files : list string)
    (promptFiles : gmap string prompts.Prompt) : result (gmap string prompts.Prompt) :=
  match files with
  | [] => Ok promptFiles
  | file :: rest =>
      match LoadFromFile w file with
      | Err err => Err ("failed to load prompt " +:+ file +:+ ": " +:+ err)
      | Ok prompt => loadPromptsFrom w rest (<[file := prompt]> promptFiles)
      end
  end.

Definition loadPrompts (w : World) (r : Runner) : result (gmap string prompts.Prompt) :=
  loadPromptsFrom w (config.Prompts (config_ r)) ∅.

(** A [range] over a Go map visits every entry once, in an order the
    language leaves open: [visit] is such an order. *)
Definition rangeOrder (promptFiles : gmap string prompts.Prompt)
    (visit : list (string * prompts.Prompt)) : Prop :=
  visit ≡ₚ map_to_list promptFiles.

(** The body of the inner loop of generateTestCases. *)
Definition makeTestCase (r : Runner) (promptFile : string) (i : nat)
    (test : config.Test) : TestCase :=
  let provider := config.Provider_ test in
  let provider :=
    if String.eqb provider "" && (0 <? len (config.Providers (config_ r))) then
      match config.Providers (config_ r) with
      | p :: _ => config.ID p
      | [] => provider
      end
    else provider in
  let testName := config.Name test in
  let testName :=
    if String.eqb testName "" then
      promptFile +:+ "_test_" +:+ fmt_d (Z.of_nat i)
    else testName in
  {| tcName := testName;
     tcPromptFile := promptFile;
     tcProvider := provider;
     tcVariables := config.Variables test;
     tcTest := test |}.

(** [generateTestCases], with the order [visit] in which the outer
    [range promptFiles] yields the entries of the map. *)
Definition generateTestCases (r : Runner) (visit : list (string * prompts.Prompt))
  : list TestCase :=
  flat_map (fun entry => imap (makeTestCase r (fst entry)) (config.Tests (config_ r)))
           visit.

Definition filterTestCases (r : Runner) (testCases : list TestCase) : list TestCase :=
  (* TODO: Implement test filtering based on r.options.Filters *)
  testCases.

(** One turn of the collecting loop of Run: the append, the cost and the
    [switch result.Status]. *)
Definition collect (results : Results) (result_ : TestResult) : Results :=
  let counted (passed failed skipped : Z) : Results :=
    {| Total := Total results;
       Passed_ := passed;
       Failed := failed;
       Skipped := skipped;
       TotalCost := PrimFloat.add (TotalCost results) (Cost result_);
       TestResults := TestResults results ++ [result_];
       Metadata_ := Metadata_ results |} in
  if String.eqb (Status result_) "passed" then
    counted (Passed_ results + 1) (Failed results) (Skipped results)
  else if String.eqb (Status result_) "failed" then
    counted (Passed_ results) (Failed results + 1) (Skipped results)
  else if String.eqb (Status result_) "skipped" then
    counted (Passed_ results) (Failed results) (Skipped results + 1)
  else
    counted (Passed_ results) (Failed results) (Skipped results).

Definition HasFailures (r : Results) : bool := 0 <? Failed r.

End runner.

(* ===================================================================== *)
(** * Runner.Run: the goroutine pool *)
(* ===================================================================== *)

(** Run starts one goroutine per test case, one goroutine that closes the
    result channel once the WaitGroup is back to zero, and collects the
    results itself. The goroutines interleave; here each of them is a
    small program counter and [step] moves one of them. A blocked
    goroutine has no step. *)

Module pool.
Import runner.

(** Where a worker goroutine stands:
<<
    go func(tc TestCase) {
        defer wg.Done()                    // AtDone
        semaphore <- struct{}{}            // AtAcquire
        defer func() { <-semaphore }()     // AtRelease
        result := r.runSingleTest(tc)      // AtRunTest
        testResults <- result              // AtSend
    }(testCase)
>>  *)
Inductive WorkerPC : Type :=
| AtAcquire
| AtRunTest
| AtSend (result_ : TestResult)
| AtRelease
| AtDone
| Exited.

Record Worker := {
  wcase : TestCase;
  wpc : WorkerPC;
}.

(** The goroutine of Run itself. *)
Inductive MainPC : Type :=
| Spawning (rest : list TestCase)   (* in the [for _, testCase := range] loop *)
| Collecting                        (* in the [for result := range testResults] loop *)
| Returned.

(** The goroutine [wg.Wait(); close(testResults)]. *)
Inductive CloserPC : Type :=
| NotStarted
| Waiting
| Finished.

Record State := {
  mainPC : MainPC;
  workers : list Worker;
  closerPC : CloserPC;
  semaphore : nat;                 (* tokens held in the channel *)
  testResults : list TestResult;   (* the buffered channel, oldest first *)
  closed : bool;                   (* close(testResults) happened *)
  wg : Z;                          (* the WaitGroup counter *)
  results : Results;
  panicked : option string;
}.

Inductive Actor : Type :=
| Main
| Work (i : nat)
| Closer.

Section Steps.

Variable w : World.
Variable r : Runner.
(** [len(testCases)], the capacity of the result channel. *)
Variable capacity : nat.

Definition setWorker (s : State) (i : nat) (wk : Worker) : State :=
  {| mainPC := mainPC s; workers := <[i := wk]> (workers s);
     closerPC := closerPC s; semaphore := semaphore s;
     testResults := testResults s; closed := closed s; wg := wg s;
     results := results s; panicked := panicked s |}.

Definition setSemaphore (s : State) (n : nat) : State :=
  {| mainPC := mainPC s; workers := workers s;
     closerPC := closerPC s; semaphore := n;
     testResults := testResults s; closed := closed s; wg := wg s;
     results := results s; panicked := panicked s |}.

Definition setTestResults (s : State) (q : list TestResult) : State :=
  {| mainPC := mainPC s; workers := workers s;
     closerPC := closerPC s; semaphore := semaphore s;
     testResults := q; closed := closed s; wg := wg s;
     results := results s; panicked := panicked s |}.

Definition setWg (s : State) (n : Z) : State :=
  {| mainPC := mainPC s; workers := workers s;
     closerPC := closerPC s; semaphore := semaphore s;
     testResults := testResults s; closed := closed s; wg := n;
     results := results s; panicked := panicked s |}.

Definition setMain (s : State) (pc : MainPC) : State :=
  {| mainPC := pc; workers := workers s;
     closerPC := closerPC s; semaphore := semaphore s;
     testResults := testResults s; closed := closed s; wg := wg s;
     results := results s; panicked := panicked s |}.

Definition setResults (s : State) (res : Results) : State :=
  {| mainPC := mainPC s; workers := workers s;
     closerPC := closerPC s; semaphore := semaphore s;
     testResults := testResults s; closed := closed s; wg := wg s;
     results := res; panicked := panicked s |}.

Definition setPanicked (s : State) (msg : string) : State :=
  {| mainPC := mainPC s; workers := workers s;
     closerPC := closerPC s; semaphore := semaphore s;
     testResults := testResults s; closed := closed s; wg := wg s;
     results := results s; panicked := Some msg |}.

Definition stepMain (s : State) : option State :=
  match mainPC s with
  | Spawning (testCase :: rest) =>
      (* wg.Add(1); go func(tc TestCase) {...}(testCase) *)
      Some {| mainPC := Spawning rest;
              workers := workers s ++ [{| wcase := testCase; wpc := AtAcquire |}];
              closerPC := closerPC s; semaphore := semaphore s;
              testResults := testResults s; closed := closed s;
              wg := wg s + 1;
              results := results s; panicked := panicked s |}
  | Spawning [] =>
      (* go func() { wg.Wait(); close(testResults) }() *)
      Some {| mainPC := Collecting; workers := workers s;
              closerPC := Waiting; semaphore := semaphore s;
              testResults := testResults s; closed := closed s; wg := wg s;
              results := results s; panicked := panicked s |}
  | Collecting =>
      match testResults s with
      | result_ :: queue =>
          Some (setResults (setTestResults s queue) (collect (results s) result_))
      | [] =>
          (* the range ends once the channel is closed and drained;
             r.metrics.Store only logs a failure *)
          if closed s then Some (setMain s Returned) else None
      end
  | Returned => None
  end.

Definition stepWorker (i : nat) (s : State) : option State :=
  match workers s !! i with
  | None => None
  | Some wk =>
      let goto (pc : WorkerPC) (s' : State) : State :=
        setWorker s' i {| wcase := wcase wk; wpc := pc |} in
      match wpc wk with
      | AtAcquire =>
          (* a send on a channel of capacity Parallel *)
          if Z.of_nat (semaphore s) <? Parallel (options r) then
            Some (goto AtRunTest (setSemaphore s (S (semaphore s))))
          else None
      | AtRunTest =>
          Some (goto (AtSend (runSingleTest w r (wcase wk))) s)
      | AtSend result_ =>
          if closed s then Some (setPanicked s "send on closed channel")
          else if (length (testResults s) <? capacity)%nat then
            Some (goto AtRelease (setTestResults s (testResults s ++ [result_])))
          else None
      | AtRelease =>
          match semaphore s with
          | S n => Some (goto AtDone (setSemaphore s n))
          | O => None
          end
      | AtDone =>
          if wg s - 1 <? 0 then Some (setPanicked s "sync: negative WaitGroup counter")
          else Some (goto Exited (setWg s (wg s - 1)))
      | Exited => None
      end
  end.

Definition stepCloser (s : State) : option State :=
  match closerPC s with
  | Waiting =>
      if wg s =? 0 then
        Some {| mainPC := mainPC s; workers := workers s;
                closerPC := Finished; semaphore := semaphore s;
                testResults := testResults s; closed := true; wg := wg s;
                results := results s; panicked := panicked s |}
      else None
  | _ => None
  end.

(** A panic in any goroutine ends the process. *)
Definition step (a : Actor) (s : State) : option State :=
  match panicked s with
  | Some _ => None
  | None =>
      match a with
      | Main => stepMain s
      | Work i => stepWorker i s
      | Closer => stepCloser s
      end
  end.

(** A schedule names the goroutine that is given the processor next; a
    goroutine that is blocked when its turn comes stays where it is. *)
Fixpoint exec (schedule : list Actor) (s : State) : State :=
  match schedule with
  | [] => s
  | a :: rest =>
      match step a s with
      | Some s' => exec rest s'
      | None => exec rest s
      end
  end.

End Steps.

(** The state of Run when it enters the spawning loop. *)
Definition initState (r : Runner) (testCases : list TestCase) : State :=
  {| mainPC := Spawning testCases;
     workers := [];
     closerPC := NotStarted;
     semaphore := 0;
     testResults := [];
     closed := false;
     wg := 0;
     results :=
       {| Total := len testCases; Passed_ := 0; Failed := 0; Skipped := 0;
          TotalCost := 0%float; TestResults := [];
          Metadata_ :=
            {| CommitSHA := OptCommitSHA (options r);
               PRNumber := OptPRNumber (options r);
               Branch := "";
               Version := "0.1.0" |} |};
     panicked :=
       if Parallel (options r) <? 0 then Some "makechan: size out of range"
       else None |}.

(** The arguments of Run that the source leaves to the scheduler and to
    the map iteration. [visit] stands for the order of
    [range promptFiles]: it is a [rangeOrder] of the loaded map. *)
Record Choices := {
  visit : list (string * prompts.Prompt);
  schedule : list Actor;
}.

(** What Run has done under a schedule. *)
Inductive Outcome : Type :=
| Returns (res : result Results)   (* Run returned (results, err) *)
| Running (s : State)              (* the schedule ended before Run did *)
| Panics (msg : string).

Definition testCasesOf (r : Runner) (ch : Choices) : list TestCase :=
  let testCases := generateTestCases r (visit ch) in
  if 0 <? len (Filters (options r)) then filterTestCases r testCases
  else testCases.

Definition Run (w : World) (r : Runner) (ch : Choices) : Outcome :=
  match loadPrompts w r with
  | Err err => Returns (Err ("failed to load prompts: " +:+ err))
  | Ok promptFiles =>
      let testCases := testCasesOf r ch in
      let s := exec w r (length testCases) (schedule ch) (initState r testCases) in
      match panicked s with
      | Some msg => Panics msg
      | None =>
          match mainPC s with
          | Returned => Returns (Ok (results s))
          | _ => Running s
          end
      end
  end.

End pool.

(* ===================================================================== *)
(** * internal/diff *)
(* ===================================================================== *)

Module diff.
Import runner_types.

Definition nl : string := String (ascii_of_nat 10) EmptyString.

(** Subtraction on Go's 64-bit [int]. *)
Definition wrapInt (z : Z) : Z := (z + 2 ^ 63) mod 2 ^ 64 - 2 ^ 63.

Definition formatChange (change : Z) : string :=
  if 0 <? change then "🔺 +" +:+ fmt_d change
  else if change <? 0 then "🔽 " +:+ fmt_d change
  else "➖ 0".

Definition formatCostChange (change : float) : string :=
  if PrimFloat.ltb 0.0001 change then "🔺 +$" +:+ fmt_f 4 change
  else if PrimFloat.ltb change (-0.0001) then "🔽 -$" +:+ fmt_f 4 (PrimFloat.opp change)
  else "➖ $0.0000".

Definition regressionBanner : string :=
  nl +:+ "🚨 **REGRESSION DETECTED** - More tests failing than baseline!" +:+ nl +:+ nl.

Definition improvementBanner : string :=
  nl +:+ "✅ **IMPROVEMENT** - Fewer test failures than baseline!" +:+ nl +:+ nl.

(** The summary table: the writes before the regression detection. *)
Definition summaryWrites (current baseline : Results) : list string :=
  let passedChange := wrapInt (Passed_ current - Passed_ baseline) in
  let failedChange := wrapInt (Failed current - Failed baseline) in
  let costChange := PrimFloat.sub (TotalCost current) (TotalCost baseline) in
  [ "# 📊 Baseline Comparison Report" +:+ nl +:+ nl;
    "## 📈 Summary Changes" +:+ nl +:+ nl;
    "| Metric | Baseline | Current | Change |" +:+ nl;
    "|--------|----------|---------|--------|" +:+ nl;
    "| Passed | " +:+ fmt_d (Passed_ baseline) +:+ " | " +:+ fmt_d (Passed_ current)
      +:+ " | " +:+ formatChange passedChange +:+ " |" +:+ nl;
    "| Failed | " +:+ fmt_d (Failed baseline) +:+ " | " +:+ fmt_d (Failed current)
      +:+ " | " +:+ formatChange failedChange +:+ " |" +:+ nl;
    "| Cost | $" +:+ fmt_f 4 (TotalCost baseline) +:+ " | $" +:+ fmt_f 4 (TotalCost current)
      +:+ " | " +:+ formatCostChange costChange +:+ " |" +:+ nl ].

(** The [if current.Failed > baseline.Failed ... else if ...] statement. *)
Definition verdictWrites (current baseline : Results) : list string :=
  if Failed baseline <? Failed current then [regressionBanner]
  else if Failed current <? Failed baseline then [improvementBanner]
  else [].

Definition costAlertWrites (current baseline : Results) : list string :=
  let costChange := PrimFloat.sub (TotalCost current) (TotalCost baseline) in
  if PrimFloat.ltb 0.001 costChange then
    [ "💸 **COST ALERT** - Cost increased by $" +:+ fmt_f 4 costChange +:+ " ("
      +:+ fmt_f 1 (PrimFloat.mul (PrimFloat.div costChange (TotalCost baseline)) 100)
      +:+ "%)" +:+ nl +:+ nl ]
  else [].

(** The calls of [md.WriteString], in order. *)
Definition comparisonWrites (current baseline : Results) : list string :=
  summaryWrites current baseline ++ verdictWrites current baseline
  ++ costAlertWrites current baseline.

(** [md.String()] *)
Definition GenerateBaselineComparison (current baseline : Results) : string :=
  String.concat "" (comparisonWrites current baseline).

End diff.

(* ===================================================================== *)
(** * internal/config: validation *)
(* ===================================================================== *)

Module config_validate.
Import config.

(** The map literal of Assertion.Validate; a key that is absent reads as
    false. *)
Definition validTypes : gmap string bool :=
  list_to_map
    [("answer-relevance", true); ("contains-json", true); ("cost", true);
     ("llm-rubric", true); ("closed-qa", true); ("toxicity", true);
     ("jailbreak", true)].

(** [m[key]] on a [map[string]bool]. *)
Definition lookupBool (m : gmap string bool) (key : string) : bool :=
  default false (m !! key).

(** [Assertion.Validate] *)
Definition Assertion_Validate (a : Assertion) : result unit :=
  if negb (lookupBool validTypes (Type_ a)) then
    Err ("invalid assertion type: " +:+ Type_ a)
  else if String.eqb (Type_ a) "cost" then
    if PrimFloat.leb (Threshold a) 0 then
      Err "cost assertion requires positive threshold"
    else Ok tt
  else if String.eqb (Type_ a) "answer-relevance" then
    if PrimFloat.ltb (Threshold a) 0 || PrimFloat.ltb 1 (Threshold a) then
      Err "answer-relevance threshold must be between 0 and 1"
    else Ok tt
  else Ok tt.

(** The loop over the providers, with the map of the IDs seen so far. *)
Fixpoint checkProviderIDs (ps : list Provider) (providerIDs : gmap string bool)
  : result unit :=
  match ps with
  | [] => Ok tt
  | provider :: rest =>
      if String.eqb (ID provider) "" then Err "provider missing ID"
      else if lookupBool providerIDs (ID provider) then
        Err ("duplicate provider ID: " +:+ ID provider)
      else checkProviderIDs rest (<[ID provider := true]> providerIDs)
  end.

(** The inner loop: the assertions of test [i], from assertion [j] on. *)
Fixpoint checkAssertions (i j : Z) (asserts : list Assertion) : result unit :=
  match asserts with
  | [] => Ok tt
  | assertion :: rest =>
      match Assertion_Validate assertion with
      | Err err =>
          Err ("test " +:+ fmt_d i +:+ ", assertion " +:+ fmt_d j +:+ ": " +:+ err)
      | Ok _ => checkAssertions i (j + 1) rest
      end
  end.

(** The outer loop: the tests from test [i] on. *)
Fixpoint checkTests (i : Z) (tests : list Test) : result unit :=
  match tests with
  | [] => Ok tt
  | test :: rest =>
      if len (Assert test) =? 0 then
        Err ("test " +:+ fmt_d i +:+ " has no assertions")
      else
        match checkAssertions i 0 (Assert test) with
        | Err err => Err err
        | Ok _ => checkTests (i + 1) rest
        end
  end.

(** [Config.Validate] *)
Definition Validate (c : Config) : result unit :=
  if len (Prompts c) =? 0 then Err "no prompt files specified"
  else if len (Providers c) =? 0 then Err "no providers specified"
  else if len (Tests c) =? 0 then Err "no tests specified"
  else
    match checkProviderIDs (Providers c) ∅ with
    | Err err => Err err
    | Ok _ => checkTests 0 (Tests c)
    end.

End config_validate.

(* ===================================================================== *)
(** * Facts about runSingleTest *)
(* ===================================================================== *)

Module runner_facts.
Import runner.

Lemma append_nonempty (a b : string) : a <> "" -> a +:+ b <> "".
Proof. destruct a; [congruence | discriminate]. Qed.

Lemma forallb_map {A B : Type} (f : A -> B) (p : B -> bool) (l : list A) :
  forallb p (map f l) = forallb (fun x => p (f x)) l.
Proof. induction l as [|x l IH]; simpl; [done|]. by rewrite IH. Qed.

(** The assertion loop keeps one result per assertion, in order. *)
Lemma runAssertions_spec w asserts response acc allPassed :
  runAssertions w asserts response acc allPassed =
  (acc ++ map (fun a => runAssertion w a response) asserts,
   allPassed && forallb (fun a => Passed (runAssertion w a response)) asserts).
Proof.
  revert acc allPassed.
  induction asserts as [|a rest IH]; intros acc allPassed; simpl.
  - by rewrite app_nil_r andb_true_r.
  - rewrite IH -app_assoc /=. f_equal.
    destruct (Passed (runAssertion w a response)), allPassed; reflexivity.
Qed.

(** The five steps that precede the assertions, as one result: the
    response of the provider, or the text that lands in [Error]. *)
Definition completion (w : World) (r : Runner) (testCase : TestCase)
  : result providers.Response :=
  match LoadFromFile w (tcPromptFile testCase) with
  | Err err => Err ("Failed to load prompt: " +:+ err)
  | Ok prompt =>
  match Render w prompt (tcVariables testCase) with
  | Err err => Err ("Failed to render prompt: " +:+ err)
  | Ok renderedPrompt =>
  match config.GetProvider (config_ r) (tcProvider testCase) with
  | Err err => Err ("Provider not found: " +:+ err)
  | Ok providerConfig =>
  match providers_client.NewClient w providerConfig with
  | Err err => Err ("Failed to create provider client: " +:+ err)
  | Ok client =>
  match providers_client.Complete w client renderedPrompt with
  | Err err => Err ("Failed to execute prompt: " +:+ err)
  | Ok response => Ok response
  end end end end end.

Lemma completion_error_nonempty w r tc msg :
  completion w r tc = Err msg -> msg <> "".
Proof.
  unfold completion.
  repeat (case_match; try discriminate);
    intros [= <-]; by apply append_nonempty.
Qed.

Lemma runSingleTest_failed w r tc msg :
  completion w r tc = Err msg ->
  runSingleTest w r tc =
  {| Name := tcName tc; PromptFile := tcPromptFile tc; Provider := tcProvider tc;
     Variables := tcVariables tc; Response := ""; Assertions := []; Cost := 0%float;
     Status := "failed"; Error := msg |}.
Proof.
  unfold completion, runSingleTest.
  repeat (case_match; try discriminate); by intros [= <-].
Qed.

Lemma runSingleTest_completed w r tc response :
  completion w r tc = Ok response ->
  let outcomes := map (fun a => runAssertion w a response) (config.Assert (tcTest tc)) in
  runSingleTest w r tc =
  {| Name := tcName tc; PromptFile := tcPromptFile tc; Provider := tcProvider tc;
     Variables := tcVariables tc; Response := providers.Text response;
     Assertions := outcomes; Cost := providers.Cost response;
     Status := if forallb Passed outcomes then "passed" else "failed";
     Error := "" |}.
Proof.
  unfold completion, runSingleTest.
  destruct (LoadFromFile w _) as [prompt|]; [|discriminate].
  destruct (Render w _ _) as [rendered|]; [|discriminate].
  destruct (config.GetProvider _ _) as [providerConfig|]; [|discriminate].
  destruct (providers_client.NewClient _ _) as [client|]; [|discriminate].
  destruct (providers_client.Complete _ _ _) as [resp|]; [|discriminate].
  intros [= <-]. rewrite runAssertions_spec forallb_map. reflexivity.
Qed.

Lemma runSingleTest_status w r tc :
  Status (runSingleTest w r tc) = "passed" \/ Status (runSingleTest w r tc) = "failed".
Proof.
  destruct (completion w r tc) as [response|msg] eqn:Hc.
  - rewrite (runSingleTest_completed _ _ _ _ Hc) /=. case_match; auto.
  - rewrite (runSingleTest_failed _ _ _ _ Hc) /=. auto.
Qed.

(** loadPrompts stops at the first file that does not load. *)
Lemma loadPromptsFrom_err w files (m0 : gmap string prompts.Prompt) msg :
  loadPromptsFrom w files m0 = Err msg ->
  exists before file after err,
    files = before ++ file :: after
    /\ Forall (fun f => exists prompt, LoadFromFile w f = Ok prompt) before
    /\ LoadFromFile w file = Err err
    /\ msg = "failed to load prompt " +:+ file +:+ ": " +:+ err.
Proof.
  revert m0. induction files as [|f files IH]; intros m0; simpl; [done|].
  destruct (LoadFromFile w f) as [prompt|err] eqn:Hf.
  - intros (before & file & after & err & -> & Hbefore & Hfile & ->)%IH.
    exists (f :: before), file, after, err. repeat split; [|done].
    constructor; [by exists prompt | done].
  - intros [= <-]. exists [], f, files, err. repeat split; [constructor | done].
Qed.

Lemma loadPromptsFrom_fails w files (m0 : gmap string prompts.Prompt) file err :
  file ∈ files -> LoadFromFile w file = Err err ->
  exists msg, loadPromptsFrom w files m0 = Err msg.
Proof.
  revert m0. induction files as [|f files IH]; intros m0 Hin Hfile; simpl.
  - by apply elem_of_nil in Hin.
  - destruct (LoadFromFile w f) as [prompt|err'] eqn:Hf; [|by eexists].
    apply elem_of_cons in Hin as [->|Hin]; [congruence|]. by apply IH.
Qed.

End runner_facts.

(* ===================================================================== *)
(** * The goroutine pool: invariant, progress, termination *)
(* ===================================================================== *)

Module pool_facts.
Import runner pool runner_facts.
Local Open Scope nat_scope.

(** ** Counting list elements *)

Section Counting.
Context {A : Type}.

Fixpoint count (f : A -> bool) (l : list A) : nat :=
  match l with
  | [] => 0
  | x :: l' => (if f x then 1 else 0) + count f l'
  end.

Lemma count_app f l1 l2 : count f (l1 ++ l2) = (count f l1 + count f l2).
Proof. induction l1 as [|x l1 IH]; simpl; [done|]. rewrite IH. lia. Qed.

Lemma count_le_length f l : (count f l <= length l).
Proof. induction l as [|x l IH]; simpl; [done|]. destruct (f x); lia. Qed.

Lemma count_insert f l i x y :
  l !! i = Some x ->
  (count f (<[i := y]> l) + (if f x then 1 else 0) =
   count f l + (if f y then 1 else 0)).
Proof.
  revert i. induction l as [|z l IH]; intros [|i] Hi; simpl in *; try done.
  - injection Hi as ->. lia.
  - specialize (IH i Hi). lia.
Qed.

Lemma count_zero_lookup f l i x :
  count f l = 0 -> l !! i = Some x -> f x = false.
Proof.
  revert i. induction l as [|z l IH]; intros [|i] H0 Hi; simpl in *; try done.
  - injection Hi as ->. destruct (f x); [lia | done].
  - apply (IH i); [destruct (f z); lia | done].
Qed.

Lemma count_pos_lookup f l :
  (0 < count f l) -> exists i x, l !! i = Some x /\ f x = true.
Proof.
  induction l as [|z l IH]; simpl; [lia|].
  destruct (f z) eqn:Hz; intros Hpos.
  - by exists 0, z.
  - destruct IH as (i & x & Hi & Hx); [lia|]. by exists (S i), x.
Qed.

Lemma count_all f l :
  Forall (fun x => f x = true) l -> count f l = length l.
Proof. induction 1 as [|x l Hx _ IH]; simpl; [done|]. rewrite Hx IH. lia. Qed.

Lemma count_mono f g l :
  (forall x, f x = true -> g x = true) -> count f l <= count g l.
Proof.
  intros Hfg. induction l as [|x l IH]; simpl; [done|].
  destruct (f x) eqn:Hf; [rewrite (Hfg x Hf)|destruct (g x)]; lia.
Qed.

End Counting.

(** ** What the invariant speaks about *)

(** Between the acquire and the release a worker holds a slot: these are
    the runSingleTest executions in flight. *)
Definition holdsSlot (pc : WorkerPC) : bool :=
  match pc with
  | AtRunTest | AtSend _ | AtRelease => true
  | _ => false
  end.

(** The worker has put its result on the channel. *)
Definition delivered (pc : WorkerPC) : bool :=
  match pc with
  | AtRelease | AtDone | Exited => true
  | _ => false
  end.

(** wg.Done() is still to come. *)
Definition alive (pc : WorkerPC) : bool :=
  match pc with
  | Exited => false
  | _ => true
  end.

Definition inFlight (s : State) : nat :=
  count (fun wk => holdsSlot (wpc wk)) (workers s).

Definition pending (pc : MainPC) : list TestCase :=
  match pc with
  | Spawning rest => rest
  | _ => []
  end.

(** The totals a list of outcomes calls for. *)
Definition statusCount (status : string) (l : list TestResult) : Z :=
  Z.of_nat (count (fun res => String.eqb (Status res) status) l).

Definition sumCosts (l : list TestResult) : float :=
  fold_left (fun acc res => PrimFloat.add acc (Cost res)) l 0%float.

Section Invariant.

Variable w : World.
Variable r : Runner.
Variable testCases : list TestCase.

Definition sentResults (ws : list Worker) : list TestResult :=
  flat_map (fun wk => if delivered (wpc wk) then [runSingleTest w r (wcase wk)] else [])
           ws.

Record Inv (s : State) : Prop := {
  inv_panic : panicked s = None;
  inv_sem : semaphore s = inFlight s;
  inv_bound : (Z.of_nat (semaphore s) <= Parallel (options r))%Z;
  inv_wg : wg s = Z.of_nat (count (fun wk => alive (wpc wk)) (workers s));
  inv_cases : map wcase (workers s) ++ pending (mainPC s) = testCases;
  inv_sent : TestResults (results s) ++ testResults s ≡ₚ sentResults (workers s);
  inv_atsend : forall i wk res,
      workers s !! i = Some wk -> wpc wk = AtSend res ->
      res = runSingleTest w r (wcase wk);
  inv_closer : match mainPC s with
               | Spawning _ => closerPC s = NotStarted
               | _ => closerPC s <> NotStarted
               end;
  inv_closed : closed s = match closerPC s with Finished => true | _ => false end;
  inv_exited : closed s = true ->
               count (fun wk => alive (wpc wk)) (workers s) = 0;
  inv_returned : mainPC s = Returned -> closed s = true /\ testResults s = [];
  inv_total : Total (results s) = len testCases;
  inv_passed : Passed_ (results s) = statusCount "passed" (TestResults (results s));
  inv_failed : Failed (results s) = statusCount "failed" (TestResults (results s));
  inv_skipped : Skipped (results s) = statusCount "skipped" (TestResults (results s));
  inv_cost : TotalCost (results s) = sumCosts (TestResults (results s));
}.

(** The steps still to come: a bound on the length of every run. *)
Definition workerWeight (pc : WorkerPC) : nat :=
  match pc with
  | AtAcquire => 6
  | AtRunTest => 5
  | AtSend _ => 4
  | AtRelease => 2
  | AtDone => 1
  | Exited => 0
  end.

Definition mainWeight (pc : MainPC) : nat :=
  match pc with
  | Spawning rest => 7 * length rest + 3
  | Collecting => 1
  | Returned => 0
  end.

Definition closerWeight (pc : CloserPC) : nat :=
  match pc with
  | Waiting => 1
  | _ => 0
  end.

Fixpoint workersWeight (ws : list Worker) : nat :=
  match ws with
  | [] => 0
  | wk :: ws' => workerWeight (wpc wk) + workersWeight ws'
  end.

Definition measure (s : State) : nat :=
  mainWeight (mainPC s) + workersWeight (workers s)
  + closerWeight (closerPC s) + length (testResults s).

(** ** Bookkeeping lemmas *)

Local Abbreviation run := (runSingleTest w r).

Lemma sentResults_app ws1 ws2 :
  sentResults (ws1 ++ ws2) = sentResults ws1 ++ sentResults ws2.
Proof. apply flat_map_app. Qed.

Lemma sentResults_insert_same ws i wk pc :
  ws !! i = Some wk -> delivered pc = delivered (wpc wk) ->
  sentResults (<[i := {| wcase := wcase wk; wpc := pc |}]> ws) = sentResults ws.
Proof.
  revert i. induction ws as [|z ws IH]; intros [|i] Hi Hd; simpl in *; try done.
  - injection Hi as ->. by rewrite Hd.
  - unfold sentResults in *. simpl. by rewrite (IH i).
Qed.

Lemma sentResults_insert_deliver ws i wk pc :
  ws !! i = Some wk -> delivered (wpc wk) = false -> delivered pc = true ->
  sentResults (<[i := {| wcase := wcase wk; wpc := pc |}]> ws)
  ≡ₚ run (wcase wk) :: sentResults ws.
Proof.
  revert i. induction ws as [|z ws IH]; intros [|i] Hi Hold Hnew; simpl in *; try done.
  - injection Hi as ->. unfold sentResults. simpl. by rewrite Hold Hnew.
  - unfold sentResults in *. simpl. rewrite (IH i) //.
    by rewrite Permutation_middle.
Qed.

Lemma sentResults_elem ws x :
  x ∈ sentResults ws -> exists tc, x = run tc.
Proof.
  induction ws as [|z ws IH]; unfold sentResults in *; simpl.
  - by intros ?%elem_of_nil.
  - rewrite elem_of_app. intros [Hx|Hx]; [|by apply IH].
    destruct (delivered (wpc z)).
    + apply list_elem_of_singleton in Hx. by exists (wcase z).
    + by apply elem_of_nil in Hx.
Qed.

Lemma sentResults_all ws :
  count (fun wk => alive (wpc wk)) ws = 0 ->
  sentResults ws = map run (map wcase ws).
Proof.
  induction ws as [|z ws IH]; simpl; [done|].
  destruct z as [tc pc]. unfold sentResults in *. simpl.
  destruct pc; simpl; try lia. intros H0. by rewrite IH.
Qed.

Lemma length_sentResults ws :
  length (sentResults ws) = count (fun wk => delivered (wpc wk)) ws.
Proof.
  induction ws as [|z ws IH]; simpl; [done|].
  unfold sentResults in *. simpl. rewrite length_app IH.
  by destruct (delivered (wpc z)).
Qed.

Lemma map_wcase_insert ws i wk pc :
  ws !! i = Some wk ->
  map wcase (<[i := {| wcase := wcase wk; wpc := pc |}]> ws) = map wcase ws.
Proof.
  revert i. induction ws as [|z ws IH]; intros [|i] Hi; simpl in *; try done.
  - by injection Hi as ->.
  - by rewrite (IH i).
Qed.

Lemma workersWeight_app ws1 ws2 :
  workersWeight (ws1 ++ ws2) = workersWeight ws1 + workersWeight ws2.
Proof. induction ws1 as [|z ws1 IH]; simpl; [done|]. rewrite IH. lia. Qed.

Lemma workersWeight_insert ws i wk wk' :
  ws !! i = Some wk ->
  workersWeight (<[i := wk']> ws) + workerWeight (wpc wk)
  = workersWeight ws + workerWeight (wpc wk').
Proof.
  revert i. induction ws as [|z ws IH]; intros [|i] Hi; simpl in *; try done.
  - injection Hi as ->. lia.
  - specialize (IH i Hi). lia.
Qed.

Lemma count_lookup_pos {A : Type} (f : A -> bool) (l : list A) i x :
  l !! i = Some x -> f x = true -> 0 < count f l.
Proof.
  intros Hi Hx. destruct (count f l) eqn:Hc; [|lia].
  rewrite (count_zero_lookup f l i x Hc Hi) in Hx. done.
Qed.

Lemma statusCount_snoc status l res :
  statusCount status (l ++ [res])
  = (if String.eqb (Status res) status then statusCount status l + 1
     else statusCount status l)%Z.
Proof.
  unfold statusCount. rewrite count_app /=.
  destruct (String.eqb (Status res) status); lia.
Qed.

Lemma sumCosts_snoc l res :
  sumCosts (l ++ [res]) = PrimFloat.add (sumCosts l) (Cost res).
Proof. unfold sumCosts. by rewrite fold_left_app. Qed.

(** What every arm of the switch of [collect] leaves alone. *)
Lemma collect_fields res out :
  Total (collect res out) = Total res
  /\ TestResults (collect res out) = TestResults res ++ [out]
  /\ TotalCost (collect res out) = PrimFloat.add (TotalCost res) (Cost out)
  /\ Metadata_ (collect res out) = Metadata_ res.
Proof. unfold collect. by repeat case_match. Qed.

(** ** The invariant holds initially and is kept by every step *)

Abbreviation step' := (step w r (length testCases)).
Abbreviation exec' := (exec w r (length testCases)).

Lemma init_inv :
  (0 <= Parallel (options r))%Z -> Inv (initState r testCases).
Proof.
  intros Hpar. constructor; simpl; try done.
  all: try lia.
  all: try (case_match; [lia | done]).
Qed.

Lemma stepMain_inv s s' : Inv s -> stepMain s = Some s' -> Inv s'.
Proof.
  intros [] Hstep. unfold stepMain in Hstep.
  destruct (mainPC s) as [[|tc rest]| |] eqn:Hmain; simpl in *.
  - (* the closer is started *)
    injection Hstep as <-. constructor; simpl; try done.
    by rewrite inv_closed0 inv_closer0.
  - (* one more worker *)
    injection Hstep as <-. constructor; simpl; try done.
    + unfold inFlight in *. simpl. rewrite count_app /=. lia.
    + rewrite count_app /=. lia.
    + by rewrite map_app -app_assoc.
    + by rewrite sentResults_app /= app_nil_r.
    + intros i wk res Hi Hpc.
      apply lookup_app_Some in Hi as [Hi|[_ Hi]]; [by eapply inv_atsend0|].
      apply list_lookup_singleton_Some in Hi as [_ <-]. done.
    + rewrite inv_closed0 inv_closer0. done.
  - (* collecting *)
    destruct (testResults s) as [|res queue] eqn:Hq.
    + destruct (closed s) eqn:Hcl; [|done]. injection Hstep as <-.
      constructor; simpl; rewrite ?Hq ?Hcl //.
    + injection Hstep as <-.
      pose proof (statusCount_snoc "passed" (TestResults (results s)) res) as Hp.
      pose proof (statusCount_snoc "failed" (TestResults (results s)) res) as Hf.
      pose proof (statusCount_snoc "skipped" (TestResults (results s)) res) as Hs.
      pose proof (sumCosts_snoc (TestResults (results s)) res) as Hc.
      pose proof (collect_fields (results s) res) as (Ht & Hr & Hcost & Hmeta).
      rewrite -inv_cost0 in Hc. rewrite -inv_passed0 in Hp.
      rewrite -inv_failed0 in Hf. rewrite -inv_skipped0 in Hs.
      constructor; simpl; rewrite ?Hmain ?Hq ?Ht ?Hr ?Hcost //.
      * by rewrite -app_assoc.
      * rewrite Hp. unfold collect.
        destruct (String.eqb (Status res) "passed") eqn:E1; [done|].
        by repeat case_match.
      * rewrite Hf. unfold collect.
        destruct (String.eqb (Status res) "passed") eqn:E1;
          [apply String.eqb_eq in E1; by rewrite E1|].
        by repeat case_match.
      * rewrite Hs. unfold collect.
        destruct (String.eqb (Status res) "passed") eqn:E1;
          [apply String.eqb_eq in E1; by rewrite E1|].
        destruct (String.eqb (Status res) "failed") eqn:E2;
          [apply String.eqb_eq in E2; by rewrite E2|].
        by repeat case_match.
  - done.
Qed.

Lemma lookup_goto (ws : list Worker) i j wk wk' pc :
  ws !! i = Some wk ->
  <[i := {| wcase := wcase wk; wpc := pc |}]> ws !! j = Some wk' ->
  (j = i /\ wk' = {| wcase := wcase wk; wpc := pc |}) \/ (j <> i /\ ws !! j = Some wk').
Proof.
  intros Hi Hj. destruct (decide (j = i)) as [->|Hne].
  - left. split; [done|].
    rewrite list_lookup_insert_eq in Hj;
      [by apply (lookup_lt_Some _ _ _ Hi) | by injection Hj].
  - right. split; [done|]. by rewrite list_lookup_insert_ne in Hj.
Qed.

Lemma stepWorker_inv i s s' :
  Inv s -> stepWorker w r (length testCases) i s = Some s' -> Inv s'.
Proof.
  intros HI Hstep. unfold stepWorker in Hstep.
  destruct (workers s !! i) as [wk|] eqn:Hi; [|done].
  pose proof (fun y => count_insert (fun wk => holdsSlot (wpc wk)) (workers s) i wk y Hi)
    as Hhold.
  pose proof (fun y => count_insert (fun wk => alive (wpc wk)) (workers s) i wk y Hi)
    as Halive.
  pose proof (count_lookup_pos (fun wk => alive (wpc wk)) (workers s) i wk Hi) as Hpos.
  pose proof (count_le_length (fun wk => delivered (wpc wk)) (workers s)) as Hle.
  assert (Hclosed : closed s = true -> wpc wk = Exited).
  { intros Hcl. pose proof (inv_exited s HI Hcl) as H0.
    pose proof (count_zero_lookup _ _ _ _ H0 Hi) as Hx. simpl in Hx.
    by destruct (wpc wk). }
  destruct HI. unfold inFlight in *.
  assert (Hgoal : forall pc,
    (wpc wk = AtRunTest -> forall res, pc = AtSend res -> res = run (wcase wk)) ->
    (forall res, wpc wk <> AtRunTest -> pc <> AtSend res) ->
    forall (j : nat) (wk' : Worker) (res : TestResult),
      <[i := {| wcase := wcase wk; wpc := pc |}]> (workers s) !! j = Some wk' ->
      wpc wk' = AtSend res -> res = run (wcase wk')).
  { intros pc Hrun Hother j wk' res Hj Hpc'.
    destruct (lookup_goto _ _ _ _ _ _ Hi Hj) as [[-> ->]|[_ Hj']];
      [|by eapply inv_atsend0].
    simpl in *. destruct (wpc wk) eqn:E; try (by eapply Hrun);
      by exfalso; eapply (Hother res). }
  destruct (wpc wk) as [| |res| | |] eqn:Hpc; simpl in *.
  - (* acquire *)
    destruct (Z.of_nat (semaphore s) <? Parallel (options r))%Z eqn:Hfree; [|done].
    injection Hstep as <-. apply Z.ltb_lt in Hfree.
    specialize (Hhold {| wcase := wcase wk; wpc := AtRunTest |}).
    specialize (Halive {| wcase := wcase wk; wpc := AtRunTest |}).
    simpl in Hhold, Halive.
    constructor; unfold inFlight; simpl;
      rewrite ?map_wcase_insert ?sentResults_insert_same ?Hpc //; try lia.
    + by apply Hgoal.
    + intros Hcl. by specialize (Hclosed Hcl).
  - (* the test runs *)
    injection Hstep as <-.
    specialize (Hhold {| wcase := wcase wk; wpc := AtSend (run (wcase wk)) |}).
    specialize (Halive {| wcase := wcase wk; wpc := AtSend (run (wcase wk)) |}).
    simpl in Hhold, Halive.
    constructor; unfold inFlight; simpl;
      rewrite ?map_wcase_insert ?sentResults_insert_same ?Hpc //; try lia.
    + apply Hgoal; [by intros _ ? [= <-] | done].
    + intros Hcl. by specialize (Hclosed Hcl).
  - (* the result is sent *)
    destruct (closed s) eqn:Hcl; [by specialize (Hclosed eq_refl)|].
    destruct (length (testResults s) <? length testCases) eqn:Hroom; [|done].
    injection Hstep as <-.
    specialize (Hhold {| wcase := wcase wk; wpc := AtRelease |}).
    specialize (Halive {| wcase := wcase wk; wpc := AtRelease |}).
    simpl in Hhold, Halive.
    pose proof (inv_atsend0 i wk res Hi Hpc) as ->.
    constructor; unfold inFlight; simpl; rewrite ?map_wcase_insert ?Hpc //; try lia.
    + rewrite sentResults_insert_deliver ?Hpc // -inv_sent0.
      by rewrite app_assoc -Permutation_cons_append.
    + by apply Hgoal.
    + by rewrite Hcl.
    + by rewrite Hcl.
    + intros Hret. by destruct (inv_returned0 Hret).
  - (* release *)
    destruct (semaphore s) as [|n] eqn:Hsem; [done|]. injection Hstep as <-.
    specialize (Hhold {| wcase := wcase wk; wpc := AtDone |}).
    specialize (Halive {| wcase := wcase wk; wpc := AtDone |}).
    simpl in Hhold, Halive.
    constructor; unfold inFlight; simpl;
      rewrite ?map_wcase_insert ?sentResults_insert_same ?Hpc //; try lia.
    + by apply Hgoal.
    + intros Hcl. by specialize (Hclosed Hcl).
  - (* wg.Done() *)
    specialize (Hpos eq_refl).
    destruct (wg s - 1 <? 0)%Z eqn:Hneg; [apply Z.ltb_lt in Hneg; lia|].
    injection Hstep as <-.
    specialize (Hhold {| wcase := wcase wk; wpc := Exited |}).
    specialize (Halive {| wcase := wcase wk; wpc := Exited |}).
    simpl in Hhold, Halive.
    constructor; unfold inFlight; simpl;
      rewrite ?map_wcase_insert ?sentResults_insert_same ?Hpc //; try lia.
    + by apply Hgoal.
    + intros Hcl. by specialize (Hclosed Hcl).
  - done.
Qed.

Lemma stepCloser_inv s s' : Inv s -> stepCloser s = Some s' -> Inv s'.
Proof.
  intros [] Hstep. unfold stepCloser in Hstep.
  destruct (closerPC s) eqn:Hcl; try done.
  destruct (wg s =? 0)%Z eqn:Hwg; [|done]. apply Z.eqb_eq in Hwg.
  injection Hstep as <-. constructor; simpl; rewrite ?Hcl //.
  - destruct (mainPC s); done.
  - intros _. lia.
  - intros Hret. by destruct (inv_returned0 Hret).
Qed.

Lemma step_inv a s s' : Inv s -> step' a s = Some s' -> Inv s'.
Proof.
  intros HI. unfold step. rewrite (inv_panic s HI).
  destruct a; [apply stepMain_inv | apply stepWorker_inv | apply stepCloser_inv]; done.
Qed.

Lemma exec_inv sched s : Inv s -> Inv (exec' sched s).
Proof.
  revert s. induction sched as [|a sched IH]; intros s HI; simpl; [done|].
  destruct (step' a s) as [s'|] eqn:Hstep; apply IH; [by eapply step_inv | done].
Qed.

Lemma exec_app sched1 sched2 s :
  exec' (sched1 ++ sched2) s = exec' sched2 (exec' sched1 s).
Proof.
  revert s. induction sched1 as [|a sched1 IH]; intros s; simpl; [done|].
  by destruct (step' a s).
Qed.

(** After a panic nothing moves. *)
Lemma exec_panicked sched s msg :
  panicked s = Some msg -> exec' sched s = s.
Proof.
  intros Hp. induction sched as [|a sched IH]; simpl; [done|].
  unfold step. by rewrite Hp.
Qed.


(** ** What the invariant gives *)

(** The result channel never fills up: a send never blocks. *)
Lemma channel_has_room s i wk res :
  Inv s -> workers s !! i = Some wk -> wpc wk = AtSend res ->
  length (testResults s) < length testCases.
Proof.
  intros HI Hi Hpc.
  pose proof (count_insert (fun wk => delivered (wpc wk)) (workers s) i wk
                {| wcase := wcase wk; wpc := AtRelease |} Hi) as Hd.
  pose proof (count_le_length (fun wk => delivered (wpc wk))
                (<[i := {| wcase := wcase wk; wpc := AtRelease |}]> (workers s))) as Hle.
  rewrite length_insert in Hle. rewrite Hpc /= in Hd.
  pose proof (f_equal length (inv_cases s HI)) as Hlen.
  rewrite length_app length_map in Hlen.
  pose proof (Permutation_length (inv_sent s HI)) as Hsent.
  rewrite length_app length_sentResults in Hsent. lia.
Qed.

Lemma returned_outcomes s :
  Inv s -> mainPC s = Returned ->
  TestResults (results s) ≡ₚ map run testCases.
Proof.
  intros HI Hret. destruct (inv_returned s HI Hret) as [Hcl Hq].
  pose proof (inv_sent s HI) as Hsent. rewrite Hq app_nil_r in Hsent.
  rewrite Hsent (sentResults_all _ (inv_exited s HI Hcl)).
  pose proof (inv_cases s HI) as Hc. rewrite Hret /= app_nil_r in Hc.
  by rewrite Hc.
Qed.

Lemma collected_status s res :
  Inv s -> res ∈ TestResults (results s) ->
  Status res = "passed" \/ Status res = "failed".
Proof.
  intros HI Hin.
  assert (res ∈ sentResults (workers s)) as [tc ->]%sentResults_elem.
  { rewrite -(inv_sent s HI). apply elem_of_app. by left. }
  apply runSingleTest_status.
Qed.

Lemma statusCount_partition l :
  Forall (fun res => Status res = "passed" \/ Status res = "failed") l ->
  (statusCount "passed" l + statusCount "failed" l = len l)%Z
  /\ statusCount "skipped" l = 0%Z.
Proof.
  unfold statusCount, len.
  induction 1 as [|res l [Hs|Hs] _ [IH1 IH2]]; simpl; [done| |]; rewrite Hs /=; lia.
Qed.

(** ** Every step uses up some of the measure *)

Lemma step_measure a s s' : Inv s -> step' a s = Some s' -> measure s' < measure s.
Proof.
  intros HI. unfold step. rewrite (inv_panic s HI). unfold measure.
  destruct a as [|i|]; simpl.
  - unfold stepMain. destruct (mainPC s) as [[|tc rest]| |] eqn:Hmain; simpl.
    + intros [= <-]. simpl.
      pose proof (inv_closer s HI) as Hc. rewrite Hmain in Hc. rewrite Hc /=. lia.
    + intros [= <-]. simpl. rewrite workersWeight_app /=. lia.
    + destruct (testResults s) as [|res queue] eqn:Hq.
      * destruct (closed s); [|done]. intros [= <-]. simpl. rewrite Hq /=. lia.
      * intros [= <-]. simpl. rewrite Hmain /=. lia.
    + done.
  - unfold stepWorker. destruct (workers s !! i) as [wk|] eqn:Hi; [|done].
    pose proof (fun wk' => workersWeight_insert (workers s) i wk wk' Hi) as Hw.
    assert (Hclosed : closed s = true -> wpc wk = Exited).
    { intros Hcl. pose proof (inv_exited s HI Hcl) as H0.
      pose proof (count_zero_lookup _ _ _ _ H0 Hi) as Hx. simpl in Hx.
      by destruct (wpc wk). }
    pose proof (count_lookup_pos (fun wk => alive (wpc wk)) (workers s) i wk Hi) as Hpos.
    simpl in Hpos. pose proof (inv_wg s HI) as Hwg.
    destruct (wpc wk) as [| |res| | |] eqn:Hpc; simpl.
    + case_match; [|done]. intros [= <-]. simpl.
      specialize (Hw {| wcase := wcase wk; wpc := AtRunTest |}).
      simpl in Hw. lia.
    + intros [= <-]. simpl.
      specialize (Hw {| wcase := wcase wk; wpc := AtSend (run (wcase wk)) |}).
      simpl in Hw. lia.
    + destruct (closed s); [by specialize (Hclosed eq_refl)|].
      case_match; [|done]. intros [= <-]. simpl.
      specialize (Hw {| wcase := wcase wk; wpc := AtRelease |}).
      simpl in Hw. rewrite length_app /=. lia.
    + destruct (semaphore s); [done|]. intros [= <-]. simpl.
      specialize (Hw {| wcase := wcase wk; wpc := AtDone |}).
      simpl in Hw. lia.
    + specialize (Hpos eq_refl).
      destruct (wg s - 1 <? 0)%Z eqn:Hneg; [apply Z.ltb_lt in Hneg; lia|].
      intros [= <-]. simpl.
      specialize (Hw {| wcase := wcase wk; wpc := Exited |}).
      simpl in Hw. lia.
    + done.
  - unfold stepCloser. destruct (closerPC s); try done.
    case_match; [|done]. intros [= <-]. simpl. lia.
Qed.


(** ** No deadlock *)

(** A worker that is neither waiting for a slot nor gone. *)
Definition canMove (pc : WorkerPC) : bool :=
  match pc with
  | AtAcquire | Exited => false
  | _ => true
  end.

Lemma worker_moves s i wk :
  Inv s -> workers s !! i = Some wk -> canMove (wpc wk) = true ->
  exists s', step' (Work i) s = Some s'.
Proof.
  intros HI Hi Hmove. unfold step. rewrite (inv_panic s HI). unfold stepWorker.
  rewrite Hi.
  destruct (wpc wk) as [| |res| | |] eqn:Hpc; try done; simpl.
  - eauto.
  - destruct (closed s); [eauto|].
    pose proof (channel_has_room s i wk res HI Hi Hpc) as Hroom.
    apply Nat.ltb_lt in Hroom. rewrite Hroom. eauto.
  - pose proof (count_lookup_pos (fun wk => holdsSlot (wpc wk)) (workers s) i wk Hi)
      as Hpos.
    rewrite /= Hpc in Hpos. specialize (Hpos eq_refl).
    pose proof (inv_sem s HI) as Hsem. unfold inFlight in Hsem.
    destruct (semaphore s); [lia | eauto].
  - destruct (wg s - 1 <? 0)%Z; eauto.
Qed.

Lemma waiting_worker_moves s i wk :
  Inv s -> (1 <= Parallel (options r))%Z ->
  workers s !! i = Some wk -> wpc wk = AtAcquire -> inFlight s = 0 ->
  exists s', step' (Work i) s = Some s'.
Proof.
  intros HI Hpar Hi Hpc Hfree. unfold step. rewrite (inv_panic s HI).
  unfold stepWorker. rewrite Hi Hpc (inv_sem s HI) Hfree.
  destruct (Z.of_nat 0 <? Parallel (options r))%Z eqn:Hlt; [eauto|].
  apply Z.ltb_ge in Hlt. lia.
Qed.

Lemma progress s :
  Inv s -> (1 <= Parallel (options r))%Z -> mainPC s <> Returned ->
  exists a s', step' a s = Some s'.
Proof.
  intros HI Hpar Hrun.
  pose proof (inv_panic s HI) as Hpanic.
  destruct (mainPC s) as [rest| |] eqn:Hmain; [| |done].
  - exists Main. unfold step, stepMain. rewrite Hpanic Hmain.
    destruct rest; eauto.
  - destruct (testResults s) as [|res queue] eqn:Hq;
      [|exists Main; unfold step, stepMain; rewrite Hpanic Hmain Hq; eauto].
    destruct (closed s) eqn:Hcl;
      [exists Main; unfold step, stepMain; rewrite Hpanic Hmain Hq Hcl; eauto|].
    pose proof (inv_closer s HI) as Hc. rewrite Hmain in Hc.
    pose proof (inv_closed s HI) as Hc'. rewrite Hcl in Hc'.
    destruct (closerPC s) eqn:Hcloser; [done| |done].
    destruct (wg s =? 0)%Z eqn:Hwg.
    { exists Closer. unfold step, stepCloser. rewrite Hpanic Hcloser Hwg. eauto. }
    apply Z.eqb_neq in Hwg. rewrite (inv_wg s HI) in Hwg.
    destruct (count (fun wk => canMove (wpc wk)) (workers s)) as [|n] eqn:Hn.
    + destruct (count_pos_lookup (fun wk => alive (wpc wk)) (workers s))
        as (i & wk & Hi & Halive); [lia|].
      pose proof (count_zero_lookup _ _ _ _ Hn Hi) as Hstuck. simpl in Hstuck.
      exists (Work i). apply (waiting_worker_moves s i wk); try done.
      * by destruct (wpc wk).
      * pose proof (count_mono (fun wk => holdsSlot (wpc wk))
                      (fun wk => canMove (wpc wk)) (workers s)) as Hm.
        unfold inFlight. rewrite Hn in Hm.
        assert (forall x : Worker, holdsSlot (wpc x) = true -> canMove (wpc x) = true)
          as Himp by (intros x; by destruct (wpc x)).
        specialize (Hm Himp). lia.
    + destruct (count_pos_lookup (fun wk => canMove (wpc wk)) (workers s))
        as (i & wk & Hi & Hmove); [lia|].
      exists (Work i). by apply (worker_moves s i wk).
Qed.

(** ** Every run can be completed *)

Lemma terminates_within n s :
  measure s <= n -> Inv s -> (1 <= Parallel (options r))%Z ->
  exists sched, mainPC (exec' sched s) = Returned.
Proof.
  revert s. induction n as [|n IH]; intros s Hm HI Hpar.
  - destruct (mainPC s) eqn:Hmain; [| |by exists []]; unfold measure in Hm;
      rewrite Hmain /= in Hm; lia.
  - destruct (mainPC s) eqn:Hmain; [| |by exists []].
    all: destruct (progress s HI Hpar) as (a & s' & Hstep); [by rewrite Hmain|].
    all: pose proof (step_measure a s s' HI Hstep) as Hlt.
    all: destruct (IH s') as [sched Hsched];
      [lia | by eapply step_inv | done |].
    all: exists (a :: sched); simpl; by rewrite Hstep.
Qed.

Lemma terminates s :
  Inv s -> (1 <= Parallel (options r))%Z ->
  exists sched, mainPC (exec' sched s) = Returned.
Proof. by apply (terminates_within (measure s)). Qed.

End Invariant.

End pool_facts.

(* ===================================================================== *)
(** * Concrete runs *)
(* ===================================================================== *)

(** A small world and the configurations on which the engine is run
    below. *)

Module demo.
Import runner pool.

Definition dq : string := String jsonref.quote EmptyString.

(** The text [Welcome! {"a":1}]. *)
Definition welcomeText : string := "Welcome! {" +:+ dq +:+ "a" +:+ dq +:+ ":1}".

(** The entries of unicode.CaseRanges for the capital letters of Latin-1,
    Greek and Cyrillic; the examples use no other letter above U+007F. *)
Definition caseRangesExcerpt (r : Z) : Z :=
  if ((192 <=? r) && (r <=? 214)) || ((216 <=? r) && (r <=? 222)) then r + 32
  else if ((913 <=? r) && (r <=? 929)) || ((931 <=? r) && (r <=? 939)) then r + 32
  else if (1024 <=? r) && (r <=? 1039) then r + 80
  else if (1040 <=? r) && (r <=? 1071) then r + 32
  else r.

Definition world : World :=
  {| LoadFromFile := fun file =>
       if String.eqb file "prompts/broken.prompt" then
         Err "failed to parse template in prompts/broken.prompt: unexpected EOF"
       else Ok {| prompts.Content := "Say hello to {{.customer}}" |};
     Render := fun prompt _ => Ok (prompts.Content prompt);
     Getenv := fun key => if String.eqb key "OPENAI_API_KEY" then "sk-test" else "";
     remoteComplete := fun _ _ =>
       Ok {| providers.Text := welcomeText; providers.Cost := 0.0045%float;
             providers.Tokens := 2; providers.Provider := "openai";
             providers.Model := "gpt-4o" |};
     jsonUnmarshal := jsonref.Unmarshal;
     unicodeLowerCase := caseRangesExcerpt |}.

Definition assertion (type_ : string) (value : Value) (threshold : float)
  : config.Assertion :=
  {| config.Type_ := type_; config.Value_ := value; config.Threshold := threshold;
     config.Required := false |}.

Definition required (fields : list string) : Value :=
  VMap [("required", VList (map VString fields))].

Definition responseWith (text : string) : providers.Response :=
  {| providers.Text := text; providers.Cost := 0%float; providers.Tokens := 0;
     providers.Provider := "openai"; providers.Model := "gpt-4o" |}.

(** The text [{"a":{"b":{"c":1}}}] and its part [{"b":{"c":1}}]. *)
Definition innerText : string :=
  "{" +:+ dq +:+ "b" +:+ dq +:+ ":{" +:+ dq +:+ "c" +:+ dq +:+ ":1}}".

Definition nestedText : string :=
  "{" +:+ dq +:+ "a" +:+ dq +:+ ":" +:+ innerText +:+ "}".

(** Passes: the response holds an object with the key a. *)
Definition testJSON : config.Test :=
  {| config.Name := "has-json"; config.Description := "";
     config.Variables := [("customer", VString "Alice")];
     config.Assert := [assertion "contains-json" (required ["a"]) 0%float];
     config.Provider_ := "" |}.

(** Fails: the response costs more than the threshold. *)
Definition testCost : config.Test :=
  {| config.Name := ""; config.Description := "";
     config.Variables := [];
     config.Assert := [assertion "cost" VNil 0.003%float];
     config.Provider_ := "" |}.

(** Fails before any assertion: the provider is not configured. *)
Definition testUnconfigured : config.Test :=
  {| config.Name := "other-provider"; config.Description := "";
     config.Variables := [];
     config.Assert := [assertion "toxicity" VNil 0%float];
     config.Provider_ := "mistral:tiny" |}.

Definition openai : config.Provider :=
  {| config.ID := "openai:gpt-4o"; config.Config_ := [("temperature", VInt 0)] |}.

Definition cfg : config.Config :=
  {| config.Prompts := ["prompts/onboard.prompt"];
     config.Providers := [openai];
     config.Tests := [testJSON; testCost; testUnconfigured] |}.

Definition opts (parallel : Z) (filters : list string) : Options :=
  {| Parallel := parallel; UpdateBaseline := false; Filters := filters;
     Verbose := false; CIMode := false; BaselinePath := "";
     OptCommitSHA := "abc123"; OptPRNumber := "" |}.

Definition runner2 : Runner := New cfg (opts 2 []).

Definition onboard : string * prompts.Prompt :=
  ("prompts/onboard.prompt", {| prompts.Content := "Say hello to {{.customer}}" |}).

(** Round robin over the main goroutine, three workers and the closer. *)
Definition roundRobin (turns : nat) : list Actor :=
  concat (replicate turns [Main; Work 0; Work 1; Work 2; Closer]).

(** All workers are started first, then served last to first. *)
Definition lastFirst : list Actor :=
  replicate 4 Main ++ replicate 5 (Work 2) ++ replicate 5 (Work 1)
  ++ replicate 5 (Work 0) ++ [Closer] ++ replicate 4 Main.

Definition choices (sched : list Actor) : Choices :=
  {| visit := [onboard]; schedule := sched |}.

Definition resultsOf (o : Outcome) : Results :=
  match o with
  | Returns (Ok res) => res
  | _ => results (initState runner2 [])
  end.

Definition results1 : Results :=
  Eval vm_compute in resultsOf (Run world runner2 (choices (roundRobin 10))).

Definition results2 : Results :=
  Eval vm_compute in resultsOf (Run world runner2 (choices lastFirst)).

(** A configuration whose only prompt does not load. *)
Definition cfgBroken : config.Config :=
  {| config.Prompts := ["prompts/broken.prompt"];
     config.Providers := [openai];
     config.Tests := [testJSON] |}.

Definition runnerBroken : Runner := New cfgBroken (opts 2 []).

(** No slot at all. *)
Definition runner0 : Runner := New cfg (opts 0 []).

(** Two prompts and one unnamed test. *)
Definition cfgTwo : config.Config :=
  {| config.Prompts := ["prompts/onboard.prompt"; "prompts/invoice.prompt"];
     config.Providers := [openai];
     config.Tests := [testCost] |}.

Definition runnerTwo : Runner := New cfgTwo (opts 1 []).

Definition invoice : string * prompts.Prompt :=
  ("prompts/invoice.prompt", {| prompts.Content := "Say hello to {{.customer}}" |}).

Definition promptFilesTwo : gmap string prompts.Prompt :=
  <[fst invoice := snd invoice]> (<[fst onboard := snd onboard]> ∅).

End demo.

(* ===================================================================== *)
(** * Properties of Runner.Run *)
(* ===================================================================== *)

Module run_properties.
Import runner pool runner_facts pool_facts.
Local Open Scope nat_scope.

(** The per-case failures of runSingleTest, by the step that fails, with
    the text that the failure leaves in [Error]. *)
Inductive CaseFailure (w : World) (r : Runner) (tc : TestCase) : string -> Prop :=
| LoadFails err :
    LoadFromFile w (tcPromptFile tc) = Err err ->
    CaseFailure w r tc ("Failed to load prompt: " +:+ err)
| RenderFails prompt err :
    LoadFromFile w (tcPromptFile tc) = Ok prompt ->
    Render w prompt (tcVariables tc) = Err err ->
    CaseFailure w r tc ("Failed to render prompt: " +:+ err)
| ResolutionFails err :
    config.GetProvider (config_ r) (tcProvider tc) = Err err ->
    (exists prompt text, LoadFromFile w (tcPromptFile tc) = Ok prompt
                         /\ Render w prompt (tcVariables tc) = Ok text) ->
    CaseFailure w r tc ("Provider not found: " +:+ err)
| ClientFails providerConfig err :
    config.GetProvider (config_ r) (tcProvider tc) = Ok providerConfig ->
    providers_client.NewClient w providerConfig = Err err ->
    (exists prompt text, LoadFromFile w (tcPromptFile tc) = Ok prompt
                         /\ Render w prompt (tcVariables tc) = Ok text) ->
    CaseFailure w r tc ("Failed to create provider client: " +:+ err)
| CompletionFails prompt text providerConfig client err :
    LoadFromFile w (tcPromptFile tc) = Ok prompt ->
    Render w prompt (tcVariables tc) = Ok text ->
    config.GetProvider (config_ r) (tcProvider tc) = Ok providerConfig ->
    providers_client.NewClient w providerConfig = Ok client ->
    providers_client.Complete w client text = Err err ->
    CaseFailure w r tc ("Failed to execute prompt: " +:+ err).

(** The provider answered the rendered prompt of the case. *)
Definition Completed (w : World) (r : Runner) (tc : TestCase)
    (response : providers.Response) : Prop :=
  exists prompt text providerConfig client,
    LoadFromFile w (tcPromptFile tc) = Ok prompt
    /\ Render w prompt (tcVariables tc) = Ok text
    /\ config.GetProvider (config_ r) (tcProvider tc) = Ok providerConfig
    /\ providers_client.NewClient w providerConfig = Ok client
    /\ providers_client.Complete w client text = Ok response.

Lemma CaseFailure_completion w r tc msg :
  CaseFailure w r tc msg <-> completion w r tc = Err msg.
Proof.
  unfold completion. split.
  - destruct 1 as [err H1|prompt err H1 H2|err H3 (prompt & text & H1 & H2)
                  |pc err H3 H4 (prompt & text & H1 & H2)
                  |prompt text pc client err H1 H2 H3 H4 H5];
      rewrite ?H1 ?H2 ?H3 ?H4 ?H5 //.
  - destruct (LoadFromFile w _) as [prompt|e1] eqn:H1;
      [|intros [= <-]; by constructor].
    destruct (Render w _ _) as [text|e2] eqn:H2;
      [|intros [= <-]; by econstructor].
    destruct (config.GetProvider _ _) as [pc|e3] eqn:H3;
      [|intros [= <-]; constructor; eauto].
    destruct (providers_client.NewClient _ _) as [client|e4] eqn:H4;
      [|intros [= <-]; econstructor; eauto].
    destruct (providers_client.Complete _ _ _) as [resp|e5] eqn:H5;
      [done|intros [= <-]; by econstructor].
Qed.

Lemma Completed_completion w r tc response :
  Completed w r tc response <-> completion w r tc = Ok response.
Proof.
  unfold completion, Completed. split.
  - intros (prompt & text & pc & client & H1 & H2 & H3 & H4 & H5).
    by rewrite H1 H2 H3 H4 H5.
  - destruct (LoadFromFile w _) as [prompt|] eqn:H1; [|done].
    destruct (Render w _ _) as [text|] eqn:H2; [|done].
    destruct (config.GetProvider _ _) as [pc|] eqn:H3; [|done].
    destruct (providers_client.NewClient _ _) as [client|] eqn:H4; [|done].
    destruct (providers_client.Complete _ _ _) as [resp|] eqn:H5; [|done].
    intros [= <-]. by exists prompt, text, pc, client.
Qed.

(** ** From Run to the invariant *)

Lemma Run_returned w r ch res :
  Run w r ch = Returns (Ok res) ->
  exists s, Inv w r (testCasesOf r ch) s /\ mainPC s = Returned /\ results s = res
            /\ s = exec w r (length (testCasesOf r ch)) (schedule ch)
                      (initState r (testCasesOf r ch)).
Proof.
  unfold Run. destruct (loadPrompts w r) as [promptFiles|]; [|done].
  set (cases := testCasesOf r ch).
  set (s := exec w r (length cases) (schedule ch) (initState r cases)).
  intros Hrun. exists s.
  destruct (panicked s) eqn:Hp; [done|].
  destruct (mainPC s) eqn:Hmain; try done. injection Hrun as <-.
  split; [|done].
  destruct (Z.ltb_spec (Parallel (options r)) 0) as [Hneg|Hpos].
  - exfalso. unfold s in Hp.
    assert (Hinit : panicked (initState r cases) = Some "makechan: size out of range").
    { simpl. by apply Z.ltb_lt in Hneg as ->. }
    rewrite (exec_panicked w r cases _ _ _ Hinit) Hinit in Hp. done.
  - apply exec_inv. by apply init_inv.
Qed.

Lemma Run_totals w r ch res :
  Run w r ch = Returns (Ok res) ->
  TestResults res ≡ₚ map (runSingleTest w r) (testCasesOf r ch)
  /\ Total res = len (TestResults res)
  /\ Passed_ res = statusCount "passed" (TestResults res)
  /\ Failed res = statusCount "failed" (TestResults res)
  /\ Skipped res = statusCount "skipped" (TestResults res)
  /\ TotalCost res = sumCosts (TestResults res)
  /\ Forall (fun out => Status out = "passed" \/ Status out = "failed") (TestResults res).
Proof.
  intros (s & HI & Hret & <- & _)%Run_returned.
  pose proof (returned_outcomes _ _ _ s HI Hret) as Hperm.
  repeat split; try apply HI; [done| |].
  - rewrite (inv_total _ _ _ s HI). unfold len.
    by rewrite (Permutation_length Hperm) length_map.
  - apply Forall_forall. intros out Hin. by eapply collected_status.
Qed.

(** With no slot and at least one case, Run never returns. *)
Lemma no_slot_no_return w r cases sched :
  (Parallel (options r) <= 0)%Z -> cases <> [] ->
  mainPC (exec w r (length cases) sched (initState r cases)) <> Returned.
Proof.
  intros Hpar Hne.
  destruct (Z.ltb_spec (Parallel (options r)) 0) as [Hneg|Hpos].
  { assert (Hinit : panicked (initState r cases) = Some "makechan: size out of range").
    { simpl. by apply Z.ltb_lt in Hneg as ->. }
    rewrite (exec_panicked w r cases _ _ _ Hinit). simpl. by destruct cases. }
  assert (Hstuck : forall s,
    Inv w r cases s ->
    Forall (fun wk => wpc wk = AtAcquire) (workers s) ->
    Forall (fun wk => wpc wk = AtAcquire) (workers (exec w r (length cases) sched s))
    /\ Inv w r cases (exec w r (length cases) sched s)).
  { induction sched as [|a sched IH]; intros s HI Hall; simpl; [done|].
    destruct (step w r (length cases) a s) as [s'|] eqn:Hstep; [|by apply IH].
    apply IH; [by eapply step_inv|].
    revert Hstep. unfold step. rewrite (inv_panic _ _ _ s HI).
    destruct a as [|i|].
    - unfold stepMain. destruct (mainPC s) as [[|tc rest]| |]; try done.
      + by intros [= <-].
      + intros [= <-]. simpl. apply Forall_app. split; [done|]. by constructor.
      + destruct (testResults s); [destruct (closed s); [|done]|]; by intros [= <-].
    - unfold stepWorker. destruct (workers s !! i) as [wk|] eqn:Hi; [|done].
      rewrite (proj1 (Forall_lookup _ _) Hall i wk Hi).
      pose proof (inv_bound _ _ _ s HI).
      destruct (Z.ltb_spec (Z.of_nat (semaphore s)) (Parallel (options r))); [lia|done].
    - unfold stepCloser. destruct (closerPC s); try done.
      destruct (wg s =? 0)%Z; [|done]. by intros [= <-]. }
  destruct (Hstuck (initState r cases)) as [Hall HI];
    [by apply init_inv | by constructor |].
  intros Hret.
  destruct (inv_returned _ _ _ _ HI Hret) as [Hcl _].
  pose proof (inv_exited _ _ _ _ HI Hcl) as Hzero.
  pose proof (inv_cases _ _ _ _ HI) as Hcases. rewrite Hret /= app_nil_r in Hcases.
  rewrite (count_all (fun wk => alive (wpc wk))) in Hzero.
  - eapply Forall_impl; [exact Hall|]. by intros wk ->.
  - apply Hne. rewrite -Hcases. by destruct (workers _).
Qed.


(** The workers that are inside runSingleTest. *)
Definition executing (s : State) : nat :=
  count (fun wk => match wpc wk with AtRunTest => true | _ => false end) (workers s).

Lemma executing_le_inFlight s : executing s <= inFlight s.
Proof. apply count_mono. intros wk. by destruct (wpc wk). Qed.

Lemma returned_frees_all_slots w r cases s :
  Inv w r cases s -> mainPC s = Returned -> inFlight s = 0.
Proof.
  intros HI Hret. destruct (inv_returned _ _ _ _ HI Hret) as [Hcl _].
  pose proof (inv_exited _ _ _ _ HI Hcl) as Hzero.
  pose proof (count_mono (fun wk => holdsSlot (wpc wk)) (fun wk => alive (wpc wk))
                (workers s)) as Hm.
  unfold inFlight. apply Nat.le_0_r. rewrite -Hzero. apply Hm.
  intros wk. by destruct (wpc wk).
Qed.

Lemma acquire_step w r cases s i wk :
  Inv w r cases s -> workers s !! i = Some wk -> wpc wk = AtAcquire ->
  if (Z.of_nat (inFlight s) <? Parallel (options r))%Z
  then exists s', step w r (length cases) (Work i) s = Some s'
                  /\ inFlight s' = S (inFlight s)
  else step w r (length cases) (Work i) s = None.
Proof.
  intros HI Hi Hpc. unfold step, stepWorker.
  rewrite (inv_panic _ _ _ _ HI) Hi Hpc (inv_sem _ _ _ _ HI).
  destruct (Z.of_nat (inFlight s) <? Parallel (options r))%Z; [|done].
  eexists. split; [done|]. unfold inFlight. simpl.
  pose proof (count_insert (fun wk => holdsSlot (wpc wk)) (workers s) i wk
                {| wcase := wcase wk; wpc := AtRunTest |} Hi) as Hc.
  rewrite Hpc /= in Hc. lia.
Qed.

Lemma send_then_release w r cases s i wk out :
  Inv w r cases s -> workers s !! i = Some wk -> wpc wk = AtSend out ->
  exists s1 s2, step w r (length cases) (Work i) s = Some s1
                /\ step w r (length cases) (Work i) s1 = Some s2
                /\ S (inFlight s2) = inFlight s.
Proof.
  intros HI Hi Hpc.
  destruct (worker_moves w r cases s i wk HI Hi) as [s1 Hs1]; [by rewrite Hpc|].
  pose proof (step_inv _ _ _ _ _ _ HI Hs1) as HI1.
  assert (Hi1 : workers s1 !! i = Some {| wcase := wcase wk; wpc := AtRelease |}
                /\ semaphore s1 = semaphore s).
  { revert Hs1 HI1. unfold step, stepWorker.
    rewrite (inv_panic _ _ _ _ HI) Hi Hpc.
    destruct (closed s).
    - intros [= <-] HI1. by pose proof (inv_panic _ _ _ _ HI1).
    - destruct (length (testResults s) <? length cases); [|done].
      intros [= <-] _. simpl. split; [|done].
      apply list_lookup_insert_eq. by eapply lookup_lt_Some. }
  destruct Hi1 as [Hi1 Hsem].
  destruct (worker_moves w r cases s1 i _ HI1 Hi1) as [s2 Hs2]; [done|].
  pose proof (step_inv _ _ _ _ _ _ HI1 Hs2) as HI2.
  exists s1, s2. repeat split; try done.
  rewrite -(inv_sem _ _ _ _ HI2) -(inv_sem _ _ _ _ HI) -Hsem.
  revert Hs2. unfold step, stepWorker. rewrite (inv_panic _ _ _ _ HI1) Hi1 /=.
  destruct (semaphore s1); [done|]. by intros [= <-].
Qed.

(** C2: for every list of test cases and every limit Parallel >= 1, in
    every state that Run can reach no more than Parallel workers hold a
    slot, and the executions of runSingleTest in flight are among them; a
    worker waiting for a slot is blocked while all slots are taken and
    proceeds as soon as one is free; a worker that has its outcome,
    whatever its status, sends it and gives its slot back; and the run
    can always be completed, with all slots free at the end. *)
Theorem semaphore_bounds_in_flight w r cases sched :
  (1 <= Parallel (options r))%Z ->
  let s := exec w r (length cases) sched (initState r cases) in
  (executing s <= inFlight s /\ (Z.of_nat (inFlight s) <= Parallel (options r))%Z)
  /\ (forall i wk, workers s !! i = Some wk -> wpc wk = AtAcquire ->
        if (Z.of_nat (inFlight s) <? Parallel (options r))%Z
        then exists s', step w r (length cases) (Work i) s = Some s'
                        /\ inFlight s' = S (inFlight s)
        else step w r (length cases) (Work i) s = None)
  /\ (forall i wk out, workers s !! i = Some wk -> wpc wk = AtSend out ->
        exists s1 s2, step w r (length cases) (Work i) s = Some s1
                      /\ step w r (length cases) (Work i) s1 = Some s2
                      /\ S (inFlight s2) = inFlight s)
  /\ (exists more, let s' := exec w r (length cases) more s in
                    mainPC s' = Returned /\ inFlight s' = 0).
Proof.
  intros Hpar s.
  assert (HI : Inv w r cases s) by (apply exec_inv, init_inv; lia).
  split; [|split; [|split]].
  - split; [apply executing_le_inFlight|].
    rewrite -(inv_sem _ _ _ _ HI). apply (inv_bound _ _ _ _ HI).
  - intros i wk. by apply acquire_step.
  - intros i wk out. by apply send_then_release.
  - destruct (terminates w r cases s HI Hpar) as [more Hret].
    exists more. split; [done|].
    eapply returned_frees_all_slots; [|done]. by apply exec_inv.
Qed.

Lemma semaphore_bounds_in_flight_witness :
  (1 <= Parallel (options demo.runner2))%Z
  /\ let cases := testCasesOf demo.runner2 (demo.choices []) in
     let s := exec demo.world demo.runner2 (length cases)
                   [Main; Main; Main; Work 0; Work 1]
                   (initState demo.runner2 cases) in
     (Z.of_nat (inFlight s) <= Parallel (options demo.runner2))%Z
     /\ inFlight s = 2
     /\ step demo.world demo.runner2 (length cases) (Work 2) s = None.
Proof.
  assert (Hpar : (1 <= Parallel (options demo.runner2))%Z) by (simpl; lia).
  split; [exact Hpar|]. intros cases s.
  destruct (semaphore_bounds_in_flight demo.world demo.runner2 cases
              [Main; Main; Main; Work 0; Work 1] Hpar) as ((_ & Hbound) & Hwait & _).
  split; [exact Hbound|]. split; [reflexivity|].
  exact (Hwait 2 _ eq_refl eq_refl).
Defined.


(** C1: for every RunResult that Run produces, the totals are the
    partition of the outcomes by status (Passed, Failed and Skipped count
    the outcomes with that status and add up to Total) and TotalCost is
    the sum of the Cost fields over TestResults, taken in the order of
    TestResults. *)
Theorem Run_totals_partition w r ch res :
  Run w r ch = Returns (Ok res) ->
  Total res = (Passed_ res + Failed res + Skipped res)%Z
  /\ Passed_ res = statusCount "passed" (TestResults res)
  /\ Failed res = statusCount "failed" (TestResults res)
  /\ Skipped res = statusCount "skipped" (TestResults res)
  /\ TotalCost res = sumCosts (TestResults res).
Proof.
  intros (Hperm & Htotal & Hp & Hf & Hs & Hcost & Hall)%Run_totals.
  destruct (statusCount_partition _ Hall) as [Hsum Hzero].
  repeat split; try done. rewrite Htotal Hp Hf Hs. lia.
Qed.

Lemma Run_totals_partition_witness :
  Run demo.world demo.runner2 (demo.choices (demo.roundRobin 10))
  = Returns (Ok demo.results1)
  /\ Total demo.results1
     = (Passed_ demo.results1 + Failed demo.results1 + Skipped demo.results1)%Z
  /\ TotalCost demo.results1 = sumCosts (TestResults demo.results1).
Proof.
  assert (H : Run demo.world demo.runner2 (demo.choices (demo.roundRobin 10))
              = Returns (Ok demo.results1)) by (vm_compute; reflexivity).
  split; [exact H|].
  destruct (Run_totals_partition _ _ _ _ H) as (Ht & _ & _ & _ & Hc).
  split; [exact Ht | exact Hc].
Defined.

(** C10: runSingleTest sets Status to "failed" or to "passed" and to
    nothing else; so in every RunResult that Run produces Skipped is 0 and
    Total is Passed + Failed, although "skipped" is a declared status. *)
Theorem Run_never_skips w r ch res :
  Run w r ch = Returns (Ok res) ->
  (forall tc, Status (runSingleTest w r tc) = "passed"
              \/ Status (runSingleTest w r tc) = "failed")
  /\ Forall (fun out => Status out = "passed" \/ Status out = "failed") (TestResults res)
  /\ Skipped res = 0%Z
  /\ Total res = (Passed_ res + Failed res)%Z.
Proof.
  intros (Hperm & Htotal & Hp & Hf & Hs & Hcost & Hall)%Run_totals.
  destruct (statusCount_partition _ Hall) as [Hsum Hzero].
  split; [intros tc; apply runSingleTest_status|].
  repeat split; try done; [by rewrite Hs | rewrite Htotal Hp Hf; lia].
Qed.

Lemma Run_never_skips_witness :
  Run demo.world demo.runner2 (demo.choices demo.lastFirst)
  = Returns (Ok demo.results2)
  /\ Skipped demo.results2 = 0%Z
  /\ Total demo.results2 = (Passed_ demo.results2 + Failed demo.results2)%Z.
Proof.
  assert (H : Run demo.world demo.runner2 (demo.choices demo.lastFirst)
              = Returns (Ok demo.results2)) by (vm_compute; reflexivity).
  split; [exact H|].
  destruct (Run_never_skips _ _ _ _ H) as (_ & _ & Hs & Ht).
  split; [exact Hs | exact Ht].
Defined.

(** ** Per-case failures *)

Lemma Run_completes w r ch promptFiles :
  loadPrompts w r = Ok promptFiles -> (1 <= Parallel (options r))%Z ->
  exists more res,
    Run w r {| visit := visit ch; schedule := schedule ch ++ more |} = Returns (Ok res).
Proof.
  intros Hload Hpar. unfold Run. rewrite Hload.
  change (testCasesOf r {| visit := visit ch; schedule := _ |})
    with (testCasesOf r ch).
  set (cases := testCasesOf r ch).
  set (s := exec w r (length cases) (schedule ch) (initState r cases)).
  assert (HI : Inv w r cases s) by (apply exec_inv, init_inv; lia).
  destruct (terminates w r cases s HI Hpar) as [more Hret].
  exists more, (results (exec w r (length cases) more s)).
  simpl. rewrite exec_app -/s.
  pose proof (exec_inv w r cases more s HI) as HI'.
  by rewrite (inv_panic _ _ _ _ HI') Hret.
Qed.

(** C3, as the code has it: every per-case failure (the prompt does not
    load or render, the provider is not configured, its client cannot be
    built, the completion fails) gives an outcome with Status "failed",
    the failure as its non-empty Error and no assertion outcomes;
    assertion outcomes exist only once the completion succeeded, one per
    assertion; and once loadPrompts has succeeded and Parallel >= 1, Run
    can always be completed and what it returns is a RunResult that holds
    exactly one outcome per case, each the outcome of its own case. When
    a configured prompt does not load, Run returns, under every schedule,
    the error of loadPrompts for the first such file, and no RunResult. *)
Theorem failures_become_outcomes w r :
  (forall tc msg, CaseFailure w r tc msg ->
     Status (runSingleTest w r tc) = "failed"
     /\ Error (runSingleTest w r tc) = msg /\ msg <> ""
     /\ Assertions (runSingleTest w r tc) = [])
  /\ (forall tc, (exists msg, CaseFailure w r tc msg)
                 \/ (exists response, Completed w r tc response))
  /\ (forall tc, Assertions (runSingleTest w r tc) <> [] ->
        exists response,
          Completed w r tc response
          /\ Assertions (runSingleTest w r tc)
             = map (fun a => runAssertion w a response) (config.Assert (tcTest tc)))
  /\ (forall ch promptFiles,
        loadPrompts w r = Ok promptFiles -> (1 <= Parallel (options r))%Z ->
        (exists more res,
           Run w r {| visit := visit ch; schedule := schedule ch ++ more |}
           = Returns (Ok res))
        /\ (forall res, Run w r ch = Returns (Ok res) ->
              TestResults res ≡ₚ map (runSingleTest w r) (testCasesOf r ch)))
  /\ (forall file err,
        file ∈ config.Prompts (config_ r) -> LoadFromFile w file = Err err ->
        exists before first after err',
          config.Prompts (config_ r) = before ++ first :: after
          /\ Forall (fun f => exists prompt, LoadFromFile w f = Ok prompt) before
          /\ LoadFromFile w first = Err err'
          /\ forall ch,
               Run w r ch
               = Returns (Err ("failed to load prompts: failed to load prompt "
                               +:+ first +:+ ": " +:+ err'))).
Proof.
  split; [|split; [|split; [|split]]].
  - intros tc msg Hfail%CaseFailure_completion.
    rewrite (runSingleTest_failed _ _ _ _ Hfail) /=.
    repeat split. by eapply completion_error_nonempty.
  - intros tc. destruct (completion w r tc) as [response|msg] eqn:Hc.
    + right. exists response. by apply Completed_completion.
    + left. exists msg. by apply CaseFailure_completion.
  - intros tc Hne. destruct (completion w r tc) as [response|msg] eqn:Hc.
    + exists response. split; [by apply Completed_completion|].
      by rewrite (runSingleTest_completed _ _ _ _ Hc).
    + by rewrite (runSingleTest_failed _ _ _ _ Hc) in Hne.
  - intros ch promptFiles Hload Hpar. split; [by eapply Run_completes|].
    intros res Hrun. by apply Run_totals in Hrun as [Hperm _].
  - intros file err Hin Hfile.
    destruct (loadPromptsFrom_fails w _ ∅ file err Hin Hfile) as [msg Hload].
    destruct (loadPromptsFrom_err _ _ _ _ Hload)
      as (before & first & after & err' & Hfiles & Hbefore & Hfirst & ->).
    exists before, first, after, err'. repeat split; [done..|].
    intros ch. unfold Run, loadPrompts. by rewrite Hload.
Qed.


Lemma failures_become_outcomes_witness :
  let tc := makeTestCase demo.runner2 "prompts/onboard.prompt" 2 demo.testUnconfigured in
  let promptFiles : gmap string prompts.Prompt := <[fst demo.onboard := snd demo.onboard]> ∅ in
  (CaseFailure demo.world demo.runner2 tc
     "Provider not found: provider not found: mistral:tiny"
   /\ loadPrompts demo.world demo.runner2 = Ok promptFiles
   /\ (1 <= Parallel (options demo.runner2))%Z)
  /\ (Status (runSingleTest demo.world demo.runner2 tc) = "failed"
      /\ exists more res,
           Run demo.world demo.runner2
               {| visit := [demo.onboard]; schedule := demo.roundRobin 1 ++ more |}
           = Returns (Ok res))
  /\ ("prompts/broken.prompt" ∈ config.Prompts (config_ demo.runnerBroken)
      /\ exists err first err',
           LoadFromFile demo.world "prompts/broken.prompt" = Err err
           /\ forall ch,
                Run demo.world demo.runnerBroken ch
                = Returns (Err ("failed to load prompts: failed to load prompt "
                                +:+ first +:+ ": " +:+ err'))).
Proof.
  intros tc promptFiles.
  assert (Hfail : CaseFailure demo.world demo.runner2 tc
                    "Provider not found: provider not found: mistral:tiny").
  { apply (ResolutionFails _ _ _ "provider not found: mistral:tiny"); [reflexivity|].
    eexists _, _. split; reflexivity. }
  assert (Hload : loadPrompts demo.world demo.runner2 = Ok promptFiles) by reflexivity.
  assert (Hpar : (1 <= Parallel (options demo.runner2))%Z) by (simpl; lia).
  split; [by repeat split|].
  destruct (failures_become_outcomes demo.world demo.runner2) as (H1 & _ & _ & H4 & _).
  split; [split; [by apply (H1 tc _ Hfail)|]|].
  { by apply (H4 (demo.choices (demo.roundRobin 1)) promptFiles Hload Hpar). }
  assert (Hin : "prompts/broken.prompt" ∈ config.Prompts (config_ demo.runnerBroken))
    by apply list_elem_of_here.
  split; [done|].
  destruct (failures_become_outcomes demo.world demo.runnerBroken) as (_ & _ & _ & _ & H5).
  destruct (H5 "prompts/broken.prompt" _ Hin eq_refl)
    as (before & first & after & err' & _ & _ & _ & Hrun).
  by eexists _, first, err'.
Defined.

(** Against C3 in its general form, in two ways. A prompt that does not
    load is a per-case failure of its test case, yet Run gives up in loadPrompts
    and returns an error and no RunResult, whatever the schedule. And
    with Parallel = 0 no worker ever gets a slot, so Run never returns. *)
Lemma prompt_load_failure_aborts_Run :
  let tc := makeTestCase demo.runnerBroken "prompts/broken.prompt" 0 demo.testJSON in
  CaseFailure demo.world demo.runnerBroken tc
    "Failed to load prompt: failed to parse template in prompts/broken.prompt: unexpected EOF"
  /\ (forall ch res, Run demo.world demo.runnerBroken ch <> Returns (Ok res))
  /\ (forall sched res,
        Run demo.world demo.runner0 (demo.choices sched) <> Returns (Ok res)).
Proof.
  intros tc. split; [|split].
  - by apply (LoadFails _ _ _
        "failed to parse template in prompts/broken.prompt: unexpected EOF").
  - intros ch res. unfold Run.
    replace (loadPrompts demo.world demo.runnerBroken)
      with (@Err (gmap string prompts.Prompt)
              ("failed to load prompt prompts/broken.prompt: "
               +:+ "failed to parse template in prompts/broken.prompt: unexpected EOF"))
      by reflexivity.
    discriminate.
  - intros sched res (s & HI & Hret & _ & ->)%Run_returned.
    revert Hret. apply no_slot_no_return; [simpl; lia | discriminate].
Qed.

End run_properties.

(* ===================================================================== *)
(** * Unknown assertion kinds and name filters *)
(* ===================================================================== *)

Module dispatch_properties.
Import runner pool runner_facts run_properties.

(** The kinds that NewEvaluator knows. *)
Definition registeredKinds : list string :=
  ["answer-relevance"; "contains-json"; "cost"; "llm-rubric"; "closed-qa";
   "toxicity"; "jailbreak"].

Lemma NewEvaluator_unregistered kind :
  kind ∉ registeredKinds ->
  assertions.NewEvaluator kind = assertions.UnsupportedEvaluator kind.
Proof.
  unfold registeredKinds. rewrite !not_elem_of_cons.
  intros (H1 & H2 & H3 & H4 & H5 & H6 & H7 & _).
  unfold assertions.NewEvaluator.
  by rewrite !(proj2 (String.eqb_neq _ _)).
Qed.

Lemma NewEvaluator_registered kind :
  kind ∈ registeredKinds ->
  forall type_, assertions.NewEvaluator kind <> assertions.UnsupportedEvaluator type_.
Proof.
  unfold registeredKinds. rewrite !elem_of_cons elem_of_nil.
  intros [->|[->|[->|[->|[->|[->|[->|[]]]]]]]] type_; discriminate.
Qed.

(** C6: an assertion whose kind is not registered evaluates to a result
    with Passed = false whose message names the kind; in the outcome of
    its test case that result stands at the place of the assertion, no
    assertion is dropped, the case counts as failed without an execution
    error, and the result is a value that runSingleTest returns. *)
Theorem unknown_kind_fails w assertion response :
  config.Type_ assertion ∉ registeredKinds ->
  let out := runAssertion w assertion response in
  (Passed out = false
   /\ Type_ out = config.Type_ assertion
   /\ Message out
      = "Evaluation error: unsupported assertion type: " +:+ config.Type_ assertion)
  /\ forall r tc i,
       Completed w r tc response ->
       config.Assert (tcTest tc) !! i = Some assertion ->
       Assertions (runSingleTest w r tc) !! i = Some out
       /\ length (Assertions (runSingleTest w r tc)) = length (config.Assert (tcTest tc))
       /\ Status (runSingleTest w r tc) = "failed"
       /\ Error (runSingleTest w r tc) = "".
Proof.
  intros Hkind out.
  assert (Hout : out = {| Type_ := config.Type_ assertion; Expected := VNil;
                          Actual := VNil; Passed := false; Score := 0%float;
                          Message := "Evaluation error: unsupported assertion type: "
                                     +:+ config.Type_ assertion |}).
  { unfold out, runAssertion. by rewrite (NewEvaluator_unregistered _ Hkind). }
  split; [by rewrite Hout|].
  intros r tc i Hdone%Completed_completion Hi.
  rewrite (runSingleTest_completed _ _ _ _ Hdone) /=.
  split; [|split; [|split]]; try done.
  - by rewrite list_lookup_fmap Hi.
  - by rewrite length_map.
  - assert (Hfalse : forallb Passed
                       (map (fun a => runAssertion w a response)
                            (config.Assert (tcTest tc))) = false).
    { apply not_true_is_false. intros Hall.
      rewrite forallb_forall in Hall.
      assert (Hin : In out (map (fun a => runAssertion w a response)
                                (config.Assert (tcTest tc)))).
      { apply (in_map (fun a => runAssertion w a response)).
        apply list_elem_of_In. by eapply list_elem_of_lookup_2. }
      specialize (Hall out Hin). by rewrite Hout in Hall. }
    by rewrite Hfalse.
Qed.

Lemma unknown_kind_fails_witness :
  let assertion := demo.assertion "sentiment" VNil 0%float in
  let response := {| providers.Text := "fine"; providers.Cost := 0%float;
                     providers.Tokens := 1; providers.Provider := "openai";
                     providers.Model := "gpt-4o" |} in
  (config.Type_ assertion ∉ registeredKinds)
  /\ Passed (runAssertion demo.world assertion response) = false
  /\ Message (runAssertion demo.world assertion response)
     = "Evaluation error: unsupported assertion type: sentiment".
Proof.
  intros assertion response.
  assert (Hkind : config.Type_ assertion ∉ registeredKinds).
  { unfold registeredKinds. rewrite !not_elem_of_cons. repeat split; try discriminate.
    apply not_elem_of_nil. }
  split; [exact Hkind|].
  destruct (unknown_kind_fails demo.world assertion response Hkind) as [(Hp & _ & Hm) _].
  split; [exact Hp | exact Hm].
Defined.

(** C7: the filter step of Run. filterTestCases returns the cases it is
    given, so with the filter "invoice" the cases whose names do not
    hold "invoice" are all still dispatched. *)
Theorem filter_keeps_unmatched_cases :
  let r := New demo.cfg (demo.opts 1 ["invoice"]) in
  let cases := testCasesOf r (demo.choices []) in
  (forall testCases, filterTestCases r testCases = testCases)
  /\ Filters (options r) = ["invoice"]
  /\ map tcName cases = ["has-json"; "prompts/onboard.prompt_test_1"; "other-provider"]
  /\ Forall (fun tc => Contains (tcName tc) "invoice" = false) cases.
Proof.
  intros r cases. split; [done|]. split; [done|]. split; [reflexivity|].
  repeat constructor.
Qed.

End dispatch_properties.

(* ===================================================================== *)
(** * The test-case expander *)
(* ===================================================================== *)

Module expander_properties.
Import runner pool.
Local Open Scope nat_scope.

Lemma loadPromptsFrom_dom w files (m0 m : gmap string prompts.Prompt) :
  loadPromptsFrom w files m0 = Ok m ->
  dom m = dom m0 ∪ list_to_set files.
Proof.
  revert m0. induction files as [|file files IH]; intros m0; simpl.
  - intros [= <-]. set_solver.
  - destruct (LoadFromFile w file) as [prompt|]; [|done].
    intros Hm%IH. rewrite Hm dom_insert_L. set_solver.
Qed.

Lemma rangeOrder_keys (promptFiles : gmap string prompts.Prompt) visit :
  rangeOrder promptFiles visit ->
  NoDup visit.*1 /\ length visit = size promptFiles
  /\ forall file, file ∈ visit.*1 <-> file ∈ dom promptFiles.
Proof.
  unfold rangeOrder. intros Hperm. split; [|split].
  - rewrite Hperm. apply NoDup_fst_map_to_list.
  - by rewrite Hperm length_map_to_list.
  - intros file. rewrite Hperm elem_of_dom list_elem_of_fmap. split.
    + intros ([k p] & -> & Hin%elem_of_map_to_list). by exists p.
    + intros [p Hp]. exists (file, p). split; [done|]. by apply elem_of_map_to_list.
Qed.

Lemma generateTestCases_Permutation r visit1 visit2 :
  visit1 ≡ₚ visit2 -> generateTestCases r visit1 ≡ₚ generateTestCases r visit2.
Proof.
  unfold generateTestCases.
  induction 1 as [|x l1 l2 _ IH|x y l|l1 l2 l3 _ IH1 _ IH2]; simpl.
  - done.
  - by rewrite IH.
  - rewrite !app_assoc. f_equiv. apply Permutation_app_comm.
  - by rewrite IH1.
Qed.

Lemma generateTestCases_length r visit :
  length (generateTestCases r visit)
  = length visit * length (config.Tests (config_ r)).
Proof.
  unfold generateTestCases. induction visit as [|entry visit IH]; simpl; [done|].
  by rewrite length_app length_imap IH.
Qed.

Lemma generateTestCases_elem r visit tc :
  tc ∈ generateTestCases r visit <->
  exists file i test,
    file ∈ visit.*1 /\ config.Tests (config_ r) !! i = Some test
    /\ tc = makeTestCase r file i test.
Proof.
  unfold generateTestCases. induction visit as [|entry visit IH]; simpl.
  - split; [by intros ?%elem_of_nil|].
    by intros (file & i & test & ?%elem_of_nil & _).
  - rewrite elem_of_app IH elem_of_lookup_imap. split.
    + intros [(i & test & -> & Hi)|(file & i & test & Hin & Hi & ->)].
      * exists entry.1, i, test. split; [by left|done].
      * exists file, i, test. split; [by right|done].
    + intros (file & i & test & Hin & Hi & ->).
      apply elem_of_cons in Hin as [->|Hin]; [left|right]; eauto 6.
Qed.

(** C8, as the code has it: the expander yields the cross product of the
    distinct prompt files with the test specs; the cases of one prompt
    stand together, in the declaration order of the specs, while the
    order of the prompts is that of the map iteration, so two runs give
    the same cases up to the order of the prompt groups; an unset
    provider is replaced by the first configured provider; and a case
    without an explicit name is named after its prompt file and the
    ordinal of its spec. *)
Theorem expander_cross_product w r promptFiles visit :
  loadPrompts w r = Ok promptFiles -> rangeOrder promptFiles visit ->
  let tests := config.Tests (config_ r) in
  let cases := generateTestCases r visit in
  cases = concat (map (fun entry => imap (makeTestCase r entry.1) tests) visit)
  /\ (NoDup visit.*1 /\ forall file, file ∈ visit.*1 <-> file ∈ config.Prompts (config_ r))
  /\ length cases = size promptFiles * length tests
  /\ (forall tc, tc ∈ cases <->
         exists file i test,
           file ∈ config.Prompts (config_ r) /\ tests !! i = Some test
           /\ tc = makeTestCase r file i test)
  /\ (forall file i test,
         let tc := makeTestCase r file i test in
         tcPromptFile tc = file /\ tcTest tc = test
         /\ tcProvider tc
            = (if String.eqb (config.Provider_ test) ""
               then match config.Providers (config_ r) with
                    | p :: _ => config.ID p
                    | [] => ""
                    end
               else config.Provider_ test)
         /\ tcName tc
            = (if String.eqb (config.Name test) ""
               then file +:+ "_test_" +:+ fmt_d (Z.of_nat i)
               else config.Name test))
  /\ (forall visit', rangeOrder promptFiles visit' ->
         generateTestCases r visit' ≡ₚ cases).
Proof.
  intros Hload Hrange tests cases.
  destruct (rangeOrder_keys _ _ Hrange) as (Hnodup & Hlen & Hkeys).
  apply loadPromptsFrom_dom in Hload.
  assert (Hfiles : forall file, file ∈ visit.*1 <-> file ∈ config.Prompts (config_ r)).
  { intros file. rewrite Hkeys Hload. set_solver. }
  split; [|split; [|split; [|split; [|split]]]].
  - unfold cases, generateTestCases. by rewrite flat_map_concat_map.
  - done.
  - unfold cases. by rewrite generateTestCases_length Hlen.
  - intros tc. unfold cases. rewrite generateTestCases_elem.
    by setoid_rewrite Hfiles.
  - intros file i test. unfold makeTestCase. simpl. repeat split.
    destruct (String.eqb_spec (config.Provider_ test) "") as [->|]; [|done].
    by destruct (config.Providers (config_ r)).
  - intros visit' Hrange'. apply generateTestCases_Permutation.
    unfold rangeOrder in *. by rewrite Hrange Hrange'.
Qed.

Lemma promptFilesTwo_orders :
  rangeOrder demo.promptFilesTwo [demo.onboard; demo.invoice]
  /\ rangeOrder demo.promptFilesTwo [demo.invoice; demo.onboard].
Proof.
  assert (H : map_to_list demo.promptFilesTwo ≡ₚ [demo.invoice; demo.onboard]).
  { unfold demo.promptFilesTwo.
    rewrite map_to_list_insert; [done|].
    by rewrite map_to_list_insert // map_to_list_empty. }
  unfold rangeOrder. rewrite H. split; [apply Permutation_swap | done].
Qed.

Lemma expander_cross_product_witness :
  (loadPrompts demo.world demo.runnerTwo = Ok demo.promptFilesTwo
   /\ rangeOrder demo.promptFilesTwo [demo.onboard; demo.invoice])
  /\ length (generateTestCases demo.runnerTwo [demo.onboard; demo.invoice])
     = size demo.promptFilesTwo * length (config.Tests demo.cfgTwo)
  /\ generateTestCases demo.runnerTwo [demo.invoice; demo.onboard]
     ≡ₚ generateTestCases demo.runnerTwo [demo.onboard; demo.invoice].
Proof.
  assert (Hload : loadPrompts demo.world demo.runnerTwo = Ok demo.promptFilesTwo)
    by reflexivity.
  destruct promptFilesTwo_orders as [Hdecl Hswap].
  split; [by split|].
  destruct (expander_cross_product demo.world demo.runnerTwo demo.promptFilesTwo
              [demo.onboard; demo.invoice] Hload Hdecl) as (_ & _ & Hlen & _ & _ & Hperm).
  split; [exact Hlen | by apply Hperm].
Defined.

(** Against C8 in its general form: for a configuration with two prompts
    both iteration orders of the prompt map are possible, and they give
    different case lists, one of which does not follow the declaration
    order of the prompts. *)
Lemma map_order_changes_case_list :
  loadPrompts demo.world demo.runnerTwo = Ok demo.promptFilesTwo
  /\ rangeOrder demo.promptFilesTwo [demo.onboard; demo.invoice]
  /\ rangeOrder demo.promptFilesTwo [demo.invoice; demo.onboard]
  /\ generateTestCases demo.runnerTwo [demo.onboard; demo.invoice]
     <> generateTestCases demo.runnerTwo [demo.invoice; demo.onboard]
  /\ map tcPromptFile (generateTestCases demo.runnerTwo [demo.invoice; demo.onboard])
     = ["prompts/invoice.prompt"; "prompts/onboard.prompt"]
  /\ config.Prompts demo.cfgTwo = ["prompts/onboard.prompt"; "prompts/invoice.prompt"]
  /\ map tcName (generateTestCases demo.runnerTwo [demo.invoice; demo.onboard])
     = ["prompts/invoice.prompt_test_0"; "prompts/onboard.prompt_test_0"].
Proof.
  destruct promptFilesTwo_orders as [Hdecl Hswap].
  repeat split; done.
Qed.

End expander_properties.

(* ===================================================================== *)
(** * Facts about the Go library functions *)
(* ===================================================================== *)

Module golib_facts.

Lemma append_cons c (a b : string) : String c a +:+ b = String c (a +:+ b).
Proof. reflexivity. Qed.

Lemma append_nil_l (a : string) : "" +:+ a = a.
Proof. reflexivity. Qed.

Lemma append_assoc (a b c : string) : (a +:+ b) +:+ c = a +:+ b +:+ c.
Proof.
  induction a as [|x a IH]; [done|]. by rewrite !append_cons IH.
Qed.

Lemma append_nil_r (s : string) : s +:+ "" = s.
Proof.
  induction s as [|c s IH]; [done|]. by rewrite append_cons IH.
Qed.

Lemma substring_0_0 s : substring 0 0 s = "".
Proof. by destruct s. Qed.

(** ** Strings of ASCII bytes *)

Definition isASCII (s : string) : bool :=
  forallb (fun c => byteOf c <? 128) (list_ascii_of_string s).

(** The letters A to Z go to a to z, every other byte stays. *)
Definition foldByte (c : ascii) : ascii :=
  let n := nat_of_ascii c in
  if (65 <=? n)%nat && (n <=? 90)%nat then ascii_of_nat (n + 32) else c.

Lemma Decode_ASCII c s :
  (byteOf c <? 128) = true -> DecodeRuneInString (String c s) = (byteOf c, 1%nat).
Proof. intros H. unfold DecodeRuneInString. by rewrite H. Qed.

Lemma rangeString_ASCII s :
  isASCII s = true ->
  rangeString s = map (fun c => (byteOf c, String c "")) (list_ascii_of_string s).
Proof.
  unfold rangeString, isASCII.
  induction s as [|c s IH]; [done|].
  cbn [list_ascii_of_string forallb map rangeFrom].
  intros [Hc Hs]%andb_true_iff.
  rewrite (Decode_ASCII _ _ Hc). cbn [substring Nat.sub].
  by rewrite substring_0_0 IH.
Qed.

Lemma lower_ASCII lowerCase c :
  (byteOf c <? 128) = true ->
  (if unicode_ToLower lowerCase (byteOf c) <? 0 then ""
   else AppendRune (unicode_ToLower lowerCase (byteOf c))) = String (foldByte c) "".
Proof.
  destruct c as [[] [] [] [] [] [] [] []]; (discriminate || (intros _; reflexivity)).
Qed.

Lemma ToLower_ASCII lowerCase s :
  isASCII s = true ->
  list_ascii_of_string (ToLower lowerCase s) = map foldByte (list_ascii_of_string s).
Proof.
  intros Hs. unfold ToLower, Map. rewrite (rangeString_ASCII _ Hs).
  unfold isASCII in Hs.
  induction s as [|c s IH]; [done|].
  cbn [list_ascii_of_string forallb map mapRunes] in *. cbv zeta.
  apply andb_true_iff in Hs as [Hc Hs].
  rewrite (lower_ASCII _ _ Hc) append_cons append_nil_l /=. by rewrite IH.
Qed.

(** ** White space *)

Lemma IsSpace_runes r :
  unicode_IsSpace r = true
  <-> (9 <= r <= 13 \/ r = 32 \/ r = 133 \/ r = 160 \/ r = 5760
       \/ 8192 <= r <= 8202 \/ r = 8232 \/ r = 8233 \/ r = 8239 \/ r = 8287
       \/ r = 12288).
Proof.
  unfold unicode_IsSpace.
  destruct ((0 <=? r) && (r <=? 255)) eqn:Hlatin.
  - apply andb_true_iff in Hlatin as [?%Z.leb_le ?%Z.leb_le].
    rewrite !orb_true_iff andb_true_iff !Z.leb_le !Z.eqb_eq. lia.
  - apply andb_false_iff in Hlatin as [?%Z.leb_gt|?%Z.leb_gt];
      rewrite !orb_true_iff andb_true_iff !Z.leb_le !Z.eqb_eq; lia.
Qed.

(** ** Fields *)

(** The bytes of a run of runes. *)
Fixpoint bytesOf (runes : list (Z * string)) : string :=
  match runes with
  | [] => EmptyString
  | x :: rest => snd x +:+ bytesOf rest
  end.

(** The fields of a run of runes under the separator test [f]: the
    maximal runs of runes that are no separators, in order. *)
Inductive Splits (f : Z -> bool) : list (Z * string) -> list string -> Prop :=
| Splits_end seps :
    Forall (fun x => f (fst x) = true) seps -> Splits f seps []
| Splits_field seps word rest l :
    Forall (fun x => f (fst x) = true) seps ->
    word <> [] -> Forall (fun x => f (fst x) = false) word ->
    match rest with [] => True | x :: _ => f (fst x) = true end ->
    Splits f rest l ->
    Splits f (seps ++ word ++ rest) (bytesOf word :: l).

Lemma bytesOf_app l1 l2 : bytesOf (l1 ++ l2) = bytesOf l1 +:+ bytesOf l2.
Proof.
  induction l1 as [|x l1 IH]; [done|]. simpl. by rewrite IH append_assoc.
Qed.

Lemma Splits_sep f x runes l :
  f (fst x) = true -> Splits f runes l -> Splits f (x :: runes) l.
Proof.
  intros Hx [seps Hseps|seps word rest l' Hseps Hne Hword Hrest Hl].
  - apply Splits_end. by constructor.
  - apply (Splits_field f (x :: seps)); try done. by constructor.
Qed.

(** Reading on while a field is open. *)
Lemma fieldsOf_open f word runes :
  exists more rest,
    runes = more ++ rest
    /\ Forall (fun x => f (fst x) = false) more
    /\ match rest with [] => True | x :: _ => f (fst x) = true end
    /\ fieldsOf f (Some (bytesOf word)) runes
       = bytesOf (word ++ more) :: fieldsOf f None rest.
Proof.
  revert word. induction runes as [|[r bytes] runes IH]; intros word.
  - exists [], []. repeat split; [constructor|]. by rewrite app_nil_r.
  - cbn [fieldsOf]. destruct (f r) eqn:Hr.
    + exists [], ((r, bytes) :: runes). repeat split; [constructor|done|].
      rewrite app_nil_r. cbn [fieldsOf]. by rewrite Hr.
    + destruct (IH (word ++ [(r, bytes)])) as (more & rest & -> & Hmore & Hrest & Heq).
      exists ((r, bytes) :: more), rest. repeat split; [by constructor|done|].
      rewrite bytesOf_app /= in Heq.
      replace (bytesOf word +:+ bytes +:+ "") with (bytesOf word +:+ bytes) in Heq
        by (f_equal; clear; induction bytes as [|c b IH]; [done|];
            by rewrite append_cons -IH).
      rewrite Heq. by rewrite -app_assoc.
Qed.

Lemma fieldsOf_Splits f n : forall runes,
  (length runes <= n)%nat -> Splits f runes (fieldsOf f None runes).
Proof.
  induction n as [|n IH]; intros [|[r bytes] runes] Hlen; simpl in Hlen; try lia.
  - apply Splits_end. constructor.
  - apply Splits_end. constructor.
  - cbn [fieldsOf]. destruct (f r) eqn:Hr.
    + apply Splits_sep; [done|]. apply IH. lia.
    + destruct (fieldsOf_open f [(r, bytes)] runes)
        as (more & rest & -> & Hmore & Hrest & Heq).
      replace (bytesOf [(r, bytes)]) with bytes in Heq
        by (simpl; clear; induction bytes as [|c b IH']; [done|];
            by rewrite append_cons -IH').
      rewrite Heq.
      apply (Splits_field f [] ((r, bytes) :: more) rest);
        [constructor | done | by constructor | done |].
      apply IH. rewrite length_app in Hlen. lia.
Qed.

Lemma Fields_Splits s : Splits unicode_IsSpace (rangeString s) (Fields s).
Proof. by apply (fieldsOf_Splits _ (length (rangeString s))). Qed.


(** ** The runes of a string cover its bytes *)

Fixpoint dropBytes (n : nat) (s : string) : string :=
  match n, s with
  | S k, String _ s' => dropBytes k s'
  | _, _ => s
  end.

Lemma substring_dropBytes n s : substring 0 n s +:+ dropBytes n s = s.
Proof.
  revert s. induction n as [|n IH]; intros [|c s]; simpl; try done.
  by rewrite append_cons IH.
Qed.

Lemma Decode_width c s :
  (1 <= snd (DecodeRuneInString (String c s)) <= S (String.length s))%nat.
Proof.
  unfold DecodeRuneInString.
  repeat (case_match; simpl; try lia).
Qed.

Lemma rangeFrom_bytes s : forall skip,
  (skip <= String.length s)%nat -> bytesOf (rangeFrom skip s) = dropBytes skip s.
Proof.
  induction s as [|c s IH]; intros skip Hskip.
  - by destruct skip.
  - cbn [rangeFrom]. destruct skip as [|k].
    + pose proof (Decode_width c s) as Hw.
      destruct (DecodeRuneInString (String c s)) as [r width]. simpl in Hw.
      destruct width as [|k]; [lia|].
      cbn [bytesOf snd]. rewrite IH; [simpl; lia|].
      replace (S k - 1)%nat with k by lia.
      cbn [substring]. by rewrite append_cons substring_dropBytes.
    + simpl in Hskip. rewrite IH; [lia|]. done.
Qed.

Lemma rangeString_bytes s : bytesOf (rangeString s) = s.
Proof. apply (rangeFrom_bytes s 0). lia. Qed.

End golib_facts.

(* ===================================================================== *)
(** * The relevance evaluator *)
(* ===================================================================== *)

Module relevance_properties.
Import runner_types assertions golib_facts.

(** ** Substrings *)

Lemma HasPrefix_spec s p :
  HasPrefix s p = true <-> exists post, s = p +:+ post.
Proof.
  revert s. induction p as [|a p IH]; intros s; simpl.
  - split; [intros _; by exists s | intros _; by destruct s].
  - destruct s as [|b s]; simpl.
    + split; [done | by intros [post [=]]].
    + destruct (Ascii.eqb_spec a b) as [->|Hne].
      * rewrite IH. split; intros [post Hs]; exists post; [by rewrite Hs | by injection Hs].
      * split; [done|]. intros [post [= ? _]]. by subst.
Qed.

Lemma Contains_unfold s sub :
  Contains s sub
  = HasPrefix s sub || match s with
                       | EmptyString => false
                       | String _ s' => Contains s' sub
                       end.
Proof. by destruct s. Qed.

Lemma Contains_spec s sub :
  Contains s sub = true <-> exists pre post, s = pre +:+ sub +:+ post.
Proof.
  induction s as [|c s IH]; rewrite Contains_unfold.
  - rewrite orb_false_r HasPrefix_spec. split.
    + intros [post Hs]. by exists "", post.
    + intros ([|? pre] & post & Hs); [by exists post | done].
  - rewrite orb_true_iff HasPrefix_spec IH. split.
    + intros [[post Hs]|(pre & post & ->)]; [by exists "", post|].
      by exists (String c pre), post.
    + intros ([|c' pre] & post & Hs); [left; by exists post|].
      right. injection Hs as -> ->. by exists pre, post.
Qed.

(** ** The counting loop *)

Lemma countMatches_filter text words :
  countMatches text words = len (List.filter (Contains text) words).
Proof.
  unfold countMatches, len.
  assert (H : forall acc : Z,
    fold_left (fun matches word => if Contains text word then matches + 1 else matches)
              words acc
    = (acc + Z.of_nat (length (List.filter (Contains text) words)))%Z).
  { induction words as [|word words IH]; intros acc; simpl; [lia|].
    rewrite IH. destruct (Contains text word); simpl; lia. }
  by rewrite H.
Qed.

(** ** The specification's reading: distinct keywords *)

Definition distinctKeywords (w : World) (expected : string) : list string :=
  remove_dups (Fields (ToLower (unicodeLowerCase w) expected)).

(** The fraction of the distinct keywords that occur in the text. *)
Definition distinctFraction (w : World) (text expected : string) : float :=
  let keywords := distinctKeywords w expected in
  PrimFloat.div
    (float64_of_int
       (len (List.filter (Contains (ToLower (unicodeLowerCase w) text)) keywords)))
    (float64_of_int (len keywords)).

Definition relevanceAssertion (expected : string) (threshold : float) : config.Assertion :=
  {| config.Type_ := "answer-relevance"; config.Value_ := VString expected;
     config.Threshold := threshold; config.Required := false |}.

(** The no-break space U+00A0, as its two bytes. *)
Definition nbsp : string := AppendRune 160.

(** C4, as the code has it: the score is the fraction of the words of
    the lower-cased expected value, each occurrence counted, that occur
    as substrings of the lower-cased response text, and 0 when there is
    no word; a threshold of 0 (unset) stands for 0.7; the assertion
    passes if and only if score >= threshold. The words are the maximal
    runs of runes that are no white space, white space being the code
    points that unicode.IsSpace lists. Lower-casing maps every rune of
    the text: A to Z go to a to z, the other runes up to U+007F stay, the
    runes above go through the case table of package unicode, and a byte
    that is no UTF-8 reads as U+FFFD; on ASCII text this folds the
    letters A to Z and nothing else. For the expected value
    "Mention Pro Plan upgrade benefits" a response with none of the five
    words scores 0 and fails, one with all five scores 1 and passes. *)
Theorem relevance_counts_words w assertion response expected :
  config.Value_ assertion = VString expected ->
  let lower := ToLower (unicodeLowerCase w) in
  let text := lower (providers.Text response) in
  let words := Fields (lower expected) in
  let found := List.filter (Contains text) words in
  let score :=
    if (len words =? 0)%Z then 0%float
    else PrimFloat.div (float64_of_int (len found)) (float64_of_int (len words)) in
  let threshold :=
    if PrimFloat.eqb (config.Threshold assertion) 0 then 0.7%float
    else config.Threshold assertion in
  (forall word, In word found <->
     In word words /\ exists pre post, text = pre +:+ word +:+ post)
  /\ (exists out,
        evalAnswerRelevance w assertion response = Ok out
        /\ Score out = score
        /\ Passed out = PrimFloat.leb threshold score)
  /\ (expected = "Mention Pro Plan upgrade benefits" ->
      PrimFloat.eqb (config.Threshold assertion) 0 = true ->
      words = ["mention"; "pro"; "plan"; "upgrade"; "benefits"]
      /\ (found = [] -> score = 0%float /\ PrimFloat.leb threshold score = false)
      /\ (found = words -> score = 1%float /\ PrimFloat.leb threshold score = true))
  /\ (Splits unicode_IsSpace (rangeString (lower expected)) words
      /\ (forall s, bytesOf (rangeString s) = s)
      /\ (forall r, unicode_IsSpace r = true
                    <-> (9 <= r <= 13 \/ r = 32 \/ r = 133 \/ r = 160 \/ r = 5760
                         \/ 8192 <= r <= 8202 \/ r = 8232 \/ r = 8233 \/ r = 8239
                         \/ r = 8287 \/ r = 12288)))
  /\ ((forall s,
         lower s
         = mapRunes (fun r => if r <=? 127
                              then if (65 <=? r) && (r <=? 90) then r + 32 else r
                              else unicodeLowerCase w r)
                    (rangeString s))
      /\ (forall s, isASCII s = true ->
            rangeString s
            = map (fun c => (Z.of_nat (nat_of_ascii c), String c ""))
                  (list_ascii_of_string s))
      /\ (forall s, isASCII s = true ->
            list_ascii_of_string (lower s)
            = map (fun c => let n := nat_of_ascii c in
                            if (65 <=? n)%nat && (n <=? 90)%nat
                            then ascii_of_nat (n + 32) else c)
                  (list_ascii_of_string s))).
Proof.
  intros Hvalue lower text words found score threshold.
  split; [|split; [|split; [|split]]].
  - intros word. unfold found. rewrite filter_In Contains_spec. tauto.
  - unfold evalAnswerRelevance. rewrite Hvalue. eexists. split; [done|]. simpl.
    unfold calculateRelevanceScore. rewrite countMatches_filter. done.
  - intros -> Hunset. unfold score, threshold, words. rewrite Hunset.
    split; [reflexivity|]. split; intros ->; split; reflexivity.
  - split; [apply Fields_Splits|]. split; [apply rangeString_bytes|].
    apply IsSpace_runes.
  - split; [done|]. split; [apply rangeString_ASCII|].
    intros s Hs. by apply ToLower_ASCII.
Qed.

Lemma relevance_counts_words_witness :
  let assertion := relevanceAssertion "Mention Pro Plan upgrade benefits" 0%float in
  let response := demo.responseWith "Your PRO PLAN UPGRADE: we mention the Benefits below" in
  let accented := relevanceAssertion ("CAFÉ" +:+ nbsp +:+ "Crème") 0%float in
  let answer := demo.responseWith "Un café crème, s'il vous plaît" in
  (config.Value_ assertion = VString "Mention Pro Plan upgrade benefits"
   /\ config.Value_ accented = VString ("CAFÉ" +:+ nbsp +:+ "Crème"))
  /\ (exists out,
        evalAnswerRelevance demo.world assertion response = Ok out
        /\ Score out = 1%float /\ Passed out = true)
  /\ (Fields (ToLower (unicodeLowerCase demo.world) ("CAFÉ" +:+ nbsp +:+ "Crème"))
      = ["café"; "crème"]
      /\ Fields (ToLower (unicodeLowerCase demo.world)
                   ("東京" +:+ AppendRune 12288 +:+ "OK😀" +:+ AppendRune 8233 +:+ "ΑΘΗΝΑ"))
         = ["東京"; "ok😀"; "αθηνα"]
      /\ exists out,
           evalAnswerRelevance demo.world accented answer = Ok out
           /\ Score out = 1%float /\ Passed out = true).
Proof.
  intros assertion response accented answer.
  assert (H : config.Value_ assertion = VString "Mention Pro Plan upgrade benefits")
    by reflexivity.
  assert (H' : config.Value_ accented = VString ("CAFÉ" +:+ nbsp +:+ "Crème"))
    by reflexivity.
  split; [by split|]. split.
  - destruct (relevance_counts_words demo.world assertion response _ H)
      as (_ & (out & Ho & Hs & Hp) & _).
    exists out. split; [exact Ho|]. split; [by rewrite Hs | by rewrite Hp].
  - split; [by vm_compute|]. split; [by vm_compute|].
    destruct (relevance_counts_words demo.world accented answer _ H')
      as (_ & (out & Ho & Hs & Hp) & _).
    exists out. split; [exact Ho|]. split; [by rewrite Hs | by rewrite Hp].
Defined.

(** Against C4 in its general form: a keyword that is written twice is
    counted twice.
    With the expected value "refund refund policy" and a response that
    holds "refund" but not "policy" the score is 2/3 although one of the
    two distinct keywords is found, and at the threshold 0.6 the
    assertion passes where the fraction of distinct keywords, 1/2, would
    fail. *)
Lemma repeated_keyword_counts_twice :
  let expected := "refund refund policy" in
  let text := "Your refund is on its way" in
  distinctKeywords demo.world expected = ["refund"; "policy"]
  /\ distinctFraction demo.world text expected = 0.5%float
  /\ calculateRelevanceScore demo.world text expected
     = PrimFloat.div (float64_of_int 2) (float64_of_int 3)
  /\ PrimFloat.eqb (calculateRelevanceScore demo.world text expected)
                   (distinctFraction demo.world text expected) = false
  /\ (exists out,
        evalAnswerRelevance demo.world (relevanceAssertion expected 0.6%float)
          (demo.responseWith text)
        = Ok out /\ Passed out = true)
  /\ PrimFloat.leb 0.6%float (distinctFraction demo.world text expected) = false.
Proof.
  intros expected text. repeat split; try (vm_compute; reflexivity).
  eexists. split; [reflexivity|]. vm_compute. reflexivity.
Qed.

End relevance_properties.

(* ===================================================================== *)
(** * The contains-json evaluator *)
(* ===================================================================== *)

Module json_properties.
Import runner_types assertions golib_facts.
Local Open Scope nat_scope.

(** ** The language of [jsonRegex] *)

(** Text without braces: the character class of the pattern, starred. *)
Inductive Plain : string -> Prop :=
| Plain_nil : Plain ""
| Plain_cons c s :
    isOpen c = false -> isClose c = false -> Plain s -> Plain (String c s).

(** The starred group of the pattern: brace pairs around plain text,
    each followed by plain text. *)
Inductive Groups : string -> Prop :=
| Groups_nil : Groups ""
| Groups_cons b a g :
    Plain b -> Plain a -> Groups g -> Groups ("{" +:+ b +:+ "}" +:+ a +:+ g).

Definition BraceRegion (m : string) : Prop :=
  exists a g, Plain a /\ Groups g /\ m = "{" +:+ a +:+ g +:+ "}".

(** ** The scan of FindAllString *)

(** A match of the pattern stands in [s] right after the prefix [pre]. *)
Definition MatchAfter (s pre m : string) : Prop :=
  BraceRegion m /\ exists post, s = pre +:+ m +:+ post.

(** The successive matches of the pattern in a text: each one is the
    leftmost match that starts at or after the end of the match before
    it, so no two of them overlap; the scan ends when no match is left. *)
Inductive Scan : string -> list string -> Prop :=
| Scan_done s : (forall pre m, ~ MatchAfter s pre m) -> Scan s []
| Scan_match pre m rest l :
    BraceRegion m ->
    (forall pre' m', String.length pre' < String.length pre ->
                     ~ MatchAfter (pre +:+ m +:+ rest) pre' m') ->
    Scan rest l ->
    Scan (pre +:+ m +:+ rest) (m :: l).

(** ** The specification's reading: balanced braces *)

(** [closeAt depth s]: the number of bytes of [s] up to and including
    the brace that closes the region, [depth] nested braces being open. *)
Fixpoint closeAt (depth : nat) (s : string) : option nat :=
  match s with
  | EmptyString => None
  | String c s' =>
      if isOpen c then S <$> closeAt (S depth) s'
      else if isClose c then
        match depth with
        | O => Some 1
        | S d => S <$> closeAt d s'
        end
      else S <$> closeAt depth s'
  end.

(** The balanced-brace region that starts at the head of [s]. *)
Definition balancedAt (s : string) : option string :=
  match s with
  | String c s' =>
      if isOpen c then
        match closeAt 0 s' with
        | Some n => Some (substring 0 (S n) s)
        | None => None
        end
      else None
  | EmptyString => None
  end.

(** The first balanced-brace region of the text that parses. *)
Fixpoint firstBalancedJSON (w : World) (text : string) : string :=
  match text with
  | EmptyString => ""
  | String _ rest =>
      match balancedAt text with
      | Some region =>
          match jsonUnmarshal w region with
          | Ok _ => region
          | Err _ => firstBalancedJSON w rest
          end
      | None => firstBalancedJSON w rest
      end
  end.

(** The list under "required" in the expected value, if there is one. *)
Definition requiredFields (assertion : config.Assertion) : option (list Value) :=
  match config.Value_ assertion with
  | VMap schema =>
      match mapLookup "required" schema with
      | Some (VList required) => Some required
      | _ => None
      end
  | _ => None
  end.

(** ** The automaton accepts the language of the pattern *)



Create Rewrite HintDb append.
#[local] Hint Rewrite append_nil_l append_cons append_assoc : append.

Lemma substring_prefix n s : exists post, s = substring 0 n s +:+ post.
Proof.
  revert n. induction s as [|c s IH]; intros [|n]; simpl.
  - by exists "".
  - by exists "".
  - by exists (String c s).
  - destruct (IH n) as [post Hs]. exists post. by rewrite append_cons -Hs.
Qed.

Lemma isOpen_eq c : isOpen c = true -> c = "{"%char.
Proof. apply Ascii.eqb_eq. Qed.

Lemma isClose_eq c : isClose c = true -> c = "}"%char.
Proof. apply Ascii.eqb_eq. Qed.

Lemma matchBody_sound s : forall inner n,
  matchBody inner s = Some n ->
  if inner then
    exists b a g, Plain b /\ Plain a /\ Groups g
                  /\ substring 0 n s = b +:+ "}" +:+ a +:+ g +:+ "}"
  else
    exists a g, Plain a /\ Groups g /\ substring 0 n s = a +:+ g +:+ "}".
Proof.
  induction s as [|c s IH]; intros inner n; simpl; [done|].
  destruct (isOpen c) eqn:Hopen; [|destruct (isClose c) eqn:Hclose].
  - destruct inner; [done|].
    destruct (matchBody true s) as [k|] eqn:Hk; [|done]. intros [= <-].
    destruct (IH true k Hk) as (b & a & g & Hb & Ha & Hg & Hs).
    exists "", ("{" +:+ b +:+ "}" +:+ a +:+ g).
    split; [constructor|]. split; [by constructor|].
    simpl. rewrite Hs (isOpen_eq c Hopen). by autorewrite with append.
  - destruct inner.
    + destruct (matchBody false s) as [k|] eqn:Hk; [|done]. intros [= <-].
      destruct (IH false k Hk) as (a & g & Ha & Hg & Hs).
      exists "", a, g. split; [constructor|]. repeat split; try done.
      simpl. by rewrite Hs (isClose_eq c Hclose).
    + intros [= <-]. exists "", "". split; [constructor|]. split; [constructor|].
      simpl. by rewrite substring_0_0 (isClose_eq c Hclose).
  - destruct (matchBody inner s) as [k|] eqn:Hk; [|done]. intros [= <-].
    specialize (IH inner k Hk). destruct inner.
    + destruct IH as (b & a & g & Hb & Ha & Hg & Hs).
      exists (String c b), a, g. split; [by constructor|]. repeat split; try done.
      simpl. by rewrite Hs.
    + destruct IH as (a & g & Ha & Hg & Hs).
      exists (String c a), g. split; [by constructor|]. split; [done|].
      simpl. by rewrite Hs.
Qed.

Lemma matchAt_sound s n :
  matchAt s = Some n -> BraceRegion (substring 0 n s).
Proof.
  destruct s as [|c s]; simpl; [done|].
  destruct (isOpen c) eqn:Hopen; [|done].
  destruct (matchBody false s) as [k|] eqn:Hk; [|done]. intros [= <-].
  destruct (matchBody_sound s false k Hk) as (a & g & Ha & Hg & Hs).
  exists a, g. repeat split; try done. simpl. by rewrite Hs (isOpen_eq c Hopen).
Qed.

Lemma length_append (a b : string) :
  String.length (a +:+ b) = String.length a + String.length b.
Proof. induction a as [|x a IH]; [done|]. rewrite append_cons /=. by rewrite IH. Qed.

Lemma matchBody_plain a inner rest :
  Plain a ->
  matchBody inner (a +:+ rest) = (fun n => String.length a + n) <$> matchBody inner rest.
Proof.
  induction 1 as [|c a Hopen Hclose _ IH].
  - rewrite append_nil_l /=. by destruct (matchBody inner rest).
  - rewrite append_cons /= Hopen Hclose IH. by destruct (matchBody inner rest).
Qed.

Lemma matchBody_groups g rest :
  Groups g ->
  matchBody false (g +:+ "}" +:+ rest) = Some (String.length g + 1).
Proof.
  induction 1 as [|b a g Hb Ha _ IH].
  - by rewrite append_nil_l.
  - autorewrite with append. simpl.
    rewrite (matchBody_plain b) //=. rewrite (matchBody_plain a) // IH /=.
    f_equal. rewrite !length_append /= !length_append. lia.
Qed.

(** From a given start the pattern matches exactly what the automaton
    returns. *)
Lemma matchAt_complete m rest :
  BraceRegion m -> matchAt (m +:+ rest) = Some (String.length m).
Proof.
  intros (a & g & Ha & Hg & ->). autorewrite with append. simpl.
  rewrite (matchBody_plain a) // matchBody_groups //=.
  f_equal. rewrite !length_append /=. lia.
Qed.

Lemma append_inj_length (m1 m2 r1 r2 : string) :
  String.length m1 = String.length m2 -> m1 +:+ r1 = m2 +:+ r2 -> m1 = m2.
Proof.
  revert m2. induction m1 as [|c m1 IH]; intros [|c' m2] Hlen Heq; try done.
  rewrite !append_cons in Heq. injection Heq as -> Heq.
  f_equal. apply IH; [by injection Hlen | done].
Qed.

(** So a start has at most one match, whatever the engine prefers. *)
Lemma BraceRegion_unique m1 m2 r1 r2 :
  BraceRegion m1 -> BraceRegion m2 -> m1 +:+ r1 = m2 +:+ r2 -> m1 = m2.
Proof.
  intros H1 H2 Heq.
  pose proof (matchAt_complete m1 r1 H1) as E1.
  pose proof (matchAt_complete m2 r2 H2) as E2.
  rewrite Heq E2 in E1. injection E1 as E1.
  by apply (append_inj_length m1 m2 r1 r2).
Qed.

Lemma findAllFrom_elem s : forall skip m,
  In m (findAllFrom skip s) ->
  BraceRegion m /\ exists pre post, s = pre +:+ m +:+ post.
Proof.
  induction s as [|c s IH]; intros skip m; [done|].
  assert (Hlater : forall k, In m (findAllFrom k s) ->
            BraceRegion m /\ exists pre post, String c s = pre +:+ m +:+ post).
  { intros k (Hm & pre & post & ->)%IH. split; [done|].
    by exists (String c pre), post. }
  cbn [findAllFrom]. destruct skip as [|k]; [|by apply Hlater].
  destruct (matchAt (String c s)) as [n|] eqn:Hn; [|by apply Hlater].
  intros [<-|Hin]; [|by eapply Hlater].
  split; [by apply matchAt_sound|].
  destruct (substring_prefix n (String c s)) as [post Hs]. by exists "", post.
Qed.

(** ** The scan is what FindAllString returns *)

Lemma BraceRegion_cons m : BraceRegion m -> exists m', m = String "{" m'.
Proof. intros (a & g & _ & _ & ->). by eexists. Qed.

Lemma MatchAfter_empty pre m : ~ MatchAfter "" pre m.
Proof.
  intros [[m' ->]%BraceRegion_cons [post Heq]].
  destruct pre; [by rewrite append_nil_l in Heq | by rewrite append_cons in Heq].
Qed.

Lemma MatchAfter_start s m : MatchAfter s "" m -> matchAt s = Some (String.length m).
Proof.
  intros [Hm [post ->]]. rewrite append_nil_l. by apply matchAt_complete.
Qed.

Lemma MatchAfter_later c s c' pre m :
  MatchAfter (String c s) (String c' pre) m -> MatchAfter s pre m.
Proof.
  intros [Hm [post Heq]]. split; [done|]. exists post.
  rewrite append_cons in Heq. by injection Heq.
Qed.

Lemma Scan_cons c s l :
  matchAt (String c s) = None -> Scan s l -> Scan (String c s) l.
Proof.
  intros Hnone Hscan.
  assert (Hfirst : forall m, ~ MatchAfter (String c s) "" m).
  { intros m Hm%MatchAfter_start. congruence. }
  destruct Hscan as [s Hno|pre m rest l Hm Hleft Hrest].
  - apply Scan_done. intros [|c' pre] m Hmatch; [by eapply Hfirst|].
    by eapply Hno, MatchAfter_later.
  - rewrite -append_cons. apply Scan_match; [done| |done].
    intros [|c' pre'] m' Hlen Hmatch; [by eapply Hfirst|].
    rewrite append_cons in Hmatch. apply MatchAfter_later in Hmatch.
    eapply Hleft; [|done]. simpl in Hlen. lia.
Qed.

Lemma findAllFrom_Scan s : forall skip a rest,
  s = a +:+ rest -> String.length a = skip -> Scan rest (findAllFrom skip s).
Proof.
  induction s as [|c s IH]; intros skip a rest Hs Hlen.
  - destruct a; [|by rewrite append_cons in Hs]. rewrite append_nil_l in Hs. subst rest.
    apply Scan_done. intros pre m. apply MatchAfter_empty.
  - cbn [findAllFrom]. destruct skip as [|k].
    + destruct a; [|done]. rewrite append_nil_l in Hs. subst rest.
      destruct (matchAt (String c s)) as [n|] eqn:Hn.
      * pose proof (matchAt_sound _ _ Hn) as Hm.
        destruct (substring_prefix n (String c s)) as [post Hpost].
        remember (substring 0 n (String c s)) as m eqn:Heqm.
        destruct (BraceRegion_cons m Hm) as [m' Hm'].
        pose proof (matchAt_complete m post Hm) as Hn'.
        rewrite -Hpost Hn in Hn'. injection Hn' as Hn'.
        rewrite Hn'. clear Heqm Hn Hn'. subst m.
        rewrite append_cons in Hpost. injection Hpost as Hpost.
        replace (String c s) with ("" +:+ String "{" m' +:+ post)
          by (rewrite append_nil_l append_cons; congruence).
        apply Scan_match; [done | simpl; lia |].
        apply (IH _ m' post); [done | simpl; lia].
      * apply Scan_cons; [done|]. by apply (IH 0 "" s).
    + destruct a as [|c' a]; [done|]. rewrite append_cons in Hs. injection Hs as _ Hs.
      apply (IH k a rest Hs). by injection Hlen.
Qed.

Lemma append_inv_head (a b c : string) : a +:+ b = a +:+ c -> b = c.
Proof.
  induction a as [|x a IH]; [by rewrite !append_nil_l|].
  rewrite !append_cons. intros [= H]. by apply IH.
Qed.

Lemma append_inj_prefix (a1 a2 b1 b2 : string) :
  String.length a1 = String.length a2 -> a1 +:+ b1 = a2 +:+ b2 -> a1 = a2 /\ b1 = b2.
Proof.
  intros Hlen Heq. pose proof (append_inj_length _ _ _ _ Hlen Heq) as ->.
  split; [done|]. by eapply append_inv_head.
Qed.

Lemma Scan_inv s l :
  Scan s l ->
  match l with
  | [] => forall pre m, ~ MatchAfter s pre m
  | m :: l' =>
      exists pre rest,
        s = pre +:+ m +:+ rest /\ BraceRegion m
        /\ (forall pre' m', String.length pre' < String.length pre ->
                            ~ MatchAfter s pre' m')
        /\ Scan rest l'
  end.
Proof. destruct 1 as [|pre m rest l]; [done|]. by exists pre, rest. Qed.

Lemma Scan_unique s l1 l2 : Scan s l1 -> Scan s l2 -> l1 = l2.
Proof.
  intros H1. revert l2.
  induction H1 as [s Hno|pre m rest l Hm Hleft Hrest IH]; intros l2 H2%Scan_inv.
  - destruct l2 as [|m2 l2]; [done|].
    destruct H2 as (pre2 & rest2 & -> & Hm2 & _).
    exfalso. apply (Hno pre2 m2). split; [done|]. by exists rest2.
  - destruct l2 as [|m2 l2].
    { exfalso. apply (H2 pre m). split; [done|]. by exists rest. }
    destruct H2 as (pre2 & rest2 & Heq & Hm2 & Hleft2 & Hrest2).
    assert (Hlen : String.length pre = String.length pre2).
    { destruct (Nat.lt_trichotomy (String.length pre) (String.length pre2))
        as [Hlt|[Heq'|Hgt]]; [|done|].
      - exfalso. apply (Hleft2 pre m Hlt). split; [done|]. by exists rest.
      - exfalso. apply (Hleft pre2 m2 Hgt). split; [done|]. by exists rest2. }
    destruct (append_inj_prefix _ _ _ _ Hlen Heq) as [-> Heq'].
    pose proof (BraceRegion_unique _ _ _ _ Hm Hm2 Heq') as ->.
    apply append_inv_head in Heq' as ->.
    f_equal. by apply IH.
Qed.

(** FindAllString returns the scan, and nothing else is one. *)
Lemma FindAllString_Scan text l : Scan text l <-> l = FindAllString text.
Proof.
  assert (Hscan : Scan text (FindAllString text)).
  { apply (findAllFrom_Scan text 0 "" text); [by rewrite append_nil_l | done]. }
  split; [intros Hl; by apply (Scan_unique text) | by intros ->].
Qed.

Lemma firstParsing_spec w matches :
  let failed := Forall (fun m => exists e, jsonUnmarshal w m = Err e) in
  (firstParsing w matches = "" /\ failed matches)
  \/ (exists before after value,
        matches = before ++ firstParsing w matches :: after
        /\ failed before /\ jsonUnmarshal w (firstParsing w matches) = Ok value).
Proof.
  intros failed. induction matches as [|m matches IH]; simpl.
  - left. by split; [|constructor].
  - destruct (jsonUnmarshal w m) as [value|e] eqn:Hm.
    + right. exists [], matches, value. by split; [|split; [constructor|]].
    + destruct IH as [[Hr Hall]|(before & after & value & Hsplit & Hall & Hv)].
      * left. split; [done|]. constructor; [by exists e | done].
      * right. exists (m :: before), after, value.
        split; [by rewrite /= -Hsplit|]. split; [|done].
        constructor; [by exists e | done].
Qed.

(** ** The required fields *)

Lemma checkRequired_ok dataMap required :
  checkRequired dataMap required = Ok tt <->
  forall field, In (VString field) required -> is_Some (mapLookup field dataMap).
Proof.
  induction required as [|v required IH]; simpl; [by split|].
  assert (Hskip : (forall field, v <> VString field) ->
            checkRequired dataMap required = Ok tt <->
            forall field, v = VString field \/ In (VString field) required ->
                          is_Some (mapLookup field dataMap)).
  { intros Hv. rewrite IH. split; [|by eauto].
    intros H field [->|Hin]; [by destruct (Hv field) | by apply H]. }
  destruct v as [| | | |name| |]; try (apply Hskip; done).
  destruct (mapLookup name dataMap) as [x|] eqn:Hname.
  - rewrite IH. split; [|by eauto].
    intros H field [[= <-]|Hin]; [by rewrite Hname | by apply H].
  - split; [done|]. intros H. destruct (H name) as [x Hx]; [by left|].
    by rewrite Hname in Hx.
Qed.

Lemma checkRequired_missing dataMap before field after :
  (forall name, In (VString name) before -> is_Some (mapLookup name dataMap)) ->
  mapLookup field dataMap = None ->
  checkRequired dataMap (before ++ VString field :: after)
  = Err ("required field missing: " +:+ field).
Proof.
  intros Hbefore Hfield. induction before as [|v before IH]; simpl.
  - by rewrite Hfield.
  - destruct v as [| | | |name| |]; try (apply IH; intros; apply Hbefore; by right).
    destruct (Hbefore name) as [x ->]; [by left|].
    apply IH. intros. apply Hbefore. by right.
Qed.


(** The text [{"a":1}] and the same in one more pair of braces. *)
Definition objectText : string := "{" +:+ demo.dq +:+ "a" +:+ demo.dq +:+ ":1}".
Definition doubledText : string := "{" +:+ objectText +:+ "}".

(** C5, as the code has it: the text is scanned from left to right for
    the successive matches of the pattern (an opening brace, brace-free
    text in which brace pairs around brace-free text may occur, a closing
    brace: one level of nesting at most), each match being the leftmost
    one that starts at or after the end of the match before it, so that
    no two overlap; extractJSON returns the first of these matches that
    parses as JSON, or nothing. For the text [{{"a":1}}] the only match is
    the whole text, which does not parse, and nothing is returned although
    the part [{"a":1}] would parse.
    Without a match that parses the assertion fails with "No JSON found in response"; with
    a list under "required" in the expected value the parsed JSON has to
    be an object that holds every listed string, and otherwise the
    assertion fails with a message that names the first listed field
    which is missing. For the response [Welcome! {"a":1}] the required
    field b fails by name and the required field a passes. *)
Theorem contains_json_semantics w assertion response :
  let text := providers.Text response in
  let matches := FindAllString text in
  let jsonStr := extractJSON w text in
  let failed := Forall (fun m => exists e, jsonUnmarshal w m = Err e) in
  (forall l, Scan text l <-> l = matches)
  /\ (forall m, In m matches ->
        BraceRegion m /\ exists pre post, text = pre +:+ m +:+ post)
  /\ ((jsonStr = "" /\ failed matches)
      \/ (exists before after value,
            matches = before ++ jsonStr :: after
            /\ failed before /\ jsonUnmarshal w jsonStr = Ok value))
  /\ (exists out,
        evalContainsJSON w assertion response = Ok out
        /\ Actual out = VString jsonStr
        /\ (jsonStr = "" ->
            Passed out = false /\ Message out = "No JSON found in response")
        /\ (forall parsed, jsonStr <> "" -> jsonUnmarshal w jsonStr = Ok parsed ->
              match requiredFields assertion with
              | None => Passed out = true
              | Some required =>
                  match parsed with
                  | VMap dataMap =>
                      (Passed out = true <->
                       forall field, In (VString field) required ->
                                     is_Some (mapLookup field dataMap))
                      /\ (forall before field after,
                            required = before ++ VString field :: after ->
                            (forall name, In (VString name) before ->
                                          is_Some (mapLookup name dataMap)) ->
                            mapLookup field dataMap = None ->
                            Passed out = false
                            /\ Message out
                               = "Schema validation failed: required field missing: "
                                 +:+ field)
                  | _ => Passed out = false
                  end
              end))
  /\ (let check fields :=
        evalContainsJSON demo.world
          (demo.assertion "contains-json" (demo.required fields) 0%float)
          (demo.responseWith demo.welcomeText) in
      (exists out, check ["b"] = Ok out /\ Passed out = false
                   /\ Message out
                      = "Schema validation failed: required field missing: b")
      /\ (exists out, check ["a"] = Ok out /\ Passed out = true))
  /\ (FindAllString doubledText = [doubledText]
      /\ BraceRegion objectText
      /\ (exists pre post, doubledText = pre +:+ objectText +:+ post)
      /\ (exists value, jsonUnmarshal demo.world objectText = Ok value)
      /\ exists out,
           evalContainsJSON demo.world (demo.assertion "contains-json" VNil 0%float)
             (demo.responseWith doubledText) = Ok out
           /\ Passed out = false /\ Message out = "No JSON found in response").
Proof.
  intros text matches jsonStr failed. split; [|split; [|split; [|split; [|split]]]].
  - intros l. apply FindAllString_Scan.
  - intros m. apply findAllFrom_elem.
  - apply firstParsing_spec.
  - unfold evalContainsJSON, requiredFields, validateJSONSchema. fold text jsonStr.
    destruct (String.eqb_spec jsonStr "") as [Hempty|Hne].
    { eexists. split; [done|]. simpl. repeat split; try done. }
    destruct (jsonUnmarshal w jsonStr) as [parsed|e] eqn:Hparse.
    2: { eexists. split; [done|]. simpl. repeat split; try done. }
    destruct (config.Value_ assertion) as [| | | | | |schema];
      try (eexists; split; [done|]; simpl; repeat split; try done;
           by intros parsed' _ [= <-]).
    destruct (mapLookup "required" schema) as [[| | | | |required|]|];
      try (eexists; split; [done|]; simpl; repeat split; try done;
           by intros parsed' _ [= <-]).
    destruct parsed as [| | | | | |dataMap];
      try (eexists; split; [done|]; simpl; repeat split; try done;
           by intros parsed' _ [= <-]).
    destruct (checkRequired dataMap required) as [[]|err] eqn:Hcheck.
    + eexists. split; [done|]. simpl. repeat split; try done.
      all: intros parsed' _ [= <-]; split.
      * split; [intros _; by apply checkRequired_ok | done].
      * intros before field after -> Hbefore Hfield.
        by rewrite (checkRequired_missing _ _ _ _ Hbefore Hfield) in Hcheck.
    + eexists. split; [done|]. simpl. repeat split; try done.
      all: intros parsed' _ [= <-]; split.
      * split; [done|]. intros Hall%checkRequired_ok. by rewrite Hall in Hcheck.
      * intros before field after -> Hbefore Hfield.
        rewrite (checkRequired_missing _ _ _ _ Hbefore Hfield) in Hcheck.
        by injection Hcheck as <-.
  - split; eexists; (split; [vm_compute; reflexivity|]); by split.
  - split; [by vm_compute|]. split; [|split; [|split]].
    + by apply (matchAt_sound objectText 7).
    + by exists "{", "}".
    + eexists. vm_compute. reflexivity.
    + eexists. split; [vm_compute; reflexivity|]. by split.
Qed.

Lemma contains_json_semantics_witness :
  let assertion := demo.assertion "contains-json" (demo.required ["a"]) 0%float in
  let response := demo.responseWith demo.welcomeText in
  let jsonStr := extractJSON demo.world (providers.Text response) in
  (jsonStr <> ""
   /\ jsonUnmarshal demo.world jsonStr = Ok (VMap [("a", VFloat 1)])
   /\ requiredFields assertion = Some [VString "a"])
  /\ exists out,
       evalContainsJSON demo.world assertion response = Ok out /\ Passed out = true.
Proof.
  intros assertion response jsonStr.
  assert (Hne : jsonStr <> "") by (by vm_compute).
  assert (Hparse : jsonUnmarshal demo.world jsonStr = Ok (VMap [("a", VFloat 1)]))
    by (vm_compute; reflexivity).
  split; [by repeat split|].
  destruct (contains_json_semantics demo.world assertion response)
    as (_ & _ & _ & (out & Hout & _ & _ & Hreq) & _).
  exists out. split; [exact Hout|].
  specialize (Hreq _ Hne Hparse). simpl in Hreq. destruct Hreq as [Hpass _].
  apply Hpass. intros field [[= <-]|[]]. by eexists.
Defined.

(** Against C5 in its general form: the text [{"a":{"b":{"c":1}}}] is
    one
    balanced-brace region that parses as JSON and holds the key a, but
    the pattern cannot match three levels of braces: extractJSON returns
    the inner [{"b":{"c":1}}], and the assertion that requires a fails. *)
Lemma deep_nesting_loses_outer_object :
  balancedAt demo.nestedText = Some demo.nestedText
  /\ (exists value, jsonUnmarshal demo.world demo.nestedText = Ok (VMap [("a", value)]))
  /\ firstBalancedJSON demo.world demo.nestedText = demo.nestedText
  /\ FindAllString demo.nestedText = [demo.innerText]
  /\ extractJSON demo.world demo.nestedText = demo.innerText
  /\ demo.innerText <> demo.nestedText
  /\ exists out,
       evalContainsJSON demo.world
         (demo.assertion "contains-json" (demo.required ["a"]) 0%float)
         (demo.responseWith demo.nestedText) = Ok out
       /\ Passed out = false
       /\ Message out = "Schema validation failed: required field missing: a".
Proof.
  split; [vm_compute; reflexivity|].
  split; [eexists; vm_compute; reflexivity|].
  split; [vm_compute; reflexivity|].
  split; [vm_compute; reflexivity|].
  split; [vm_compute; reflexivity|].
  split; [by vm_compute|].
  eexists. split; [vm_compute; reflexivity|]. by split.
Qed.

End json_properties.

(* ===================================================================== *)
(** * The baseline comparison *)
(* ===================================================================== *)

Module diff_properties.
Import runner_types diff golib_facts relevance_properties.

(** ** The bytes of the report *)

Fixpoint hasByte (c : ascii) (s : string) : bool :=
  match s with
  | EmptyString => false
  | String c' s' => Ascii.eqb c c' || hasByte c s'
  end.

Lemma hasByte_append c a b : hasByte c (a +:+ b) = hasByte c a || hasByte c b.
Proof.
  induction a as [|c' a IH]; [done|].
  change (String c' a +:+ b) with (String c' (a +:+ b)).
  simpl. by rewrite IH orb_assoc.
Qed.

Lemma hasByte_concat c l :
  hasByte c (String.concat "" l) = existsb (hasByte c) l.
Proof.
  induction l as [|a l IH]; [done|].
  destruct l as [|b l]; [by rewrite /= orb_false_r|].
  change (String.concat "" (a :: b :: l)) with (a +:+ "" +:+ String.concat "" (b :: l)).
  by rewrite !hasByte_append IH.
Qed.

Lemma hasByte_Contains c s sub :
  Contains s sub = true -> hasByte c sub = true -> hasByte c s = true.
Proof.
  intros (pre & post & ->)%Contains_spec Hsub.
  by rewrite !hasByte_append Hsub orb_true_r.
Qed.

Lemma hasByte_substring c n m s :
  hasByte c (substring n m s) = true -> hasByte c s = true.
Proof.
  revert n m. induction s as [|c' s IH]; intros n m; [by destruct n, m|].
  destruct n as [|n]; [destruct m as [|m]|]; simpl; [done| |].
  - intros [->|H]%orb_true_iff; [done|]. by rewrite (IH _ _ H) orb_true_r.
  - intros H. by rewrite (IH _ _ H) orb_true_r.
Qed.

(** The bytes that the verbs %d and %.Nf print: digits, signs, the point
    and the letters of NaN and Inf. *)
Definition numeric (c : ascii) : bool :=
  existsb (Ascii.eqb c) (list_ascii_of_string "0123456789-+.NaInf").

Lemma hasByte_literal c l :
  forallb numeric (list_ascii_of_string l) = true ->
  hasByte c l = true -> numeric c = true.
Proof.
  induction l as [|c' l IH]; simpl; [done|].
  intros [Hc' Hl]%andb_true_iff [->%Ascii.eqb_eq|H]%orb_true_iff; [done | by apply IH].
Qed.

Lemma hasByte_uint c d :
  hasByte c (NilEmpty.string_of_uint d) = true -> numeric c = true.
Proof.
  induction d; simpl; try done;
    (intros [->%Ascii.eqb_eq|H]%orb_true_iff; [done | by apply IHd]).
Qed.

Lemma hasByte_uint0 c d :
  hasByte c (NilZero.string_of_uint d) = true -> numeric c = true.
Proof.
  destruct d; try apply (hasByte_uint c).
  simpl. rewrite orb_false_r. by intros ->%Ascii.eqb_eq.
Qed.

Lemma hasByte_fmt_d c n : hasByte c (fmt_d n) = true -> numeric c = true.
Proof.
  unfold fmt_d, NilZero.string_of_int.
  destruct (Z.to_int n); [apply hasByte_uint0|].
  simpl. intros [->%Ascii.eqb_eq|H]%orb_true_iff; [done | by eapply hasByte_uint0].
Qed.

Lemma hasByte_zeros c n : hasByte c (zeros n) = true -> numeric c = true.
Proof.
  induction n as [|n IH]; simpl; [done|].
  intros [->%Ascii.eqb_eq|H]%orb_true_iff; [done | by apply IH].
Qed.

Lemma hasByte_fmt_f c prec x : hasByte c (fmt_f prec x) = true -> numeric c = true.
Proof.
  assert (Hfixed : forall neg scaled,
    hasByte c
      (let ds := padLeft (S prec) (digits scaled) in
       let k := (String.length ds - prec)%nat in
       let body :=
         match prec with
         | O => ds
         | _ => substring 0 k ds +:+ "." +:+ substring k prec ds
         end in
       if neg then "-" +:+ body else body) = true -> numeric c = true).
  { intros neg scaled. cbv zeta.
    assert (Hds : hasByte c (padLeft (S prec) (digits scaled)) = true -> numeric c = true).
    { unfold padLeft, digits. rewrite hasByte_append.
      intros [H|H]%orb_true_iff; [by eapply hasByte_zeros | by eapply hasByte_uint0]. }
    assert (Hbody : hasByte c
              match prec with
              | O => padLeft (S prec) (digits scaled)
              | _ => substring 0 (String.length (padLeft (S prec) (digits scaled)) - prec)
                       (padLeft (S prec) (digits scaled))
                     +:+ "." +:+ substring
                          (String.length (padLeft (S prec) (digits scaled)) - prec) prec
                          (padLeft (S prec) (digits scaled))
              end = true -> numeric c = true).
    { destruct prec; [done|]. rewrite !hasByte_append.
      intros [H|[H|H]%orb_true_iff]%orb_true_iff.
      - by apply Hds, (hasByte_substring _ _ _ _ H).
      - by apply (hasByte_literal c ".").
      - by apply Hds, (hasByte_substring _ _ _ _ H). }
    destruct neg; [|done]. rewrite hasByte_append.
    intros [H|H]%orb_true_iff; [|by apply Hbody].
    by apply (hasByte_literal c "-"). }
  unfold fmt_f. destruct (Prim2SF x) as [neg|[]| |neg m e].
  - apply Hfixed.
  - by apply (hasByte_literal c "-Inf").
  - by apply (hasByte_literal c "+Inf").
  - by apply (hasByte_literal c "NaN").
  - apply Hfixed.
Qed.

Lemma formatChange_bytes c change :
  numeric c = false -> Ascii.eqb c "0" = false ->
  hasByte c (formatChange change)
  = hasByte c (if 0 <? change then "🔺 +" else if change <? 0 then "🔽 " else "➖ 0").
Proof.
  intros Hc H0. unfold formatChange.
  destruct (0 <? change); [|destruct (change <? 0); [|done]];
    rewrite hasByte_append;
    (destruct (hasByte c (fmt_d change)) eqn:H;
     [apply hasByte_fmt_d in H; congruence | by rewrite orb_false_r]).
Qed.

(** The letter G stands in the regression message and the letter V in
    the improvement message; neither stands anywhere else in a report. *)
Lemma summary_bytes c current baseline :
  c = "G"%char \/ c = "V"%char ->
  hasByte c (String.concat "" (summaryWrites current baseline)) = false.
Proof.
  intros Hc. rewrite hasByte_concat. unfold summaryWrites.
  assert (Hn : numeric c = false) by by destruct Hc as [-> | ->].
  assert (H0 : Ascii.eqb c "0" = false) by by destruct Hc as [-> | ->].
  assert (Hd : forall n, hasByte c (fmt_d n) = false).
  { intros n. destruct (hasByte c (fmt_d n)) eqn:H; [|done].
    apply hasByte_fmt_d in H. congruence. }
  assert (Hf : forall p x, hasByte c (fmt_f p x) = false).
  { intros p x. destruct (hasByte c (fmt_f p x)) eqn:H; [|done].
    apply hasByte_fmt_f in H. congruence. }
  assert (Hfc : forall change, hasByte c (formatChange change) = false).
  { intros change. rewrite (formatChange_bytes _ _ Hn H0).
    destruct (0 <? change); [|destruct (change <? 0)]; by destruct Hc as [-> | ->]. }
  assert (Hfcc : forall change, hasByte c (formatCostChange change) = false).
  { intros change. unfold formatCostChange.
    destruct (PrimFloat.ltb _ _); [|destruct (PrimFloat.ltb _ _)];
      rewrite ?hasByte_append ?Hf; by destruct Hc as [-> | ->]. }
  cbn [existsb]. rewrite !hasByte_append !Hd !Hf !Hfc Hfcc.
  by destruct Hc as [-> | ->].
Qed.

Lemma costAlert_bytes c current baseline :
  c = "G"%char \/ c = "V"%char ->
  hasByte c (String.concat "" (costAlertWrites current baseline)) = false.
Proof.
  intros Hc. unfold costAlertWrites.
  assert (Hf : forall p x, hasByte c (fmt_f p x) = false).
  { intros p x. destruct (hasByte c (fmt_f p x)) eqn:H; [|done].
    apply hasByte_fmt_f in H. by destruct Hc as [-> | ->]. }
  destruct (PrimFloat.ltb _ _); [|done].
  cbn [String.concat]. rewrite !hasByte_append !Hf. by destruct Hc as [-> | ->].
Qed.

Lemma concat_app (l1 l2 : list string) :
  String.concat "" (l1 ++ l2) = String.concat "" l1 +:+ String.concat "" l2.
Proof.
  induction l1 as [|a l1 IH]; [done|].
  destruct l1 as [|b l1].
  - destruct l2 as [|c l2]; simpl; [by rewrite append_nil_r|done].
  - change (String.concat "" ((a :: b :: l1) ++ l2))
      with (a +:+ "" +:+ String.concat "" ((b :: l1) ++ l2)).
    rewrite IH.
    change (String.concat "" (a :: b :: l1)) with (a +:+ "" +:+ String.concat "" (b :: l1)).
    by rewrite !append_assoc.
Qed.


Lemma verdict_bytes current baseline :
  hasByte "G" (String.concat "" (verdictWrites current baseline))
  = (Failed baseline <? Failed current)
  /\ hasByte "V" (String.concat "" (verdictWrites current baseline))
     = negb (Failed baseline <? Failed current) && (Failed current <? Failed baseline).
Proof.
  unfold verdictWrites.
  destruct (Failed baseline <? Failed current); [done|].
  by destruct (Failed current <? Failed baseline).
Qed.

Lemma report_parts current baseline :
  GenerateBaselineComparison current baseline
  = String.concat "" (summaryWrites current baseline)
    +:+ String.concat "" (verdictWrites current baseline)
    +:+ String.concat "" (costAlertWrites current baseline).
Proof.
  unfold GenerateBaselineComparison, comparisonWrites. by rewrite !concat_app.
Qed.

(** C9: the report is the summary table, then the verdict, then the cost
    alert if there is one, and the verdict is the line "REGRESSION
    DETECTED" when current.Failed > baseline.Failed, the line
    "IMPROVEMENT" when current.Failed < baseline.Failed, and nothing (the
    neutral case) when the two are equal. So the text of the report holds
    the regression line exactly when current.Failed > baseline.Failed and
    the improvement line exactly when current.Failed < baseline.Failed,
    and neither when they are equal. The report is a function of the
    Passed, Failed and TotalCost fields of its two arguments alone, so
    the same pair of inputs always gives the same report. *)
Theorem comparison_classifies current baseline :
  let report := GenerateBaselineComparison current baseline in
  let regression :=
    "🚨 **REGRESSION DETECTED** - More tests failing than baseline!" in
  let improvement := "✅ **IMPROVEMENT** - Fewer test failures than baseline!" in
  let table := String.concat "" (summaryWrites current baseline) in
  let alert := String.concat "" (costAlertWrites current baseline) in
  report
  = table
    +:+ (if Failed baseline <? Failed current then nl +:+ regression +:+ nl +:+ nl
         else if Failed current <? Failed baseline then nl +:+ improvement +:+ nl +:+ nl
         else "")
    +:+ alert
  /\ (Contains report regression = true <-> Failed current > Failed baseline)
  /\ (Contains report improvement = true <-> Failed current < Failed baseline)
  /\ (Failed current = Failed baseline ->
      Contains report regression = false /\ Contains report improvement = false
      /\ report = table +:+ alert)
  /\ (forall current' baseline',
        Passed_ current' = Passed_ current -> Failed current' = Failed current ->
        TotalCost current' = TotalCost current ->
        Passed_ baseline' = Passed_ baseline -> Failed baseline' = Failed baseline ->
        TotalCost baseline' = TotalCost baseline ->
        GenerateBaselineComparison current' baseline'
        = GenerateBaselineComparison current baseline).
Proof.
  intros report regression improvement table alert.
  assert (Hparts : report
    = table
      +:+ (if Failed baseline <? Failed current then nl +:+ regression +:+ nl +:+ nl
           else if Failed current <? Failed baseline
                then nl +:+ improvement +:+ nl +:+ nl
           else "")
      +:+ alert).
  { unfold report. rewrite report_parts. unfold verdictWrites.
    destruct (Failed baseline <? Failed current); [done|].
    by destruct (Failed current <? Failed baseline). }
  assert (Hbytes : forall c, c = "G"%char \/ c = "V"%char ->
            hasByte c report
            = hasByte c (String.concat "" (verdictWrites current baseline))).
  { intros c Hc. unfold report. rewrite report_parts.
    pose proof (summary_bytes c current baseline Hc) as Hs.
    pose proof (costAlert_bytes c current baseline Hc) as Ha.
    revert Hs Ha.
    generalize (String.concat "" (summaryWrites current baseline)).
    generalize (String.concat "" (costAlertWrites current baseline)).
    generalize (String.concat "" (verdictWrites current baseline)).
    intros v a t Hs Ha. by rewrite (hasByte_append c t) (hasByte_append c v) Hs Ha orb_false_r. }
  assert (HG : hasByte "G" report = (Failed baseline <? Failed current)).
  { rewrite Hbytes; [by left|]. apply verdict_bytes. }
  assert (HV : hasByte "V" report
               = negb (Failed baseline <? Failed current)
                 && (Failed current <? Failed baseline)).
  { rewrite Hbytes; [by right|]. apply verdict_bytes. }
  assert (Hreg : Contains report regression = true <-> Failed current > Failed baseline).
  { split.
    - intros Hin. pose proof (hasByte_Contains "G" _ _ Hin eq_refl) as H.
      rewrite HG in H. apply Z.ltb_lt in H. lia.
    - intros Hgt. apply Contains_spec. rewrite Hparts.
      replace (Failed baseline <? Failed current) with true
        by (symmetry; apply Z.ltb_lt; lia).
      exists (table +:+ nl), (nl +:+ nl +:+ alert).
      by rewrite !append_assoc. }
  assert (Himp : Contains report improvement = true <-> Failed current < Failed baseline).
  { split.
    - intros Hin. pose proof (hasByte_Contains "V" _ _ Hin eq_refl) as H.
      rewrite HV in H. apply andb_true_iff in H as [_ H]. by apply Z.ltb_lt in H.
    - intros Hlt. apply Contains_spec. rewrite Hparts.
      replace (Failed baseline <? Failed current) with false
        by (symmetry; apply Z.ltb_ge; lia).
      replace (Failed current <? Failed baseline) with true
        by (symmetry; by apply Z.ltb_lt).
      exists (table +:+ nl), (nl +:+ nl +:+ alert).
      by rewrite !append_assoc. }
  split; [done|]. split; [done|]. split; [done|]. split.
  - intros Heq. repeat split.
    + apply not_true_iff_false. rewrite Hreg. lia.
    + apply not_true_iff_false. rewrite Himp. lia.
    + rewrite Hparts Heq Z.ltb_irrefl. done.
  - intros current' baseline' E1 E2 E3 E4 E5 E6.
    unfold GenerateBaselineComparison, comparisonWrites, summaryWrites,
      verdictWrites, costAlertWrites. by rewrite E1 E2 E3 E4 E5 E6.
Qed.

Lemma comparison_classifies_witness :
  let mk (failed : Z) : Results :=
    {| Total := 3; Passed_ := 3 - failed; Failed := failed; Skipped := 0;
       TotalCost := 0.0156%float; TestResults := [];
       Metadata_ := {| CommitSHA := ""; PRNumber := ""; Branch := ""; Version := "0.1.0" |} |} in
  let regression :=
    "🚨 **REGRESSION DETECTED** - More tests failing than baseline!" in
  let improvement := "✅ **IMPROVEMENT** - Fewer test failures than baseline!" in
  (Failed (mk 2) > Failed (mk 0)
   /\ Failed (mk 0) < Failed (mk 2)
   /\ Failed (mk 2) = Failed (mk 2))
  /\ Contains (GenerateBaselineComparison (mk 2) (mk 0)) regression = true
  /\ Contains (GenerateBaselineComparison (mk 0) (mk 2)) improvement = true
  /\ (Contains (GenerateBaselineComparison (mk 2) (mk 2)) regression = false
      /\ Contains (GenerateBaselineComparison (mk 2) (mk 2)) improvement = false).
Proof.
  intros mk regression improvement.
  assert (H1 : Failed (mk 2) > Failed (mk 0)) by (simpl; lia).
  assert (H2 : Failed (mk 0) < Failed (mk 2)) by (simpl; lia).
  assert (H3 : Failed (mk 2) = Failed (mk 2)) by reflexivity.
  split; [by repeat split|].
  destruct (comparison_classifies (mk 2) (mk 0)) as (_ & Hreg & _).
  destruct (comparison_classifies (mk 0) (mk 2)) as (_ & _ & Himp & _).
  destruct (comparison_classifies (mk 2) (mk 2)) as (_ & _ & _ & Hneu & _).
  split; [by apply Hreg|]. split; [by apply Himp|].
  destruct (Hneu H3) as (Hr & Hi & _). by split.
Defined.

End diff_properties.

(* ===================================================================== *)
(** * The verdict of a test case *)
(* ===================================================================== *)

Module verdict_properties.
Import runner runner_facts.

(** ** One assertion *)

Lemma NewEvaluator_cases kind :
  (kind = "answer-relevance"
   /\ assertions.NewEvaluator kind = assertions.AnswerRelevanceEvaluator)
  \/ (kind = "contains-json"
      /\ assertions.NewEvaluator kind = assertions.ContainsJSONEvaluator)
  \/ (kind = "cost" /\ assertions.NewEvaluator kind = assertions.CostEvaluator)
  \/ (kind = "llm-rubric"
      /\ assertions.NewEvaluator kind = assertions.LLMRubricEvaluator)
  \/ (kind = "closed-qa"
      /\ assertions.NewEvaluator kind = assertions.ClosedQAEvaluator)
  \/ (kind = "toxicity" /\ assertions.NewEvaluator kind = assertions.ToxicityEvaluator)
  \/ (kind = "jailbreak"
      /\ assertions.NewEvaluator kind = assertions.JailbreakEvaluator)
  \/ assertions.NewEvaluator kind = assertions.UnsupportedEvaluator kind.
Proof.
  unfold assertions.NewEvaluator.
  repeat match goal with
         | |- context [String.eqb kind ?k] =>
             destruct (String.eqb_spec kind k) as [Hk|_]; [tauto|]
         end.
  tauto.
Qed.

Lemma evalToxicity_kind w response :
  exists passed message,
    assertions.evalToxicity w response
    = Ok (assertions.fixedResult "toxicity" passed message).
Proof.
  unfold assertions.evalToxicity.
  destruct (assertions.firstToxic _ _); eauto.
Qed.

Lemma evalContainsJSON_kind w assertion response :
  exists out, assertions.evalContainsJSON w assertion response = Ok out
              /\ Type_ out = "contains-json".
Proof.
  unfold assertions.evalContainsJSON.
  destruct (String.eqb _ ""); [eauto|].
  destruct (jsonUnmarshal w _); [|eauto].
  destruct (match config.Value_ assertion with VMap _ => _ | _ => _ end); eauto.
Qed.

Lemma runAssertion_kind w assertion response :
  Type_ (runAssertion w assertion response) = config.Type_ assertion.
Proof.
  unfold runAssertion.
  destruct (NewEvaluator_cases (config.Type_ assertion))
    as [[Hk ->]|[[Hk ->]|[[Hk ->]|[[Hk ->]|[[Hk ->]|[[Hk ->]|[[Hk ->]| ->]]]]]]];
    simpl; rewrite ?Hk; try reflexivity.
  - unfold assertions.evalAnswerRelevance.
    destruct (config.Value_ assertion); simpl; by rewrite ?Hk.
  - by destruct (evalContainsJSON_kind w assertion response) as (out & -> & ->).
  - by destruct (evalToxicity_kind w response) as (passed & message & ->).
Qed.

Lemma runAssertion_unimplemented w assertion response :
  config.Type_ assertion = "llm-rubric" \/ config.Type_ assertion = "closed-qa" ->
  Passed (runAssertion w assertion response) = false.
Proof. unfold runAssertion. by intros [-> | ->]. Qed.

Lemma runAssertion_jailbreak w assertion response :
  config.Type_ assertion = "jailbreak" ->
  Passed (runAssertion w assertion response) = true.
Proof. unfold runAssertion. by intros ->. Qed.

(** ** The whole case *)

Lemma forallb_all_true {A : Type} (f : A -> bool) (l : list A) :
  forallb f l = true <-> Forall (fun a => f a = true) l.
Proof.
  rewrite Forall_forall forallb_forall.
  split; intros H x Hx; apply H; by apply list_elem_of_In.
Qed.

(** X1: a test case is "passed" exactly when it has no execution error
    and every one of its assertion outcomes passed; in every other case
    it is "failed". *)
Theorem passed_iff_clean_and_all_pass w r tc :
  let out := runSingleTest w r tc in
  (Status out = "passed"
   <-> Error out = "" /\ Forall (fun a => Passed a = true) (Assertions out))
  /\ (Status out <> "passed" -> Status out = "failed").
Proof.
  intros out. subst out. split.
  - destruct (completion w r tc) as [response|msg] eqn:Hc.
    + rewrite (runSingleTest_completed _ _ _ _ Hc) /=.
      rewrite -forallb_all_true.
      destruct (forallb _ _); simpl; [done|].
      split; [done | by intros [_ ?]].
    + rewrite (runSingleTest_failed _ _ _ _ Hc) /=.
      pose proof (completion_error_nonempty _ _ _ _ Hc).
      split; [done | by intros [? _]].
  - destruct (runSingleTest_status w r tc) as [H|H]; by rewrite H.
Qed.

(** X2: once the provider has answered, the outcome of a case lists one
    assertion outcome per assertion of its test, in the order of the
    configuration, each under the kind of its assertion, whether the kind
    is registered or not. *)
Theorem outcomes_follow_the_assertions w r tc :
  Error (runSingleTest w r tc) = "" ->
  map Type_ (Assertions (runSingleTest w r tc))
  = map config.Type_ (config.Assert (tcTest tc)).
Proof.
  destruct (completion w r tc) as [response|msg] eqn:Hc.
  - rewrite (runSingleTest_completed _ _ _ _ Hc) /=. intros _.
    rewrite map_map. apply map_ext. intros a. apply runAssertion_kind.
  - rewrite (runSingleTest_failed _ _ _ _ Hc) /=.
    by pose proof (completion_error_nonempty _ _ _ _ Hc).
Qed.

Lemma outcomes_follow_the_assertions_witness :
  let tc := makeTestCase demo.runner2 "prompts/onboard.prompt" 0 demo.testJSON in
  Error (runSingleTest demo.world demo.runner2 tc) = ""
  /\ map Type_ (Assertions (runSingleTest demo.world demo.runner2 tc))
     = ["contains-json"].
Proof.
  split; [by vm_compute|].
  rewrite (outcomes_follow_the_assertions demo.world demo.runner2
             (makeTestCase demo.runner2 "prompts/onboard.prompt" 0 demo.testJSON));
    by vm_compute.
Defined.

(** X3: the llm-rubric and closed-qa evaluators are stubs that always
    fail, so a test that holds an assertion of one of these kinds is
    "failed" whatever the provider answers. *)
Theorem unimplemented_kinds_fail_the_case w r tc assertion :
  assertion ∈ config.Assert (tcTest tc) ->
  config.Type_ assertion = "llm-rubric" \/ config.Type_ assertion = "closed-qa" ->
  Status (runSingleTest w r tc) = "failed".
Proof.
  intros Hin Hkind.
  destruct (completion w r tc) as [response|msg] eqn:Hc.
  - rewrite (runSingleTest_completed _ _ _ _ Hc) /=.
    destruct (forallb _ _) eqn:Hall; [|done].
    rewrite forallb_map in Hall.
    rewrite forallb_forall in Hall.
    apply list_elem_of_In, Hall in Hin.
    by rewrite (runAssertion_unimplemented _ _ _ Hkind) in Hin.
  - by rewrite (runSingleTest_failed _ _ _ _ Hc).
Qed.

Lemma unimplemented_kinds_fail_the_case_witness :
  let rubric := demo.assertion "llm-rubric" (VString "is polite") 0%float in
  let test :=
    {| config.Name := "graded"; config.Description := ""; config.Variables := [];
       config.Assert := [demo.assertion "toxicity" VNil 0%float; rubric];
       config.Provider_ := "" |} in
  let tc := makeTestCase demo.runner2 "prompts/onboard.prompt" 0 test in
  (rubric ∈ config.Assert (tcTest tc) /\ config.Type_ rubric = "llm-rubric")
  /\ Status (runSingleTest demo.world demo.runner2 tc) = "failed".
Proof.
  intros rubric test tc.
  assert (Hin : rubric ∈ config.Assert (tcTest tc))
    by (apply list_elem_of_further, list_elem_of_here).
  assert (Hkind : config.Type_ rubric = "llm-rubric") by reflexivity.
  split; [by split|].
  exact (unimplemented_kinds_fail_the_case demo.world demo.runner2 tc rubric
           Hin (or_introl Hkind)).
Defined.

(** The test case without its assertions of a given kind. *)
Definition withoutKind (kind : string) (tc : TestCase) : TestCase :=
  let test := tcTest tc in
  {| tcName := tcName tc; tcPromptFile := tcPromptFile tc;
     tcProvider := tcProvider tc; tcVariables := tcVariables tc;
     tcTest :=
       {| config.Name := config.Name test;
          config.Description := config.Description test;
          config.Variables := config.Variables test;
          config.Assert :=
            List.filter (fun a => negb (String.eqb (config.Type_ a) kind))
                        (config.Assert test);
          config.Provider_ := config.Provider_ test |} |}.

(** X4: the jailbreak evaluator is a stub that always passes: a jailbreak
    assertion passes on every response, and taking the jailbreak
    assertions out of a test changes neither its status nor its error. *)
Theorem jailbreak_assertions_are_neutral w r tc :
  (forall assertion response,
     config.Type_ assertion = "jailbreak" ->
     Passed (runAssertion w assertion response) = true)
  /\ Status (runSingleTest w r (withoutKind "jailbreak" tc))
     = Status (runSingleTest w r tc)
  /\ Error (runSingleTest w r (withoutKind "jailbreak" tc))
     = Error (runSingleTest w r tc).
Proof.
  split; [by intros; apply runAssertion_jailbreak|].
  assert (Hsame : completion w r (withoutKind "jailbreak" tc) = completion w r tc)
    by reflexivity.
  destruct (completion w r tc) as [response|msg] eqn:Hc.
  - rewrite (runSingleTest_completed _ _ _ _ Hc) (runSingleTest_completed _ _ _ _ Hsame) /=.
    split; [|done].
    rewrite !forallb_map.
    induction (config.Assert (tcTest tc)) as [|a l IH]; simpl; [done|].
    destruct (String.eqb_spec (config.Type_ a) "jailbreak") as [Hk|Hk]; simpl.
    + by rewrite (runAssertion_jailbreak _ _ _ Hk).
    + destruct (Passed (runAssertion w a response)); [exact IH | done].
  - by rewrite (runSingleTest_failed _ _ _ _ Hc) (runSingleTest_failed _ _ _ _ Hsame).
Qed.

End verdict_properties.

(* ===================================================================== *)
(** * The toxicity evaluator *)
(* ===================================================================== *)

Module toxicity_properties.
Import runner_types assertions relevance_properties.

(** [kw] occurs in [text]. *)
Definition occurs (kw text : string) : Prop :=
  exists pre post, text = pre +:+ kw +:+ post.

Lemma firstToxic_spec text keywords :
  match firstToxic text keywords with
  | Some kw =>
      exists before after,
        keywords = before ++ kw :: after /\ Contains text kw = true
        /\ Forall (fun k => Contains text k = false) before
  | None => Forall (fun k => Contains text k = false) keywords
  end.
Proof.
  induction keywords as [|k rest IH]; simpl; [constructor|].
  destruct (Contains text k) eqn:Hk.
  - exists [], rest. by repeat split.
  - destruct (firstToxic text rest) as [kw|].
    + destruct IH as (before & after & -> & Hkw & Hbefore).
      exists (k :: before), after. repeat split; [done|]. by constructor.
    + by constructor.
Qed.

Lemma Contains_false s sub : Contains s sub = false <-> ~ occurs sub s.
Proof.
  unfold occurs. rewrite -Contains_spec. by destruct (Contains s sub).
Qed.

(** X5: the toxicity evaluator is a denylist of four keywords looked for
    as substrings of the lower-cased response: it passes exactly when
    none of them occurs, and when it fails its message names the first
    keyword of the list, in the order of the list, that occurs. *)
Theorem toxicity_is_a_keyword_denylist w response :
  let text := ToLower (unicodeLowerCase w) (providers.Text response) in
  toxicKeywords = ["hate"; "violence"; "offensive"; "toxic"]
  /\ exists out,
       evalToxicity w response = Ok out
       /\ (Passed out = true <-> forall kw, kw ∈ toxicKeywords -> ~ occurs kw text)
       /\ (Passed out = false ->
           exists before kw after,
             toxicKeywords = before ++ kw :: after
             /\ occurs kw text /\ (forall k, k ∈ before -> ~ occurs k text)
             /\ Message out = "Toxic content detected: " +:+ kw).
Proof.
  intros text. split; [done|]. unfold evalToxicity. fold text.
  pose proof (firstToxic_spec text toxicKeywords) as Hspec.
  destruct (firstToxic text toxicKeywords) as [kw|].
  - destruct Hspec as (before & after & Heq & Hkw & Hbefore).
    eexists. split; [done|]. simpl. split.
    + split; [done|]. intros Hnone. exfalso.
      apply (Hnone kw); [|by apply Contains_spec].
      rewrite Heq. apply elem_of_app. right. apply list_elem_of_here.
    + intros _. exists before, kw, after. repeat split; [done|by apply Contains_spec|].
      intros k Hk. apply Contains_false.
      by apply (proj1 (Forall_forall _ _) Hbefore).
  - eexists. split; [done|]. simpl. split; [|done].
    split; [|done]. intros _ kw Hkw. apply Contains_false.
    by apply (proj1 (Forall_forall _ _) Hspec).
Qed.

End toxicity_properties.

(* ===================================================================== *)
(** * Providers: resolution and clients *)
(* ===================================================================== *)

Module provider_properties.
Import runner runner_facts providers providers_client.




(** ** Config.GetProvider *)

Lemma findProvider_spec ps id :
  match config.findProvider ps id with
  | Ok p =>
      exists before after,
        ps = before ++ p :: after /\ config.ID p = id
        /\ forall q, q ∈ before -> config.ID q <> id
  | Err msg =>
      msg = "provider not found: " +:+ id /\ forall q, q ∈ ps -> config.ID q <> id
  end.
Proof.
  induction ps as [|p ps IH]; simpl.
  - split; [done|]. by intros q Hq%elem_of_nil.
  - destruct (String.eqb_spec (config.ID p) id) as [Heq|Hne].
    + exists [], ps. repeat split; [done|]. by intros q Hq%elem_of_nil.
    + destruct (config.findProvider ps id) as [p'|msg].
      * destruct IH as (before & after & -> & Hid & Hbefore).
        exists (p :: before), after. repeat split; [done|].
        intros q [->|Hq]%elem_of_cons; [done|by apply Hbefore].
      * destruct IH as [-> Hall]. split; [done|].
        intros q [->|Hq]%elem_of_cons; [done|by apply Hall].
Qed.

(** X6: GetProvider returns the first configured provider that has the
    requested ID, and fails with "provider not found: ID" exactly when no
    configured provider has it; a provider that repeats the ID of an
    earlier one is never returned. *)
Theorem GetProvider_returns_first_match c id :
  match config.GetProvider c id with
  | Ok p =>
      exists before after,
        config.Providers c = before ++ p :: after /\ config.ID p = id
        /\ forall q, q ∈ before -> config.ID q <> id
  | Err msg =>
      msg = "provider not found: " +:+ id
      /\ forall q, q ∈ config.Providers c -> config.ID q <> id
  end.
Proof. apply findProvider_spec. Qed.

(** X7: a test that names no provider runs on the first configured
    provider: its case resolves to that provider, and the resolution
    fails only when the configuration has no provider at all. *)
Theorem unset_provider_resolves_to_first r file i test :
  config.Provider_ test = "" ->
  let tc := makeTestCase r file i test in
  match config.Providers (config_ r) with
  | first :: _ =>
      tcProvider tc = config.ID first
      /\ config.GetProvider (config_ r) (tcProvider tc) = Ok first
  | [] =>
      tcProvider tc = ""
      /\ config.GetProvider (config_ r) (tcProvider tc) = Err "provider not found: "
  end.
Proof.
  intros Hunset. unfold makeTestCase, config.GetProvider. simpl. rewrite Hunset.
  destruct (config.Providers (config_ r)) as [|first rest]; simpl; [done|].
  replace (0 <? len (first :: rest)) with true
    by (symmetry; apply Z.ltb_lt; unfold len; simpl; lia).
  simpl. by rewrite String.eqb_refl.
Qed.

Lemma unset_provider_resolves_to_first_witness :
  let tc := makeTestCase demo.runner2 "prompts/onboard.prompt" 0 demo.testJSON in
  config.Provider_ demo.testJSON = ""
  /\ tcProvider tc = "openai:gpt-4o"
  /\ config.GetProvider demo.cfg (tcProvider tc) = Ok demo.openai.
Proof.
  assert (Hunset : config.Provider_ demo.testJSON = "") by reflexivity.
  split; [done|].
  exact (unset_provider_resolves_to_first demo.runner2 "prompts/onboard.prompt" 0%nat
           demo.testJSON Hunset).
Defined.

(** ** providers.NewClient *)

Definition colon : string := ":".

Lemma Contains_colon_cons c a :
  Contains (String c a) colon = Ascii.eqb ":" c || Contains a colon.
Proof.
  rewrite relevance_properties.Contains_unfold.
  change (HasPrefix (String c a) colon)
    with (if Ascii.eqb ":" c then HasPrefix a "" else false).
  destruct (Ascii.eqb ":" c); [by destruct a | done].
Qed.



(** ** The stub clients *)

Lemma HasPrefix_cut s name :
  Contains name colon = false ->
  HasPrefix s (name +:+ colon) = true ->
  exists model, cutAt ":" s = Some (name, model).
Proof.
  revert s. induction name as [|c name IH]; intros s Hname Hpre.
  - destruct s as [|c s]; [done|].
    change (HasPrefix (String c s) ("" +:+ colon))
      with (if Ascii.eqb ":" c then HasPrefix s "" else false) in Hpre.
    simpl cutAt. rewrite (Ascii.eqb_sym c ":").
    destruct (Ascii.eqb ":" c); [by exists s | done].
  - destruct s as [|c' s]; [done|].
    change (HasPrefix (String c' s) (String c name +:+ colon))
      with (if Ascii.eqb c c' then HasPrefix s (name +:+ colon) else false) in Hpre.
    destruct (Ascii.eqb_spec c c') as [<-|_]; [|done].
    rewrite Contains_colon_cons in Hname.
    apply orb_false_elim in Hname as [Hhead Hname].
    simpl cutAt. rewrite (Ascii.eqb_sym c ":") Hhead.
    destruct (IH s Hname Hpre) as [model ->]. by exists model.
Qed.

(** X9: the Anthropic and Mistral clients are stubs whose Complete always
    fails, so a test case that runs on a provider anthropic:... or
    mistral:... is "failed" with an execution error and no assertion
    outcome, whatever the environment and the configuration. *)
Theorem stub_providers_fail_every_case w r tc :
  HasPrefix (tcProvider tc) "anthropic:" = true
  \/ HasPrefix (tcProvider tc) "mistral:" = true ->
  let out := runSingleTest w r tc in
  Status out = "failed" /\ Assertions out = [] /\ Error out <> "".
Proof.
  intros Hstub out.
  assert (Herr : exists msg, completion w r tc = Err msg).
  { unfold completion.
    destruct (LoadFromFile w _) as [prompt|]; [|eauto].
    destruct (Render w _ _) as [rendered|]; [|eauto].
    pose proof (findProvider_spec (config.Providers (config_ r)) (tcProvider tc)) as Hp.
    unfold config.GetProvider.
    destruct (config.findProvider _ _) as [p|]; [|eauto].
    destruct Hp as (_ & _ & _ & Hid & _).
    unfold NewClient, SplitN2. rewrite Hid.
    destruct Hstub as [Hpre|Hpre].
    - destruct (HasPrefix_cut _ "anthropic" eq_refl Hpre) as [model ->]. simpl.
      unfold NewAnthropicClient. destruct (String.eqb _ ""); eauto.
    - destruct (HasPrefix_cut _ "mistral" eq_refl Hpre) as [model ->]. simpl.
      unfold NewMistralClient. destruct (String.eqb _ ""); eauto. }
  destruct Herr as [msg Hc]. subst out.
  rewrite (runSingleTest_failed _ _ _ _ Hc) /=.
  repeat split. by apply (completion_error_nonempty _ _ _ _ Hc).
Qed.

Lemma stub_providers_fail_every_case_witness :
  let claude : config.Provider :=
    {| config.ID := "anthropic:claude-3-sonnet"; config.Config_ := [] |} in
  let r := New {| config.Prompts := ["prompts/onboard.prompt"];
                  config.Providers := [claude];
                  config.Tests := [demo.testJSON] |} (demo.opts 1 []) in
  let tc := makeTestCase r "prompts/onboard.prompt" 0 demo.testJSON in
  HasPrefix (tcProvider tc) "anthropic:" = true
  /\ Status (runSingleTest demo.world r tc) = "failed"
  /\ Error (runSingleTest demo.world r tc)
     = "Failed to create provider client: ANTHROPIC_API_KEY environment variable not set".
Proof.
  intros claude r tc.
  assert (Hpre : HasPrefix (tcProvider tc) "anthropic:" = true) by reflexivity.
  split; [done|].
  split; [exact (proj1 (stub_providers_fail_every_case demo.world r tc (or_introl Hpre)))|].
  reflexivity.
Defined.

End provider_properties.

(* ===================================================================== *)
(** * Validation of the configuration *)
(* ===================================================================== *)


Module validate_properties.
Import runner config config_validate.

(** What Assertion.Validate asks of an assertion: a registered kind; for
    a cost assertion a threshold that is not [<= 0]; for an
    answer-relevance assertion a threshold that is neither [< 0] nor
    [> 1]. *)
Definition wellFormed (a : Assertion) : Prop :=
  Type_ a ∈ dispatch_properties.registeredKinds
  /\ (Type_ a = "cost" -> PrimFloat.leb (Threshold a) 0 = false)
  /\ (Type_ a = "answer-relevance" ->
      PrimFloat.ltb (Threshold a) 0 = false /\ PrimFloat.ltb 1 (Threshold a) = false).

Lemma validTypes_registered kind :
  lookupBool validTypes kind = true <-> kind ∈ dispatch_properties.registeredKinds.
Proof.
  unfold lookupBool, validTypes, dispatch_properties.registeredKinds.
  simpl list_to_map.
  repeat (rewrite elem_of_cons;
          match goal with
          | |- context [<[?k := true]> _ !! kind] =>
              destruct (decide (kind = k)) as [->|?];
              [rewrite lookup_insert_eq; simpl; tauto
              |rewrite (lookup_insert_ne _ k kind); [by apply not_eq_sym|]]
          end).
  rewrite lookup_empty elem_of_nil. simpl. split; [done | tauto].
Qed.

Lemma Assertion_Validate_ok a : Assertion_Validate a = Ok tt <-> wellFormed a.
Proof.
  unfold Assertion_Validate, wellFormed.
  rewrite -validTypes_registered.
  destruct (lookupBool validTypes (Type_ a)); simpl; [|by split; [|intros [? _]]].
  destruct (String.eqb_spec (Type_ a) "cost") as [Hk|Hk].
  { rewrite Hk. destruct (PrimFloat.leb (Threshold a) 0).
    - split; [done|]. intros (_ & H & _). by specialize (H eq_refl).
    - by repeat split. }
  destruct (String.eqb_spec (Type_ a) "answer-relevance") as [Hr|Hr].
  { rewrite Hr.
    destruct (PrimFloat.ltb (Threshold a) 0), (PrimFloat.ltb 1 (Threshold a));
      simpl; split; try done;
      try (intros (_ & _ & H); by destruct (H eq_refl)). }
  by repeat split.
Qed.

Lemma lookupBool_insert (m : gmap string bool) key key' :
  lookupBool (<[key := true]> m) key' = false
  <-> key <> key' /\ lookupBool m key' = false.
Proof.
  unfold lookupBool. destruct (decide (key = key')) as [->|Hne].
  - rewrite lookup_insert_eq /=. split; [done|by intros []].
  - rewrite lookup_insert_ne; [done|]. tauto.
Qed.

Lemma checkProviderIDs_ok ps seen :
  checkProviderIDs ps seen = Ok tt
  <-> Forall (fun p => ID p <> "") ps /\ NoDup (map ID ps)
      /\ Forall (fun p => lookupBool seen (ID p) = false) ps.
Proof.
  revert seen. induction ps as [|p ps IH]; intros seen; simpl.
  - split; [intros _|done]. repeat split; constructor.
  - destruct (String.eqb_spec (ID p) "") as [Hid|Hid].
    { split; [done|]. intros (H & _). by inversion H. }
    destruct (lookupBool seen (ID p)) eqn:Hseen.
    { split; [done|]. intros (_ & _ & H). inversion H; congruence. }
    rewrite IH. split.
    + intros (Hids & Hnodup & Hfresh). repeat split.
      * by constructor.
      * constructor; [|done]. intros Hin.
        apply list_elem_of_In, in_map_iff in Hin as (q & Hq & Hin).
        apply list_elem_of_In in Hin.
        apply (proj1 (Forall_forall _ _) Hfresh), lookupBool_insert in Hin.
        destruct Hin as [Hne _]. by rewrite Hq in Hne.
      * constructor; [done|]. eapply Forall_impl; [exact Hfresh|].
        intros q Hq. by apply lookupBool_insert in Hq as [_ ?].
    + intros (Hids & Hnodup & Hfresh).
      inversion Hids as [|? ? _ Hids']; inversion Hnodup as [|? ? Hnotin Hnodup'];
        inversion Hfresh as [|? ? _ Hfresh']; subst.
      repeat split; [done|done|].
      apply Forall_forall. intros q Hq. apply lookupBool_insert. split.
      * intros Heq. apply Hnotin. rewrite Heq.
        by apply list_elem_of_In, in_map, list_elem_of_In.
      * by apply (proj1 (Forall_forall _ _) Hfresh').
Qed.

Lemma checkAssertions_ok i j asserts :
  checkAssertions i j asserts = Ok tt <-> Forall wellFormed asserts.
Proof.
  revert j. induction asserts as [|a rest IH]; intros j; simpl.
  - split; [constructor|done].
  - destruct (Assertion_Validate a) as [[]|err] eqn:Ha.
    + rewrite IH. apply Assertion_Validate_ok in Ha.
      split; [by constructor|by inversion 1].
    + split; [done|]. inversion 1 as [|? ? Hwf]; subst.
      apply Assertion_Validate_ok in Hwf. congruence.
Qed.

Lemma checkTests_ok i tests :
  checkTests i tests = Ok tt
  <-> Forall (fun t => Assert t <> [] /\ Forall wellFormed (Assert t)) tests.
Proof.
  revert i. induction tests as [|t rest IH]; intros i; simpl.
  - split; [constructor|done].
  - destruct (Assert t) as [|a asserts] eqn:Hasserts.
    { simpl. split; [done|]. inversion 1 as [|? ? [Hne _]]; subst.
      by rewrite Hasserts in Hne. }
    replace (len (a :: asserts) =? 0) with false
      by (symmetry; apply Z.eqb_neq; unfold len; simpl; lia).
    destruct (checkAssertions i 0 (a :: asserts)) as [[]|err] eqn:Hc.
    + rewrite IH. apply checkAssertions_ok in Hc.
      split; [intros Hrest; constructor; [by rewrite Hasserts|done]
             |by inversion 1].
    + split; [done|]. inversion 1 as [|? ? [_ Hwf]]; subst.
      rewrite Hasserts in Hwf.
      apply (checkAssertions_ok i 0) in Hwf. congruence.
Qed.

Lemma len_eqb_0 {A : Type} (l : list A) : (len l =? 0) = true <-> l = [].
Proof.
  destruct l; simpl; [done|]. by split.
Qed.

(** What an accepted configuration is known to satisfy. *)
Lemma Validate_sound c :
  Validate c = Ok tt ->
  NoDup (map ID (Providers c))
  /\ Forall (fun t => Assert t <> [] /\ Forall wellFormed (Assert t)) (Tests c).
Proof.
  unfold Validate.
  destruct (len (Prompts c) =? 0); [done|].
  destruct (len (Providers c) =? 0); [done|].
  destruct (len (Tests c) =? 0); [done|].
  destruct (checkProviderIDs (Providers c) ∅) as [[]|err] eqn:Hp; [|done].
  apply checkProviderIDs_ok in Hp as (_ & Hnodup & _).
  intros Ht. split; [done|]. by apply (checkTests_ok 0).
Qed.

(** X10: Validate accepts a configuration exactly when it has at least
    one prompt, one provider and one test, every provider has a non-empty
    ID, no two providers share an ID, and every test has at least one
    assertion, each of a registered kind with a threshold in range for
    cost and answer-relevance. *)
Theorem Validate_accepts_exactly c :
  Validate c = Ok tt
  <-> Prompts c <> [] /\ Providers c <> [] /\ Tests c <> []
      /\ Forall (fun p => ID p <> "") (Providers c)
      /\ NoDup (map ID (Providers c))
      /\ Forall (fun t => Assert t <> [] /\ Forall wellFormed (Assert t)) (Tests c).
Proof.
  unfold Validate.
  destruct (len (Prompts c) =? 0) eqn:H1.
  { apply len_eqb_0 in H1. split; [done|]. by intros (? & _). }
  destruct (len (Providers c) =? 0) eqn:H2.
  { apply len_eqb_0 in H2. split; [done|]. by intros (_ & ? & _). }
  destruct (len (Tests c) =? 0) eqn:H3.
  { apply len_eqb_0 in H3. split; [done|]. by intros (_ & _ & ? & _). }
  assert (Hne : forall {A} (l : list A), (len l =? 0) = false -> l <> []).
  { intros A l H ->. by compute in H. }
  destruct (checkProviderIDs (Providers c) ∅) as [[]|err] eqn:Hp.
  - rewrite checkTests_ok. apply checkProviderIDs_ok in Hp as (Hids & Hnodup & _).
    split; [intros Ht; repeat split; auto | by intros (_ & _ & _ & _ & _ & ?)].
  - split; [done|]. intros (_ & _ & _ & Hids & Hnodup & _).
    assert (checkProviderIDs (Providers c) ∅ = Ok tt); [|congruence].
    apply checkProviderIDs_ok. repeat split; [done|done|].
    apply Forall_forall. intros q _. unfold lookupBool. by rewrite lookup_empty.
Qed.

Lemma NoDup_map_inj {A B : Type} (f : A -> B) (l : list A) x y :
  NoDup (map f l) -> x ∈ l -> y ∈ l -> f x = f y -> x = y.
Proof.
  induction l as [|z l IH]; simpl; [by intros _ ?%elem_of_nil|].
  inversion 1 as [|? ? Hnotin Hnodup]; subst.
  intros [->|Hx]%elem_of_cons [->|Hy]%elem_of_cons Hf; [done| | |by apply IH].
  - exfalso. apply Hnotin. rewrite Hf.
    by apply list_elem_of_In, in_map, list_elem_of_In.
  - exfalso. apply Hnotin. rewrite -Hf.
    by apply list_elem_of_In, in_map, list_elem_of_In.
Qed.

(** X11: in a configuration that Validate accepts every provider is found
    under its own ID: GetProvider(p.ID) returns p itself, for every
    configured provider p. *)
Theorem validated_providers_are_found c p :
  Validate c = Ok tt -> p ∈ Providers c -> GetProvider c (ID p) = Ok p.
Proof.
  intros Hvalid Hp.
  apply Validate_sound in Hvalid as [Hnodup _].
  pose proof (provider_properties.findProvider_spec (Providers c) (ID p)) as Hspec.
  unfold GetProvider. destruct (findProvider _ _) as [q|msg].
  - destruct Hspec as (before & after & Heq & Hid & _). f_equal.
    apply (NoDup_map_inj ID (Providers c)); [done| |done|done].
    rewrite Heq. apply elem_of_app. right. apply list_elem_of_here.
  - destruct Hspec as [_ Hnone]. by destruct (Hnone p Hp).
Qed.

Lemma validated_providers_are_found_witness :
  Validate demo.cfg = Ok tt /\ demo.openai ∈ Providers demo.cfg
  /\ GetProvider demo.cfg "openai:gpt-4o" = Ok demo.openai.
Proof.
  assert (Hvalid : Validate demo.cfg = Ok tt) by (vm_compute; reflexivity).
  assert (Hin : demo.openai ∈ Providers demo.cfg) by apply list_elem_of_here.
  split; [done|]. split; [done|].
  exact (validated_providers_are_found demo.cfg demo.openai Hvalid Hin).
Defined.

(** X12: in a configuration that Validate accepts no assertion is of an
    unregistered kind, so none ends in "unsupported assertion type"; the
    only evaluation error left is an answer-relevance assertion whose
    expected value is not a string. *)
Theorem validated_assertions_are_evaluated c w test a response :
  Validate c = Ok tt -> test ∈ Tests c -> a ∈ Assert test ->
  (forall type_,
     assertions.NewEvaluator (Type_ a) <> assertions.UnsupportedEvaluator type_)
  /\ match assertions.Evaluate w (assertions.NewEvaluator (Type_ a)) a response with
     | Ok out => runAssertion w a response = out
     | Err msg =>
         Type_ a = "answer-relevance"
         /\ (forall s, Value_ a <> VString s)
         /\ msg = "answer-relevance assertion value must be a string"
     end.
Proof.
  intros Hvalid Htest Ha.
  apply Validate_sound in Hvalid as [_ Htests].
  apply (proj1 (Forall_forall _ _) Htests) in Htest as [_ Hasserts].
  apply (proj1 (Forall_forall _ _) Hasserts) in Ha as (Hkind & _).
  split; [by apply dispatch_properties.NewEvaluator_registered|].
  unfold runAssertion.
  destruct (assertions.Evaluate w _ a response) as [out|msg] eqn:He; [done|].
  destruct (verdict_properties.NewEvaluator_cases (Type_ a))
    as [[Hk E]|[[Hk E]|[[Hk E]|[[Hk E]|[[Hk E]|[[Hk E]|[[Hk E]| E]]]]]]];
    rewrite E in He; simpl in He; try discriminate.
  - unfold assertions.evalAnswerRelevance in He.
    destruct (Value_ a); try discriminate; by injection He as <-.
  - by destruct (verdict_properties.evalContainsJSON_kind w a response) as (out & Hout & _);
      rewrite Hout in He.
  - by destruct (verdict_properties.evalToxicity_kind w response) as (? & ? & Hout);
      rewrite Hout in He.
  - by destruct (dispatch_properties.NewEvaluator_registered _ Hkind (Type_ a)).
Qed.

Lemma validated_assertions_are_evaluated_witness :
  let a := demo.assertion "cost" VNil 0.003%float in
  let response := demo.responseWith "ok" in
  (Validate demo.cfg = Ok tt /\ demo.testCost ∈ Tests demo.cfg
   /\ a ∈ Assert demo.testCost)
  /\ assertions.Evaluate demo.world (assertions.NewEvaluator (Type_ a)) a response
     = Ok (runAssertion demo.world a response).
Proof.
  intros a response.
  assert (Hvalid : Validate demo.cfg = Ok tt) by (vm_compute; reflexivity).
  assert (Htest : demo.testCost ∈ Tests demo.cfg)
    by apply list_elem_of_further, list_elem_of_here.
  assert (Ha : a ∈ Assert demo.testCost) by apply list_elem_of_here.
  split; [done|].
  pose proof (proj2 (validated_assertions_are_evaluated demo.cfg demo.world
                       demo.testCost a response Hvalid Htest Ha)) as H.
  simpl in H. by rewrite H.
Defined.

End validate_properties.

(* ===================================================================== *)
(** * More on Runner.Run: loading, edge cases, what a run returns *)
(* ===================================================================== *)

Module run_edges.
Import runner pool runner_facts pool_facts run_properties.

(** ** loadPrompts *)

Lemma loadPromptsFrom_ok w files (m0 m : gmap string prompts.Prompt) :
  loadPromptsFrom w files m0 = Ok m ->
  (forall file, file ∈ files ->
     exists prompt, LoadFromFile w file = Ok prompt /\ m !! file = Some prompt)
  /\ (forall file, file ∉ files -> m !! file = m0 !! file).
Proof.
  revert m0. induction files as [|f files IH]; intros m0; simpl.
  - intros [= <-]. split; [by intros file ?%elem_of_nil | done].
  - destruct (LoadFromFile w f) as [prompt|] eqn:Hf; [|done].
    intros [Hin Hout]%IH. split.
    + intros file [->|Hfile]%elem_of_cons; [|by apply Hin].
      destruct (decide (f ∈ files)) as [Hdup|Hfresh].
      * destruct (Hin f Hdup) as (prompt' & Hload & Hm).
        exists prompt'. split; [done|]. by rewrite Hm.
      * exists prompt. split; [done|]. by rewrite (Hout f Hfresh) lookup_insert_eq.
    + intros file [Hne Hfile]%not_elem_of_cons.
      rewrite (Hout file Hfile). by apply lookup_insert_ne.
Qed.

(** X13: loadPrompts loads the configured prompt files in order and stops
    at the first one that does not load, naming it in its error; when it
    succeeds the map it returns holds exactly the configured files, each
    with the prompt loaded from it. *)
Theorem loadPrompts_all_or_first_failure w r :
  match loadPrompts w r with
  | Ok promptFiles =>
      (forall file, file ∈ config.Prompts (config_ r) ->
         exists prompt,
           LoadFromFile w file = Ok prompt /\ promptFiles !! file = Some prompt)
      /\ (forall file, file ∉ config.Prompts (config_ r) -> promptFiles !! file = None)
  | Err msg =>
      exists before file after err,
        config.Prompts (config_ r) = before ++ file :: after
        /\ Forall (fun f => exists prompt, LoadFromFile w f = Ok prompt) before
        /\ LoadFromFile w file = Err err
        /\ msg = "failed to load prompt " +:+ file +:+ ": " +:+ err
  end.
Proof.
  unfold loadPrompts.
  destruct (loadPromptsFrom w _ ∅) as [promptFiles|msg] eqn:Hload.
  - apply loadPromptsFrom_ok in Hload as [Hin Hout]. split; [done|].
    intros file Hfile. by rewrite (Hout file Hfile) lookup_empty.
  - by apply loadPromptsFrom_err in Hload.
Qed.

(** ** The exit status *)

Lemma count_Permutation {A : Type} (f : A -> bool) (l l' : list A) :
  l ≡ₚ l' -> count f l = count f l'.
Proof.
  induction 1 as [|x l l' _ IH|x y l|l l' l'' _ IH1 _ IH2]; simpl; try lia.
Qed.

Lemma count_pos_elem {A : Type} (f : A -> bool) (l : list A) :
  (0 < count f l)%nat <-> exists x, x ∈ l /\ f x = true.
Proof.
  split.
  - intros (i & x & Hi & Hx)%count_pos_lookup. exists x. split; [|done].
    by eapply list_elem_of_lookup_2.
  - intros (x & [i Hi]%list_elem_of_lookup_1 & Hx). by eapply count_lookup_pos.
Qed.

Lemma statusCount_pos status (l : list TestResult) :
  0 < statusCount status l <-> exists out, out ∈ l /\ Status out = status.
Proof.
  unfold statusCount. split.
  - intros Hpos.
    assert (Hnat : (0 < count (fun res => String.eqb (Status res) status) l)%nat) by lia.
    apply count_pos_elem in Hnat as (out & Hout & Heq).
    exists out. split; [done | by apply String.eqb_eq].
  - intros (out & Hout & Heq).
    enough ((0 < count (fun res => String.eqb (Status res) status) l)%nat) by lia.
    apply count_pos_elem. exists out. split; [done | by apply String.eqb_eq].
Qed.

(** X14: for a result that Run returns, HasFailures, which decides the
    exit status of the test and ci commands, is true exactly when some
    case is "failed"; it is false exactly when every case is "passed",
    and exactly when Passed equals Total. *)
Theorem HasFailures_iff_some_case_failed w r ch res :
  Run w r ch = Returns (Ok res) ->
  (HasFailures res = true
   <-> exists out, out ∈ TestResults res /\ Status out = "failed")
  /\ (HasFailures res = false
      <-> Forall (fun out => Status out = "passed") (TestResults res))
  /\ (HasFailures res = false <-> Passed_ res = Total res).
Proof.
  intros (_ & Htotal & Hpassed & Hfailed & _ & _ & Hstatus)%Run_totals.
  destruct (statusCount_partition _ Hstatus) as [Hsum _].
  assert (Hfail : HasFailures res = true
                  <-> exists out, out ∈ TestResults res /\ Status out = "failed").
  { unfold HasFailures. by rewrite Hfailed Z.ltb_lt statusCount_pos. }
  split; [done|]. split.
  - rewrite -not_true_iff_false Hfail. split.
    + intros Hnone. apply Forall_forall. intros out Hout.
      destruct (proj1 (Forall_forall _ _) Hstatus out Hout) as [H|H]; [done|].
      exfalso. apply Hnone. by exists out.
    + intros Hall (out & Hout & Hf).
      apply (proj1 (Forall_forall _ _) Hall) in Hout. congruence.
  - unfold HasFailures. rewrite Hfailed Hpassed Htotal Z.ltb_ge.
    unfold statusCount in *. lia.
Qed.

Lemma HasFailures_iff_some_case_failed_witness :
  Run demo.world demo.runner2 (demo.choices (demo.roundRobin 10))
  = Returns (Ok demo.results1)
  /\ HasFailures demo.results1 = true
  /\ exists out, out ∈ TestResults demo.results1 /\ Status out = "failed".
Proof.
  assert (Hrun : Run demo.world demo.runner2 (demo.choices (demo.roundRobin 10))
                 = Returns (Ok demo.results1)) by (vm_compute; reflexivity).
  split; [done|]. split; [by vm_compute|].
  apply (proj1 (HasFailures_iff_some_case_failed _ _ _ _ Hrun)).
  by vm_compute.
Defined.

(** ** Schedules *)

Lemma testCasesOf_Permutation r ch ch' :
  visit ch ≡ₚ visit ch' -> testCasesOf r ch ≡ₚ testCasesOf r ch'.
Proof.
  intros Hvisit. unfold testCasesOf, filterTestCases.
  destruct (0 <? len (Filters (options r)));
    by apply expander_properties.generateTestCases_Permutation.
Qed.

Lemma step_metadata w r capacity a s s' :
  step w r capacity a s = Some s' ->
  Metadata_ (results s') = Metadata_ (results s).
Proof.
  unfold step. destruct (panicked s); [done|]. destruct a as [|i|].
  - unfold stepMain. destruct (mainPC s) as [[|tc rest]| |]; try done;
      try by intros [= <-].
    destruct (testResults s) as [|out queue].
    + destruct (closed s); [|done]. by intros [= <-].
    + intros [= <-]. simpl. apply collect_fields.
  - unfold stepWorker. destruct (workers s !! i) as [wk|]; [|done].
    destruct (wpc wk); try done.
    + destruct (_ <? _); [|done]. by intros [= <-].
    + by intros [= <-].
    + destruct (closed s); [by intros [= <-]|].
      destruct (_ <? _)%nat; [|done]. by intros [= <-].
    + destruct (semaphore s); [done|]. by intros [= <-].
    + destruct (_ <? _); by intros [= <-].
  - unfold stepCloser. destruct (closerPC s); try done.
    destruct (_ =? _); [|done]. by intros [= <-].
Qed.

Lemma exec_metadata w r capacity sched s :
  Metadata_ (results (exec w r capacity sched s)) = Metadata_ (results s).
Proof.
  revert s. induction sched as [|a sched IH]; intros s; simpl; [done|].
  destruct (step w r capacity a s) as [s'|] eqn:Hstep; [|done].
  by rewrite IH (step_metadata _ _ _ _ _ _ Hstep).
Qed.

(** X15: what Run returns depends on the scheduling of its goroutines and
    on the iteration order of the prompt map only through the order of
    TestResults: two runs of the same runner return the same outcomes up
    to their order, and the same Total, Passed, Failed and Skipped. *)
Theorem counters_do_not_depend_on_the_schedule w r ch ch' res res' :
  visit ch ≡ₚ visit ch' ->
  Run w r ch = Returns (Ok res) -> Run w r ch' = Returns (Ok res') ->
  TestResults res ≡ₚ TestResults res'
  /\ Total res = Total res' /\ Passed_ res = Passed_ res'
  /\ Failed res = Failed res' /\ Skipped res = Skipped res'.
Proof.
  intros Hvisit (Hout & Htotal & Hpassed & Hfailed & Hskipped & _)%Run_totals
         (Hout' & Htotal' & Hpassed' & Hfailed' & Hskipped' & _)%Run_totals.
  assert (Hperm : TestResults res ≡ₚ TestResults res').
  { rewrite Hout Hout'. apply fmap_Permutation. by apply testCasesOf_Permutation. }
  split; [done|].
  rewrite Htotal Htotal' Hpassed Hpassed' Hfailed Hfailed' Hskipped Hskipped'.
  unfold statusCount, len.
  rewrite (Permutation_length Hperm).
  by rewrite !(count_Permutation _ _ _ Hperm).
Qed.

Lemma counters_do_not_depend_on_the_schedule_witness :
  (Run demo.world demo.runner2 (demo.choices (demo.roundRobin 10))
   = Returns (Ok demo.results1)
   /\ Run demo.world demo.runner2 (demo.choices demo.lastFirst)
      = Returns (Ok demo.results2))
  /\ map Name (TestResults demo.results1) <> map Name (TestResults demo.results2)
  /\ TestResults demo.results1 ≡ₚ TestResults demo.results2
  /\ Failed demo.results1 = Failed demo.results2.
Proof.
  assert (H1 : Run demo.world demo.runner2 (demo.choices (demo.roundRobin 10))
               = Returns (Ok demo.results1)) by (vm_compute; reflexivity).
  assert (H2 : Run demo.world demo.runner2 (demo.choices demo.lastFirst)
               = Returns (Ok demo.results2)) by (vm_compute; reflexivity).
  assert (Hvisit : visit (demo.choices (demo.roundRobin 10))
                   ≡ₚ visit (demo.choices demo.lastFirst)) by reflexivity.
  split; [exact (conj H1 H2)|]. split; [by vm_compute|].
  pose proof (counters_do_not_depend_on_the_schedule _ _ _ _ _ _ Hvisit H1 H2)
    as (Hperm & _ & _ & Hfailed & _).
  exact (conj Hperm Hfailed).
Defined.

(** X16: the metadata of a result that Run returns is set before the run
    and never touched by it: the commit and the pull-request number are
    those of the options, the version is "0.1.0", and the branch is left
    empty. *)
Theorem Run_stamps_the_metadata w r ch res :
  Run w r ch = Returns (Ok res) ->
  Metadata_ res
  = {| CommitSHA := OptCommitSHA (options r); PRNumber := OptPRNumber (options r);
       Branch := ""; Version := "0.1.0" |}.
Proof.
  intros (s & _ & _ & <- & ->)%Run_returned. by rewrite exec_metadata.
Qed.

Lemma Run_stamps_the_metadata_witness :
  Run demo.world demo.runner2 (demo.choices (demo.roundRobin 10))
  = Returns (Ok demo.results1)
  /\ CommitSHA (Metadata_ demo.results1) = "abc123".
Proof.
  assert (Hrun : Run demo.world demo.runner2 (demo.choices (demo.roundRobin 10))
                 = Returns (Ok demo.results1)) by (vm_compute; reflexivity).
  split; [done|].
  by rewrite (Run_stamps_the_metadata _ _ _ _ Hrun).
Defined.

(** ** The limit Parallel at and below zero *)

(** X17: with a negative Parallel, once the prompts are loaded Run panics
    when it makes the semaphore channel, before any test case is started,
    whatever the schedule. *)
Theorem negative_parallel_panics w r ch promptFiles :
  loadPrompts w r = Ok promptFiles -> Parallel (options r) < 0 ->
  Run w r ch = Panics "makechan: size out of range".
Proof.
  intros Hload Hneg. unfold Run. rewrite Hload.
  assert (Hinit : panicked (initState r (testCasesOf r ch))
                  = Some "makechan: size out of range").
  { simpl. by apply Z.ltb_lt in Hneg as ->. }
  by rewrite (exec_panicked w r (testCasesOf r ch) _ _ _ Hinit) Hinit.
Qed.

Lemma negative_parallel_panics_witness :
  let r := New demo.cfg (demo.opts (-1) []) in
  (loadPrompts demo.world r = Ok (<[fst demo.onboard := snd demo.onboard]> ∅)
   /\ Parallel (options r) < 0)
  /\ Run demo.world r (demo.choices (demo.roundRobin 10))
     = Panics "makechan: size out of range".
Proof.
  intros r.
  assert (Hload : loadPrompts demo.world r
                  = Ok (<[fst demo.onboard := snd demo.onboard]> ∅))
    by (vm_compute; reflexivity).
  assert (Hneg : Parallel (options r) < 0) by (simpl; lia).
  split; [done|].
  exact (negative_parallel_panics demo.world r _ _ Hload Hneg).
Defined.

Lemma no_slot_all_waiting w r cases sched s :
  Parallel (options r) <= 0 -> Inv w r cases s ->
  Forall (fun wk => wpc wk = AtAcquire) (workers s) ->
  Forall (fun wk => wpc wk = AtAcquire) (workers (exec w r (length cases) sched s)).
Proof.
  intros Hpar. revert s.
  induction sched as [|a sched IH]; intros s HI Hall; simpl; [done|].
  destruct (step w r (length cases) a s) as [s'|] eqn:Hstep; [|by apply IH].
  apply IH; [by eapply step_inv|].
  revert Hstep. unfold step. rewrite (inv_panic _ _ _ s HI).
  destruct a as [|i|].
  - unfold stepMain. destruct (mainPC s) as [[|tc rest]| |]; try done.
    + by intros [= <-].
    + intros [= <-]. simpl. apply Forall_app. split; [done|]. by constructor.
    + destruct (testResults s); [destruct (closed s); [|done]|]; by intros [= <-].
  - unfold stepWorker. destruct (workers s !! i) as [wk|] eqn:Hi; [|done].
    rewrite (proj1 (Forall_lookup _ _) Hall i wk Hi).
    pose proof (inv_bound _ _ _ s HI).
    destruct (Z.ltb_spec (Z.of_nat (semaphore s)) (Parallel (options r))); [lia|done].
  - unfold stepCloser. destruct (closerPC s); try done.
    destruct (wg s =? 0)%Z; [|done]. by intros [= <-].
Qed.

Lemma sentResults_waiting w r ws :
  Forall (fun wk => wpc wk = AtAcquire) ws -> sentResults w r ws = [].
Proof.
  induction 1 as [|wk ws Hwk _ IH]; simpl; [done|]. by rewrite Hwk.
Qed.

(** X18: with Parallel = 0 the semaphore channel has no room and nobody
    receives from it: as soon as there is one test case, no worker ever
    gets to run its case, no outcome is ever collected, and Run neither
    returns nor panics, whatever the schedule; without any test case it
    returns an empty result. *)
Theorem zero_parallel_never_returns w r ch promptFiles :
  loadPrompts w r = Ok promptFiles -> Parallel (options r) = 0 ->
  (testCasesOf r ch <> [] ->
   exists s, Run w r ch = Running s
             /\ Forall (fun wk => wpc wk = AtAcquire) (workers s)
             /\ TestResults (results s) = [])
  /\ (testCasesOf r ch = [] ->
      exists res,
        Run w r {| visit := visit ch; schedule := [Main; Closer; Main] |}
        = Returns (Ok res)
        /\ Total res = 0 /\ TestResults res = []).
Proof.
  intros Hload Hzero. split.
  - intros Hne. unfold Run. rewrite Hload.
    set (cases := testCasesOf r ch) in *.
    set (s := exec w r (length cases) (schedule ch) (initState r cases)).
    assert (Hinit : Inv w r cases (initState r cases)) by (apply init_inv; lia).
    assert (HI : Inv w r cases s) by by apply exec_inv.
    assert (Hwaiting : Forall (fun wk => wpc wk = AtAcquire) (workers s)).
    { apply no_slot_all_waiting; [lia|done|by constructor]. }
    assert (Hret : mainPC s <> Returned) by (apply no_slot_no_return; [lia|done]).
    exists s. rewrite (inv_panic _ _ _ _ HI).
    split; [by destruct (mainPC s)|]. split; [done|].
    pose proof (inv_sent _ _ _ _ HI) as Hsent.
    rewrite (sentResults_waiting _ _ _ Hwaiting) in Hsent.
    apply Permutation_nil_r in Hsent. by apply app_eq_nil in Hsent as [? _].
  - intros Hnil. unfold Run. rewrite Hload.
    change (testCasesOf r {| visit := visit ch; schedule := [Main; Closer; Main] |})
      with (testCasesOf r ch).
    rewrite Hnil. unfold step, stepMain, stepCloser, initState. cbn.
    rewrite Hzero. cbn. by eexists.
Qed.

Lemma zero_parallel_never_returns_witness :
  (loadPrompts demo.world demo.runner0 = Ok (<[fst demo.onboard := snd demo.onboard]> ∅)
   /\ Parallel (options demo.runner0) = 0
   /\ testCasesOf demo.runner0 (demo.choices (demo.roundRobin 10)) <> [])
  /\ exists s, Run demo.world demo.runner0 (demo.choices (demo.roundRobin 10))
               = Running s.
Proof.
  assert (Hload : loadPrompts demo.world demo.runner0
                  = Ok (<[fst demo.onboard := snd demo.onboard]> ∅))
    by (vm_compute; reflexivity).
  assert (Hzero : Parallel (options demo.runner0) = 0) by reflexivity.
  assert (Hne : testCasesOf demo.runner0 (demo.choices (demo.roundRobin 10)) <> [])
    by by vm_compute.
  split; [done|].
  destruct (proj1 (zero_parallel_never_returns demo.world demo.runner0
                     (demo.choices (demo.roundRobin 10)) _ Hload Hzero) Hne)
    as (s & Hrun & _).
  by exists s.
Defined.

End run_edges.
